(** * dsjob: a shallow embedding of [src/dsjob.c]

    The DataStage command-line controller [dsjob] is a table-driven
    dispatcher ([main]) over fifteen sub-command handlers.  Every handler
    talks to the job engine through the calls declared in [dsapi.h] and
    writes to stdout / stderr.

    The embedding keeps that shape:
    - C strings are [string], [int] is [Z], a possibly-NULL pointer is
      an [option];
    - the engine is an arbitrary transition system answering the calls of
      [dsapi.h] ([Engine]); handlers are written in a small monad [M]
      that threads the engine state and collects, in program order, the
      trace of engine calls and of the text written to the two streams;
    - the constants of [dsapi.h] (which is not part of the sources) are
      the fields of [DsApi];
    - what the C library and the platform decide ([atof], [ctime],
      [printf "%G"], the macro WIN32) is gathered in [Platform];
    - undefined behaviour of the C program (a store past the end of an
      array, [atoi] of an unrepresentable number, ...) is an explicit
      outcome, and so is running out of fuel in the one loop whose
      termination is decided by the engine. *)

From Stdlib Require Import ZArith List String Ascii Bool Lia DecimalString.
Import ListNotations.
Local Open Scope string_scope.
Local Open Scope list_scope.
Local Open Scope Z_scope.

Infix "+++" := String.append (at level 60, right associativity).

(** ** The C library *)

Definition nl : string := String (ascii_of_nat 10) EmptyString.
Definition tab : string := String (ascii_of_nat 9) EmptyString.

Definition INT_MIN : Z := -2147483648.
Definition INT_MAX : Z := 2147483647.

(** printf's [%d] *)
Definition string_of_Z (z : Z) : string := NilZero.string_of_int (Z.to_int z).

Definition isspace (c : ascii) : bool :=
  let n := nat_of_ascii c in
  ((n =? 32) || ((9 <=? n) && (n <=? 13)))%nat.

Definition isdigit (c : ascii) : bool :=
  let n := nat_of_ascii c in ((48 <=? n) && (n <=? 57))%nat.

Definition isprint (c : ascii) : bool :=
  let n := nat_of_ascii c in ((32 <=? n) && (n <=? 126))%nat.

Definition digit_value (c : ascii) : Z := Z.of_nat (nat_of_ascii c) - 48.

Fixpoint skip_space (s : string) : string :=
  match s with
  | String c r => if isspace c then skip_space r else s
  | EmptyString => s
  end.

(** The value of the longest prefix of decimal digits, [acc] being the
    value of the digits already read. *)
Fixpoint digits_value (s : string) (acc : Z) : Z :=
  match s with
  | String c r =>
      if isdigit c then digits_value r (acc * 10 + digit_value c) else acc
  | EmptyString => acc
  end.

(** An optional sign: is it a minus, and what follows it. *)
Definition strip_sign (s : string) : bool * string :=
  match s with
  | String c r =>
      if Ascii.eqb c "-" then (true, r)
      else if Ascii.eqb c "+" then (false, r)
      else (false, s)
  | EmptyString => (false, s)
  end.

(** The mathematical value [strtol (s, NULL, 10)] denotes: white space, an
    optional sign, decimal digits; no digits at all is 0. *)
Definition strtol10 (s : string) : Z :=
  let (negative, r) := strip_sign (skip_space s) in
  if negative then - digits_value r 0 else digits_value r 0.

(** [atoi]: the behaviour is undefined when the value is not
    representable in an [int] (C11 7.22.1); that case is [None]. *)
Definition atoi (s : string) : option Z :=
  let v := strtol10 s in
  if (INT_MIN <=? v) && (v <=? INT_MAX) then Some v else None.

(** [strchr (s, c)], as the pair of the text before the first [c] and the
    text after it; [None] is the NULL result. *)
Fixpoint strchr_split (c : ascii) (s : string) : option (string * string) :=
  match s with
  | EmptyString => None
  | String a r =>
      if Ascii.eqb a c then Some (EmptyString, r)
      else match strchr_split c r with
           | Some (n, v) => Some (String a n, v)
           | None => None
           end
  end.

(** [argv[i][0] == '-' || argv[i][0] == '/'] *)
Definition is_option (s : string) : bool :=
  match s with
  | String c _ => Ascii.eqb c "-" || Ascii.eqb c "/"
  | EmptyString => false
  end.

(** [&(argv[i][1])] *)
Definition opt_name (s : string) : string :=
  match s with
  | String _ r => r
  | EmptyString => EmptyString
  end.

(** Has [strtod] a subject sequence to convert: after white space and an
    optional sign, a digit, a point followed by a digit, or one of the
    words INF / NAN in any case (C99 7.20.1.3). *)
Definition lower (c : ascii) : ascii :=
  let n := nat_of_ascii c in
  if ((65 <=? n) && (n <=? 90))%nat then ascii_of_nat (n + 32) else c.

Definition strtod_subject (s : string) : bool :=
  match snd (strip_sign (skip_space s)) with
  | String c (String d (String e _)) =>
      isdigit c || (Ascii.eqb c "." && isdigit d)
      || (Ascii.eqb (lower c) "i" && Ascii.eqb (lower d) "n"
          && Ascii.eqb (lower e) "f")
      || (Ascii.eqb (lower c) "n" && Ascii.eqb (lower d) "a"
          && Ascii.eqb (lower e) "n")
  | String c (String d EmptyString) =>
      isdigit c || (Ascii.eqb c "." && isdigit d)
  | String c EmptyString => isdigit c
  | EmptyString => false
  end.

(** What the platform and the C library decide. *)
Class Platform : Type := {
  (** is the macro WIN32 defined *)
  WIN32 : bool;
  (** the values of the C type [float] *)
  DSFLOAT : Type;
  float_zero : DSFLOAT;
  (** [(float) atof (s)] *)
  atof : string -> DSFLOAT;
  (** printf's [%G] *)
  fmt_G : DSFLOAT -> string;
  (** [ctime], on a [time_t] *)
  ctime : Z -> string
}.

(** "If no conversion could be performed, zero is returned" (C99
    7.20.1.3 (10)). *)
Definition atof_conforms (P : Platform) : Prop :=
  forall s, strtod_subject s = false -> atof s = float_zero.

(** ** The constants of dsapi.h

    The header is not part of the sources: its constants are parameters. *)
Class DsApi : Type := {
  DSJE_NOERROR : Z;
  DSJE_NOT_AVAILABLE : Z;
  DSJE_NOMORE : Z;
  DSJ_PARAMTYPE_STRING : Z;
  DSJ_PARAMTYPE_ENCRYPTED : Z;
  DSJ_PARAMTYPE_INTEGER : Z;
  DSJ_PARAMTYPE_FLOAT : Z;
  DSJ_PARAMTYPE_PATHNAME : Z;
  DSJ_PARAMTYPE_LIST : Z;
  DSJ_PARAMTYPE_DATE : Z;
  DSJ_PARAMTYPE_TIME : Z;
  DSJ_LOGINFO : Z;
  DSJ_LOGWARNING : Z;
  DSJ_LOGFATAL : Z;
  DSJ_LOGREJECT : Z;
  DSJ_LOGSTARTED : Z;
  DSJ_LOGRESET : Z;
  DSJ_LOGBATCH : Z;
  DSJ_LOGOTHER : Z;
  DSJ_LOGANY : Z;
  DSJ_RUNNORMAL : Z;
  DSJ_RUNRESET : Z;
  DSJ_RUNVALIDATE : Z;
  DSJ_LIMITWARN : Z;
  DSJ_LIMITROWS : Z;
  DSJ_JOBLIST : Z;
  DSJ_STAGELIST : Z;
  DSJ_PARAMLIST : Z;
  DSJ_JOBSTATUS : Z;
  DSJ_JOBCONTROLLER : Z;
  DSJ_JOBSTARTTIMESTAMP : Z;
  DSJ_JOBWAVENO : Z;
  DSJ_USERSTATUS : Z;
  DSJ_LINKLIST : Z;
  DSJ_STAGETYPE : Z;
  DSJ_STAGEINROWNUM : Z;
  DSJ_STAGELASTERR : Z;
  DSJ_LINKROWCOUNT : Z;
  DSJ_LINKLASTERR : Z;
  DSJS_RUNNING : Z;
  DSJS_RUNOK : Z;
  DSJS_RUNWARN : Z;
  DSJS_RUNFAILED : Z;
  DSJS_VALOK : Z;
  DSJS_VALWARN : Z;
  DSJS_VALFAILED : Z;
  DSJS_RESET : Z;
  DSJS_STOPPED : Z;
  DSJS_NOTRUNNABLE : Z;
  DSJS_NOTRUNNING : Z
}.

(** The labels of the [switch] over the parameter types are pairwise
    distinct: a C compiler rejects duplicate case labels. *)
Definition param_types (A : DsApi) : list Z :=
  [DSJ_PARAMTYPE_STRING; DSJ_PARAMTYPE_ENCRYPTED; DSJ_PARAMTYPE_INTEGER;
   DSJ_PARAMTYPE_FLOAT; DSJ_PARAMTYPE_PATHNAME; DSJ_PARAMTYPE_LIST;
   DSJ_PARAMTYPE_DATE; DSJ_PARAMTYPE_TIME].

Definition param_types_distinct (A : DsApi) : Prop := NoDup (param_types A).

(** [#define DSJE_DSJOB_ERROR -9999] *)
Definition DSJE_DSJOB_ERROR : Z := -9999.

(** [#define MAX_PARAMS 10] *)
Definition MAX_PARAMS : nat := 10.

(** [#define MAX_MSG_LEN 4096] *)
Definition MAX_MSG_LEN : nat := 4096.

(** [switch (x) { case l1: ... default: ... }] with distinct labels *)
Fixpoint switch {A : Type} (x : Z) (cases : list (Z * A)) (default : A) : A :=
  match cases with
  | [] => default
  | (l, a) :: rest => if x =? l then a else switch x rest default
  end.

(** ** The types of dsapi.h *)

(** Handles are opaque pointers; NULL is [None] where a call may return
    it. *)
Definition DSPROJECT : Type := Z.
Definition DSJOB : Type := Z.

Section Types.
Context {P : Platform}.

(** The union [paramValue]: the member that was stored. *)
Inductive DSPARAMVALUE : Type :=
| pString (s : string)
| pEncrypt (s : string)
| pInt (n : Z)
| pFloat (f : DSFLOAT)
| pPath (s : string)
| pListValue (s : string)
| pDate (s : string)
| pTime (s : string).

Record DSPARAM : Type := mkDSPARAM {
  paramType : Z;
  paramValue : DSPARAMVALUE
}.

Record DSPARAMINFO : Type := mkDSPARAMINFO {
  defaultValue : DSPARAM;
  helpText : string;
  paramPrompt : string;
  pi_paramType : Z;
  desDefaultValue : DSPARAM;
  listValues : list string;
  desListValues : list string;
  promptAtRun : Z
}.

Record DSLOGEVENT : Type := mkDSLOGEVENT {
  le_eventId : Z;
  le_timestamp : Z;
  le_type : Z;
  le_message : string
}.

Record DSLOGDETAIL : Type := mkDSLOGDETAIL {
  ld_eventId : Z;
  ld_timestamp : Z;
  ld_type : Z;
  ld_fullMessage : list string
}.

(** The [info] unions, one field per member the program reads. *)
Record DSPROJECTINFO : Type := mkDSPROJECTINFO {
  jobList : list string
}.

Record DSJOBINFO : Type := mkDSJOBINFO {
  jobStatus : Z;
  jobController : string;
  jobStartTime : Z;
  jobWaveNumber : Z;
  userStatus : string;
  stageList : list string;
  paramList : list string
}.

Record DSSTAGEINFO : Type := mkDSSTAGEINFO {
  si_lastError : DSLOGDETAIL;
  typeName : string;
  inRowNum : Z;
  linkList : list string
}.

Record DSLINKINFO : Type := mkDSLINKINFO {
  li_lastError : DSLOGDETAIL;
  rowCount : Z
}.

(** ** The engine

    One constructor per function of dsapi.h the program calls, indexed
    by what the call hands back: its result, paired with the structure it
    fills through its last pointer argument when it has one. *)
Inductive DSCall : Type -> Type :=
| DSSetServerParams (domain user password server : option string)
    : DSCall unit
| DSOpenProject (project : string) : DSCall (option DSPROJECT)
| DSCloseProject (hProject : DSPROJECT) : DSCall Z
| DSOpenJob (hProject : DSPROJECT) (job : string) : DSCall (option DSJOB)
| DSCloseJob (hJob : DSJOB) : DSCall Z
| DSLockJob (hJob : DSJOB) : DSCall Z
| DSUnlockJob (hJob : DSJOB) : DSCall Z
| DSSetJobLimit (hJob : DSJOB) (limitType limitValue : Z) : DSCall Z
| DSGetParamInfo (hJob : DSJOB) (name : string) : DSCall (Z * DSPARAMINFO)
| DSSetParam (hJob : DSJOB) (name : string) (p : DSPARAM) : DSCall Z
| DSRunJob (hJob : DSJOB) (runMode : Z) : DSCall Z
| DSWaitForJob (hJob : DSJOB) : DSCall Z
| DSStopJob (hJob : DSJOB) : DSCall Z
| DSGetProjectList : DSCall (option (list string))
| DSGetProjectInfo (hProject : DSPROJECT) (infoType : Z)
    : DSCall (Z * DSPROJECTINFO)
| DSGetJobInfo (hJob : DSJOB) (infoType : Z) : DSCall (Z * DSJOBINFO)
| DSGetStageInfo (hJob : DSJOB) (stage : string) (infoType : Z)
    : DSCall (Z * DSSTAGEINFO)
| DSGetLinkInfo (hJob : DSJOB) (stage link : string) (infoType : Z)
    : DSCall (Z * DSLINKINFO)
| DSLogEvent (hJob : DSJOB) (eventType : Z) (message : string) : DSCall Z
| DSFindFirstLogEntry (hJob : DSJOB) (eventType startTime endTime : Z)
    (maxNumber : Z) : DSCall (Z * DSLOGEVENT)
| DSFindNextLogEntry (hJob : DSJOB) : DSCall (Z * DSLOGEVENT)
| DSGetLogEntry (hJob : DSJOB) (eventId : Z) : DSCall (Z * DSLOGDETAIL)
| DSGetNewestLogId (hJob : DSJOB) (eventType : Z) : DSCall Z
| DSGetLastError : DSCall Z
| DSGetLastErrorMsg : DSCall (option (list string)).

(** An engine: any state, any answers. *)
Class Engine : Type := {
  EState : Type;
  answer : forall R : Type, DSCall R -> EState -> R * EState
}.

(** What an observer of the process sees, in program order. *)
Inductive Event : Type :=
| EvCall {R : Type} (c : DSCall R) (r : R)
| EvStdout (text : string)
| EvStderr (text : string)
| EvFlush.

End Types.

(** ** The monad of the handlers *)

Inductive UB : Type :=
| OutOfBoundsWrite
| NullDereference
| IntegerOverflow
| UnionMismatch
| UninitializedRead.

Section Monad.
Context {P : Platform} {Eng : Engine}.

(** The world outside the process: the engine and what is left to read
    on stdin. *)
Record World : Type := mkWorld {
  engine : EState;
  stdin : list ascii
}.

Inductive Outcome (A : Type) : Type :=
| Returns (a : A) (tr : list Event) (w : World)
| Undefined (u : UB)
| OutOfFuel.
Arguments Returns {A} a tr w.
Arguments Undefined {A} u.
Arguments OutOfFuel {A}.

Definition M (A : Type) : Type := World -> Outcome A.

Definition ret {A : Type} (a : A) : M A := fun w => Returns a [] w.

Definition bind {A B : Type} (m : M A) (k : A -> M B) : M B :=
  fun w =>
    match m w with
    | Returns a t1 w1 =>
        match k a w1 with
        | Returns b t2 w2 => Returns b (t1 ++ t2) w2
        | Undefined u => Undefined u
        | OutOfFuel => OutOfFuel
        end
    | Undefined u => Undefined u
    | OutOfFuel => OutOfFuel
    end.

Definition undefined {A : Type} (u : UB) : M A := fun _ => Undefined u.

Definition out_of_fuel {A : Type} : M A := fun _ => OutOfFuel.

Definition call {R : Type} (c : DSCall R) : M R :=
  fun w =>
    let (r, e) := answer R c (engine w) in
    Returns r [EvCall c r] (mkWorld e (stdin w)).

Definition printf (text : string) : M unit :=
  fun w => Returns tt [EvStdout text] w.

Definition eprintf (text : string) : M unit :=
  fun w => Returns tt [EvStderr text] w.

Definition fflush_stdout : M unit :=
  fun w => Returns tt [EvFlush] w.

(** [if (c) m;] *)
Definition when (c : bool) (m : M unit) : M unit :=
  if c then m else ret tt.

End Monad.

Arguments Returns {P Eng A} a tr w.
Arguments Undefined {P Eng A} u.
Arguments OutOfFuel {P Eng A}.

Notation "x <- m ;; k" := (bind m (fun x => k))
  (at level 61, m at next level, right associativity).
Notation "m ;;; k" := (bind m (fun _ => k))
  (at level 61, right associativity).

(** ** The handlers *)

Section Handlers.
Context {P : Platform} {A : DsApi} {Eng : Engine}.

(** [status != DSJE_NOERROR] *)
Definition failed (status : Z) : bool := negb (status =? DSJE_NOERROR).

(** [printStrList]: one string per line, each after [indent] tabs.  Every
    tab is a [putchar], every string a [printf]. *)
Fixpoint tabs (n : nat) : M unit :=
  match n with
  | O => ret tt
  | S n' => printf tab ;;; tabs n'
  end.

Fixpoint printStrList (indent : nat) (str : list string) : M unit :=
  match str with
  | [] => ret tt
  | s :: rest => tabs indent ;;; printf (s +++ nl) ;;; printStrList indent rest
  end.

Definition log_type_label (type : Z) : string :=
  switch type
    [(DSJ_LOGINFO, "INFO"); (DSJ_LOGWARNING, "WARNING");
     (DSJ_LOGFATAL, "FATAL"); (DSJ_LOGREJECT, "REJECT");
     (DSJ_LOGSTARTED, "STARTED"); (DSJ_LOGRESET, "RESET");
     (DSJ_LOGBATCH, "BATCH"); (DSJ_LOGOTHER, "OTHER")]
    "????".

(** [prefix[indent] = '\0'] on [char prefix[6]] holding five tabs *)
Fixpoint tab_prefix (indent : nat) : string :=
  match indent with
  | O => EmptyString
  | S n => tab +++ tab_prefix n
  end.

Definition printLogDetail (indent : nat) (logDetail : DSLOGDETAIL) : M unit :=
  if (5 <? indent)%nat then undefined OutOfBoundsWrite
  else
    let prefix := tab_prefix indent in
    printf (prefix +++ "Event Id: ") ;;;
    (if ld_eventId logDetail <? 0 then printf "unknown"
     else printf (string_of_Z (ld_eventId logDetail))) ;;;
    printf nl ;;;
    printf (prefix +++ "Time" +++ tab +++ ": "
            +++ ctime (ld_timestamp logDetail)) ;;;
    printf (prefix +++ "Type" +++ tab +++ ": ") ;;;
    printf (log_type_label (ld_type logDetail)) ;;;
    printf nl ;;;
    printf (prefix +++ "Message" +++ tab +++ ":" +++ nl) ;;;
    printStrList (indent + 1) (ld_fullMessage logDetail).

(** *** setParam *)

(** The [switch] of [setParam]: the value structure built from the
    declared type and the text after the [=].  Only [atoi], in the
    integer case, can fail to be defined: that is [None]. *)
Definition make_param (declared : Z) (value : string) : option DSPARAM :=
  switch declared
    [(DSJ_PARAMTYPE_STRING, Some (mkDSPARAM declared (pString value)));
     (DSJ_PARAMTYPE_ENCRYPTED, Some (mkDSPARAM declared (pEncrypt value)));
     (DSJ_PARAMTYPE_INTEGER,
        match atoi value with
        | Some n => Some (mkDSPARAM declared (pInt n))
        | None => None
        end);
     (DSJ_PARAMTYPE_FLOAT, Some (mkDSPARAM declared (pFloat (atof value))));
     (DSJ_PARAMTYPE_PATHNAME, Some (mkDSPARAM declared (pPath value)));
     (DSJ_PARAMTYPE_LIST, Some (mkDSPARAM declared (pListValue value)));
     (DSJ_PARAMTYPE_DATE, Some (mkDSPARAM declared (pDate value)));
     (DSJ_PARAMTYPE_TIME, Some (mkDSPARAM declared (pTime value)))]
    (Some (mkDSPARAM DSJ_PARAMTYPE_STRING (pString value))).

Definition setParam (hJob : DSJOB) (param : string) : M Z :=
  match strchr_split "=" param with
  | None => undefined NullDereference
  | Some (name, value) =>
      r <- call (DSGetParamInfo hJob name) ;;
      let (status, paramInfo) := r in
      if failed status then
        eprintf ("Error " +++ string_of_Z status
                 +++ " getting information for parameter '" +++ name
                 +++ "'" +++ nl) ;;;
        ret status
      else
        match make_param (pi_paramType paramInfo) value with
        | None => undefined IntegerOverflow
        | Some paramData =>
            status <- call (DSSetParam hJob name paramData) ;;
            when (failed status)
              (eprintf ("Error setting value of parameter '" +++ name
                        +++ "'" +++ nl)) ;;;
            ret status
        end
  end.

(** *** -run *)

Record RunOptions : Type := mkRunOptions {
  mode : Z;
  warningLimit : Z;
  rowLimit : Z;
  param : list string;      (* param[0 .. nParams - 1] *)
  waitForJob : bool
}.

Inductive Parsed (T : Type) : Type :=
| Accepted (t : T) (rest : list string)   (* rest is argv[i ..] *)
| BadOptions
| ParseUndefined (u : UB).
Arguments Accepted {T} t rest.
Arguments BadOptions {T}.
Arguments ParseUndefined {T} u.

(** The option loop of [jobRun], on what is left of [argv]. *)
Fixpoint jobRun_options (argv : list string) (o : RunOptions)
  : Parsed RunOptions :=
  match argv with
  | [] => Accepted o []
  | a :: rest =>
      if is_option a then
        let opt := opt_name a in
        if String.eqb opt "wait" then
          jobRun_options rest
            (mkRunOptions (mode o) (warningLimit o) (rowLimit o) (param o)
               true)
        else
          match rest with
          | [] => BadOptions
          | arg :: rest' =>
              if String.eqb opt "mode" then
                if String.eqb arg "NORMAL" then
                  jobRun_options rest'
                    (mkRunOptions DSJ_RUNNORMAL (warningLimit o) (rowLimit o)
                       (param o) (waitForJob o))
                else if String.eqb arg "RESET" then
                  jobRun_options rest'
                    (mkRunOptions DSJ_RUNRESET (warningLimit o) (rowLimit o)
                       (param o) (waitForJob o))
                else if String.eqb arg "VALIDATE" then
                  jobRun_options rest'
                    (mkRunOptions DSJ_RUNVALIDATE (warningLimit o)
                       (rowLimit o) (param o) (waitForJob o))
                else BadOptions
              else if String.eqb opt "param" then
                match strchr_split "=" arg with
                | None => BadOptions
                | Some _ =>
                    (* param[nParams++] = arg *)
                    if (List.length (param o) <? MAX_PARAMS)%nat then
                      jobRun_options rest'
                        (mkRunOptions (mode o) (warningLimit o) (rowLimit o)
                           (param o ++ [arg]) (waitForJob o))
                    else ParseUndefined OutOfBoundsWrite
                end
              else if String.eqb opt "warn" then
                match atoi arg with
                | Some n =>
                    jobRun_options rest'
                      (mkRunOptions (mode o) n (rowLimit o) (param o)
                         (waitForJob o))
                | None => ParseUndefined IntegerOverflow
                end
              else if String.eqb opt "rows" then
                match atoi arg with
                | Some n =>
                    jobRun_options rest'
                      (mkRunOptions (mode o) (warningLimit o) n (param o)
                         (waitForJob o))
                | None => ParseUndefined IntegerOverflow
                end
              else BadOptions
          end
      else Accepted o argv
  end.

Definition jobRun_defaults : RunOptions :=
  mkRunOptions DSJ_RUNNORMAL (-1) 0 [] false.

Definition jobRun_usage : M Z :=
  eprintf ("Invalid arguments: dsjob -run" +++ nl) ;;;
  eprintf (tab +++ tab +++ tab +++ "[-mode <NORMAL | RESET | VALIDATE>]"
           +++ nl) ;;;
  eprintf (tab +++ tab +++ tab +++ "[-param <name>=<value>]" +++ nl) ;;;
  eprintf (tab +++ tab +++ tab +++ "[-warn <n>]" +++ nl) ;;;
  eprintf (tab +++ tab +++ tab +++ "[-rows <n>]" +++ nl) ;;;
  eprintf (tab +++ tab +++ tab +++ "[-wait]" +++ nl) ;;;
  eprintf (tab +++ tab +++ tab +++ "<project> <job>" +++ nl) ;;;
  ret DSJE_DSJOB_ERROR.

(** [for (i = 0; (status == DSJE_NOERROR) && (i < nParams); i++)
       status = setParam (hJob, param[i]);] *)
Fixpoint setParam_loop (hJob : DSJOB) (status : Z) (params : list string)
  : M Z :=
  match params with
  | [] => ret status
  | p :: rest =>
      if status =? DSJE_NOERROR then
        status' <- setParam hJob p ;;
        setParam_loop hJob status' rest
      else ret status
  end.

(** What [jobRun] does with a job it has locked. *)
Definition jobRun_locked (hJob : DSJOB) (o : RunOptions) (status : Z) : M Z :=
  status <-
    (if 0 <=? warningLimit o then
       status <- call (DSSetJobLimit hJob DSJ_LIMITWARN (warningLimit o)) ;;
       when (failed status)
         (eprintf ("Error setting warning limit" +++ nl)) ;;;
       ret status
     else ret status) ;;
  status <-
    (if negb (rowLimit o =? 0) && (status =? DSJE_NOERROR) then
       status <- call (DSSetJobLimit hJob DSJ_LIMITROWS (rowLimit o)) ;;
       when (failed status) (eprintf ("Error setting row limit" +++ nl)) ;;;
       ret status
     else ret status) ;;
  status <- setParam_loop hJob status (param o) ;;
  status <-
    (if status =? DSJE_NOERROR then
       status <- call (DSRunJob hJob (mode o)) ;;
       when (failed status) (eprintf ("Error running job" +++ nl)) ;;;
       ret status
     else ret status) ;;
  status <-
    (if (status =? DSJE_NOERROR) && waitForJob o then
       printf ("Waiting for job..." +++ nl) ;;;
       status <- call (DSWaitForJob hJob) ;;
       when (failed status) (eprintf ("Error waiting for job" +++ nl)) ;;;
       ret status
     else ret status) ;;
  call (DSUnlockJob hJob) ;;;
  ret status.

Definition jobRun_open (project job : string) (o : RunOptions) : M Z :=
  hProject <- call (DSOpenProject project) ;;
  match hProject with
  | None =>
      status <- call DSGetLastError ;;
      eprintf ("ERROR: Failed to open project" +++ nl) ;;;
      ret status
  | Some hProject =>
      status <-
        (hJob <- call (DSOpenJob hProject job) ;;
         match hJob with
         | None =>
             status <- call DSGetLastError ;;
             eprintf ("ERROR: Failed to open job" +++ nl) ;;;
             ret status
         | Some hJob =>
             status <-
               (status <- call (DSLockJob hJob) ;;
                if failed status then
                  eprintf ("ERROR: Failed to lock job" +++ nl) ;;;
                  ret status
                else jobRun_locked hJob o status) ;;
             call (DSCloseJob hJob) ;;;
             ret status
         end) ;;
      call (DSCloseProject hProject) ;;;
      ret status
  end.

Definition jobRun (argv : list string) : M Z :=
  match jobRun_options argv jobRun_defaults with
  | ParseUndefined u => undefined u
  | BadOptions => jobRun_usage
  | Accepted o [project; job] => jobRun_open project job o
  | Accepted _ _ => jobRun_usage
  end.

(** The two streams of every handler that opens a project and a job:
    what is printed when an open fails. *)
Definition open_project_failed : M Z :=
  status <- call DSGetLastError ;;
  eprintf ("ERROR: Failed to open project" +++ nl) ;;;
  ret status.

Definition open_job_failed : M Z :=
  status <- call DSGetLastError ;;
  eprintf ("ERROR: Failed to open job" +++ nl) ;;;
  ret status.

(** *** -stop *)
Definition jobStop (argv : list string) : M Z :=
  match argv with
  | [project; job] =>
      hProject <- call (DSOpenProject project) ;;
      match hProject with
      | None => open_project_failed
      | Some hProject =>
          status <-
            (hJob <- call (DSOpenJob hProject job) ;;
             match hJob with
             | None => open_job_failed
             | Some hJob =>
                 status <- call (DSStopJob hJob) ;;
                 when (failed status) (eprintf ("Error stopping job" +++ nl)) ;;;
                 call (DSCloseJob hJob) ;;;
                 ret status
             end) ;;
          call (DSCloseProject hProject) ;;;
          ret status
      end
  | _ =>
      eprintf ("Invalid arguments: dsjob -stop <project> <job>" +++ nl) ;;;
      ret DSJE_DSJOB_ERROR
  end.

(** *** -lprojects *)
Definition jobLProjects (argv : list string) : M Z :=
  match argv with
  | [] =>
      list <- call DSGetProjectList ;;
      match list with
      | None => call DSGetLastError
      | Some list => printStrList 0 list ;;; ret DSJE_NOERROR
      end
  | _ =>
      eprintf ("Invalid arguments: dsjob -lproject" +++ nl) ;;;
      ret DSJE_DSJOB_ERROR
  end.

(** *** -ljobs *)
Definition jobLJobs (argv : list string) : M Z :=
  match argv with
  | [project] =>
      hProject <- call (DSOpenProject project) ;;
      match hProject with
      | None => call DSGetLastError
      | Some hProject =>
          r <- call (DSGetProjectInfo hProject DSJ_JOBLIST) ;;
          let (status, pInfo) := r in
          status <-
            (if status =? DSJE_NOT_AVAILABLE then
               printf ("<none>" +++ nl) ;;; ret DSJE_NOERROR
             else if status =? DSJE_NOERROR then
               printStrList 0 (jobList pInfo) ;;; ret status
             else ret status) ;;
          call (DSCloseProject hProject) ;;;
          ret status
      end
  | _ =>
      eprintf ("Invalid arguments: dsjob -ljobs <project>" +++ nl) ;;;
      ret DSJE_DSJOB_ERROR
  end.

(** *** -lstages *)
Definition jobLStages (argv : list string) : M Z :=
  match argv with
  | [project; job] =>
      hProject <- call (DSOpenProject project) ;;
      match hProject with
      | None => open_project_failed
      | Some hProject =>
          status <-
            (hJob <- call (DSOpenJob hProject job) ;;
             match hJob with
             | None => open_job_failed
             | Some hJob =>
                 r <- call (DSGetJobInfo hJob DSJ_STAGELIST) ;;
                 let (status, jobInfo) := r in
                 status <-
                   (if status =? DSJE_NOT_AVAILABLE then
                      printf ("<none>" +++ nl) ;;; ret DSJE_NOERROR
                    else if failed status then
                      eprintf ("Error " +++ string_of_Z status
                               +++ " getting stage list" +++ nl) ;;;
                      ret status
                    else printStrList 0 (stageList jobInfo) ;;; ret status) ;;
                 call (DSCloseJob hJob) ;;;
                 ret status
             end) ;;
          call (DSCloseProject hProject) ;;;
          ret status
      end
  | _ =>
      eprintf ("Invalid arguments: dsjob -lstages <project> <job>" +++ nl) ;;;
      ret DSJE_DSJOB_ERROR
  end.

(** *** -llinks *)

(** [stageInfo] is an automatic variable without an initial value, and
    the only store to it is the engine's.  The engine is taken to fill
    the structure in when it answers success and not otherwise, which is
    all that the other handlers rely on: they read their structure under
    a test for success.  [jobLLinks] has no [else] between its two tests
    of the status: after "not available" it has set the status to
    success and goes on to print [stageInfo.info.linkList], a member that
    nothing has stored to. *)
Definition jobLLinks (argv : list string) : M Z :=
  match argv with
  | [project; job; stage] =>
      hProject <- call (DSOpenProject project) ;;
      match hProject with
      | None => open_project_failed
      | Some hProject =>
          status <-
            (hJob <- call (DSOpenJob hProject job) ;;
             match hJob with
             | None => open_job_failed
             | Some hJob =>
                 r <- call (DSGetStageInfo hJob stage DSJ_LINKLIST) ;;
                 let (answered, stageInfo) := r in
                 status <-
                   (if answered =? DSJE_NOT_AVAILABLE then
                      printf ("<none>" +++ nl) ;;; ret DSJE_NOERROR
                    else ret answered) ;;
                 (if failed status then
                    eprintf ("Error " +++ string_of_Z status
                             +++ " getting link list" +++ nl)
                  else if failed answered then undefined UninitializedRead
                  else printStrList 0 (linkList stageInfo)) ;;;
                 call (DSCloseJob hJob) ;;;
                 ret status
             end) ;;
          call (DSCloseProject hProject) ;;;
          ret status
      end
  | _ =>
      eprintf ("Invalid arguments: dsjob -llinks <project> <job> <stage>"
               +++ nl) ;;;
      ret DSJE_DSJOB_ERROR
  end.

(** *** -jobinfo *)
Definition job_status_label (jobStatus : Z) : string :=
  switch jobStatus
    [(DSJS_RUNNING, "RUNNING"); (DSJS_RUNOK, "RUN OK");
     (DSJS_RUNWARN, "RUN with WARNINGS"); (DSJS_RUNFAILED, "RUN FAILED");
     (DSJS_VALOK, "VALIDATED OK"); (DSJS_VALWARN, "VALIDATE with WARNINGS");
     (DSJS_VALFAILED, "VALIDATION FILED"); (DSJS_RESET, "RESET");
     (DSJS_STOPPED, "STOPPED"); (DSJS_NOTRUNNABLE, "NOT COMPILED");
     (DSJS_NOTRUNNING, "NOT RUNNING")]
    "UNKNOWN".

(** The five queries of [jobJobInfo]: each one overwrites [status]. *)
Definition jobJobInfo_queries (hJob : DSJOB) : M Z :=
  r <- call (DSGetJobInfo hJob DSJ_JOBSTATUS) ;;
  (let (status, jobInfo) := r in
   if failed status then
     eprintf ("Error " +++ string_of_Z status +++ " getting job status" +++ nl)
   else
     printf ("Job Status" +++ tab +++ ": ") ;;;
     printf (job_status_label (jobStatus jobInfo)) ;;;
     printf (" (" +++ string_of_Z (jobStatus jobInfo) +++ ")" +++ nl)) ;;;
  r <- call (DSGetJobInfo hJob DSJ_JOBCONTROLLER) ;;
  (let (status, jobInfo) := r in
   if status =? DSJE_NOT_AVAILABLE then
     printf ("Job Controller" +++ tab +++ ": not available" +++ nl)
   else if failed status then
     eprintf ("Error " +++ string_of_Z status +++ " getting job controller"
              +++ nl)
   else
     printf ("Job Controller" +++ tab +++ ": " +++ jobController jobInfo
             +++ nl)) ;;;
  r <- call (DSGetJobInfo hJob DSJ_JOBSTARTTIMESTAMP) ;;
  (let (status, jobInfo) := r in
   if status =? DSJE_NOT_AVAILABLE then
     printf ("Job Start Time" +++ tab +++ ": not available" +++ nl)
   else if failed status then
     eprintf ("Error " +++ string_of_Z status +++ " getting job start time"
              +++ nl)
   else
     printf ("Job Start Time" +++ tab +++ ": "
             +++ ctime (jobStartTime jobInfo))) ;;;
  r <- call (DSGetJobInfo hJob DSJ_JOBWAVENO) ;;
  (let (status, jobInfo) := r in
   if failed status then
     eprintf ("Error " +++ string_of_Z status +++ " getting job wave number"
              +++ nl)
   else
     printf ("Job Wave Number" +++ tab +++ ": "
             +++ string_of_Z (jobWaveNumber jobInfo) +++ nl)) ;;;
  r <- call (DSGetJobInfo hJob DSJ_USERSTATUS) ;;
  let (status, jobInfo) := r in
  (if status =? DSJE_NOT_AVAILABLE then
     printf ("User Status" +++ tab +++ ": not available" +++ nl)
   else if failed status then
     eprintf ("Error " +++ string_of_Z status +++ " getting job user status"
              +++ nl)
   else
     printf ("User Status" +++ tab +++ ": " +++ userStatus jobInfo +++ nl)) ;;;
  ret (if status =? DSJE_NOT_AVAILABLE then DSJE_NOERROR else status).

Definition jobJobInfo (argv : list string) : M Z :=
  match argv with
  | [project; job] =>
      hProject <- call (DSOpenProject project) ;;
      match hProject with
      | None => open_project_failed
      | Some hProject =>
          status <-
            (hJob <- call (DSOpenJob hProject job) ;;
             match hJob with
             | None => open_job_failed
             | Some hJob =>
                 status <- jobJobInfo_queries hJob ;;
                 call (DSCloseJob hJob) ;;;
                 ret status
             end) ;;
          call (DSCloseProject hProject) ;;;
          ret status
      end
  | _ =>
      eprintf ("Invalid arguments: dsjob -jobinfo <project> <job>" +++ nl) ;;;
      ret DSJE_DSJOB_ERROR
  end.

(** *** -stageinfo *)

(** The three queries of [jobStageInfo]: each one overwrites [status]. *)
Definition jobStageInfo_queries (hJob : DSJOB) (stage : string) : M Z :=
  r <- call (DSGetStageInfo hJob stage DSJ_STAGETYPE) ;;
  (let (status, stageInfo) := r in
   if failed status then
     eprintf ("Error " +++ string_of_Z status +++ " getting stage type" +++ nl)
   else printf ("Stage Type" +++ tab +++ ": " +++ typeName stageInfo +++ nl)) ;;;
  r <- call (DSGetStageInfo hJob stage DSJ_STAGEINROWNUM) ;;
  (let (status, stageInfo) := r in
   if failed status then
     eprintf ("Error " +++ string_of_Z status +++ " getting stage row number"
              +++ nl)
   else
     printf ("In Row Number" +++ tab +++ ": "
             +++ string_of_Z (inRowNum stageInfo) +++ nl)) ;;;
  r <- call (DSGetStageInfo hJob stage DSJ_STAGELASTERR) ;;
  let (status, stageInfo) := r in
  (if status =? DSJE_NOT_AVAILABLE then
     printf ("Stage Last Error: <none>" +++ nl)
   else if failed status then
     eprintf ("Error " +++ string_of_Z status +++ " getting stage last error"
              +++ nl)
   else
     printf ("Stage Last Error:" +++ nl) ;;;
     printLogDetail 1 (si_lastError stageInfo)) ;;;
  ret (if status =? DSJE_NOT_AVAILABLE then DSJE_NOERROR else status).

Definition jobStageInfo (argv : list string) : M Z :=
  match argv with
  | [project; job; stage] =>
      hProject <- call (DSOpenProject project) ;;
      match hProject with
      | None => open_project_failed
      | Some hProject =>
          status <-
            (hJob <- call (DSOpenJob hProject job) ;;
             match hJob with
             | None => open_job_failed
             | Some hJob =>
                 status <- jobStageInfo_queries hJob stage ;;
                 call (DSCloseJob hJob) ;;;
                 ret status
             end) ;;
          call (DSCloseProject hProject) ;;;
          ret status
      end
  | _ =>
      eprintf ("Invalid arguments: dsjob -stageinfo <project> <job> <stage>"
               +++ nl) ;;;
      ret DSJE_DSJOB_ERROR
  end.

(** *** -linkinfo *)

(** The two queries of [jobLinkInfo]: the second overwrites [status]. *)
Definition jobLinkInfo_queries (hJob : DSJOB) (stage link : string) : M Z :=
  r <- call (DSGetLinkInfo hJob stage link DSJ_LINKROWCOUNT) ;;
  (let (status, linkInfo) := r in
   if failed status then
     eprintf ("Error " +++ string_of_Z status +++ " getting link row count"
              +++ nl)
   else
     printf ("Link Row Count" +++ tab +++ ": "
             +++ string_of_Z (rowCount linkInfo) +++ nl)) ;;;
  r <- call (DSGetLinkInfo hJob stage link DSJ_LINKLASTERR) ;;
  let (status, linkInfo) := r in
  if status =? DSJE_NOT_AVAILABLE then
    printf ("Link Last Error" +++ tab +++ ": <none>" +++ nl) ;;;
    ret DSJE_NOERROR
  else if failed status then
    eprintf ("Error " +++ string_of_Z status +++ " getting link last error"
             +++ nl) ;;;
    ret status
  else
    printf ("Link Last Error" +++ tab +++ ":" +++ nl) ;;;
    printLogDetail 1 (li_lastError linkInfo) ;;;
    ret status.

Definition jobLinkInfo (argv : list string) : M Z :=
  match argv with
  | [project; job; stage; link] =>
      hProject <- call (DSOpenProject project) ;;
      match hProject with
      | None => open_project_failed
      | Some hProject =>
          status <-
            (hJob <- call (DSOpenJob hProject job) ;;
             match hJob with
             | None => open_job_failed
             | Some hJob =>
                 status <- jobLinkInfo_queries hJob stage link ;;
                 call (DSCloseJob hJob) ;;;
                 ret status
             end) ;;
          call (DSCloseProject hProject) ;;;
          ret status
      end
  | _ =>
      eprintf
        ("Invalid arguments: dsjob -linkinfo <project> <job> <stage> <link>"
         +++ nl) ;;;
      ret DSJE_DSJOB_ERROR
  end.

(** *** -lparams *)
Definition jobLParams (argv : list string) : M Z :=
  match argv with
  | [project; job] =>
      hProject <- call (DSOpenProject project) ;;
      match hProject with
      | None => open_project_failed
      | Some hProject =>
          status <-
            (hJob <- call (DSOpenJob hProject job) ;;
             match hJob with
             | None => open_job_failed
             | Some hJob =>
                 r <- call (DSGetJobInfo hJob DSJ_PARAMLIST) ;;
                 let (status, jobInfo) := r in
                 status <-
                   (if status =? DSJE_NOT_AVAILABLE then
                      printf ("<none>" +++ nl) ;;; ret DSJE_NOERROR
                    else if failed status then
                      eprintf ("Error " +++ string_of_Z status
                               +++ " getting parameter list" +++ nl) ;;;
                      ret status
                    else printStrList 0 (paramList jobInfo) ;;; ret status) ;;
                 call (DSCloseJob hJob) ;;;
                 ret status
             end) ;;
          call (DSCloseProject hProject) ;;;
          ret status
      end
  | _ =>
      eprintf ("Invalid arguments: dsjob -lparams <project> <job>" +++ nl) ;;;
      ret DSJE_DSJOB_ERROR
  end.

(** *** -paraminfo *)

(** [printValue] reads the member of the union its [paramType] names;
    reading a member other than the one stored has no defined text. *)
Definition printValue (p : DSPARAM) : M unit :=
  let mismatch : M unit := undefined UnionMismatch in
  switch (paramType p)
    [(DSJ_PARAMTYPE_STRING,
        match paramValue p with pString s => printf s | _ => mismatch end);
     (DSJ_PARAMTYPE_ENCRYPTED,
        match paramValue p with pEncrypt s => printf s | _ => mismatch end);
     (DSJ_PARAMTYPE_INTEGER,
        match paramValue p with
        | pInt n => printf (string_of_Z n)
        | _ => mismatch
        end);
     (DSJ_PARAMTYPE_FLOAT,
        match paramValue p with
        | pFloat f => printf (fmt_G f)
        | _ => mismatch
        end);
     (DSJ_PARAMTYPE_PATHNAME,
        match paramValue p with pPath s => printf s | _ => mismatch end);
     (DSJ_PARAMTYPE_LIST,
        match paramValue p with pListValue s => printf s | _ => mismatch end);
     (DSJ_PARAMTYPE_DATE,
        match paramValue p with pDate s => printf s | _ => mismatch end);
     (DSJ_PARAMTYPE_TIME,
        match paramValue p with pTime s => printf s | _ => mismatch end)]
    (ret tt).

Definition param_type_label (type : Z) : string :=
  switch type
    [(DSJ_PARAMTYPE_STRING, "String"); (DSJ_PARAMTYPE_ENCRYPTED, "Encrypted");
     (DSJ_PARAMTYPE_INTEGER, "Integer"); (DSJ_PARAMTYPE_FLOAT, "Float");
     (DSJ_PARAMTYPE_PATHNAME, "Pathname"); (DSJ_PARAMTYPE_LIST, "list");
     (DSJ_PARAMTYPE_DATE, "Date"); (DSJ_PARAMTYPE_TIME, "Time")]
    "*** ERROR - UNKNOWN TYPE ***".

Definition print_param_info (paramInfo : DSPARAMINFO) : M unit :=
  printf ("Type" +++ tab +++ tab +++ ": ") ;;;
  printf (param_type_label (pi_paramType paramInfo)) ;;;
  printf (" (" +++ string_of_Z (pi_paramType paramInfo) +++ ")" +++ nl) ;;;
  printf ("Help Text" +++ tab +++ ": " +++ helpText paramInfo +++ nl) ;;;
  printf ("Prompt" +++ tab +++ tab +++ ": " +++ paramPrompt paramInfo
          +++ nl) ;;;
  printf ("Prompt At Run" +++ tab +++ ": "
          +++ string_of_Z (promptAtRun paramInfo) +++ nl) ;;;
  printf ("Default Value" +++ tab +++ ": ") ;;;
  printValue (defaultValue paramInfo) ;;;
  printf nl ;;;
  printf "Original Default: " ;;;
  printValue (desDefaultValue paramInfo) ;;;
  printf nl ;;;
  when (pi_paramType paramInfo =? DSJ_PARAMTYPE_LIST)
    (printf ("List Values" +++ tab +++ ":" +++ nl) ;;;
     printStrList 2 (listValues paramInfo) ;;;
     printf ("Original List" +++ tab +++ ":" +++ nl) ;;;
     printStrList 2 (desListValues paramInfo)) ;;;
  printf nl.

Definition jobParamInfo (argv : list string) : M Z :=
  match argv with
  | [project; job; param] =>
      hProject <- call (DSOpenProject project) ;;
      match hProject with
      | None => open_project_failed
      | Some hProject =>
          status <-
            (hJob <- call (DSOpenJob hProject job) ;;
             match hJob with
             | None => open_job_failed
             | Some hJob =>
                 r <- call (DSGetParamInfo hJob param) ;;
                 let (status, paramInfo) := r in
                 (if failed status then
                    eprintf ("Error " +++ string_of_Z status
                             +++ " getting info for parameter" +++ nl)
                  else print_param_info paramInfo) ;;;
                 call (DSCloseJob hJob) ;;;
                 ret status
             end) ;;
          call (DSCloseProject hProject) ;;;
          ret status
      end
  | _ =>
      eprintf ("Invalid arguments: dsjob -paraminfo <project> <job> <param>"
               +++ nl) ;;;
      ret DSJE_DSJOB_ERROR
  end.

(** *** -log *)

(** The option loop of [jobLog], on what is left of [argv]. *)
Fixpoint jobLog_options (argv : list string) (type : Z) : Parsed Z :=
  match argv with
  | [] => Accepted type []
  | a :: rest =>
      if is_option a then
        if String.eqb (opt_name a) "info" then jobLog_options rest DSJ_LOGINFO
        else if String.eqb (opt_name a) "warn" then
          jobLog_options rest DSJ_LOGWARNING
        else BadOptions
      else Accepted type argv
  end.

(** [while (n < MAX_MSG_LEN) { ch = getchar (); ... }]: the text kept and
    what is left on stdin.  The end of [input] is EOF. *)
Fixpoint read_message (input : list ascii) (n : nat) (message : string)
  : string * list ascii :=
  if (n <? MAX_MSG_LEN)%nat then
    match input with
    | [] => (message, [])
    | ch :: rest =>
        if WIN32 && Ascii.eqb ch (ascii_of_nat 4) then (message, rest)
        else if Ascii.eqb ch (ascii_of_nat 10) || isprint ch then
          read_message rest (S n) (message +++ String ch EmptyString)
        else read_message rest n message
    end
  else (message, input).

Definition read_stdin : M string :=
  fun w =>
    let (message, rest) := read_message (stdin w) 0 EmptyString in
    Returns message [] (mkWorld (engine w) rest).

Definition jobLog_usage : M Z :=
  eprintf ("Invalid arguments: dsjob -log" +++ nl) ;;;
  eprintf (tab +++ tab +++ tab +++ "[-info | -warn]" +++ nl) ;;;
  eprintf (tab +++ tab +++ tab +++ "<project> <job>" +++ nl) ;;;
  eprintf (nl +++ "Log message is read from stdin." +++ nl) ;;;
  ret DSJE_DSJOB_ERROR.

Definition jobLog (argv : list string) : M Z :=
  match jobLog_options argv DSJ_LOGINFO with
  | Accepted type [project; job] =>
      hProject <- call (DSOpenProject project) ;;
      match hProject with
      | None => open_project_failed
      | Some hProject =>
          status <-
            (hJob <- call (DSOpenJob hProject job) ;;
             match hJob with
             | None => open_job_failed
             | Some hJob =>
                 printf ("Enter message text, terminating with Ctrl-d"
                         +++ nl) ;;;
                 message <- read_stdin ;;
                 printf (nl +++ "Message read." +++ nl) ;;;
                 status <- call (DSLogEvent hJob type message) ;;
                 when (failed status)
                   (eprintf ("Error adding log entry" +++ nl)) ;;;
                 call (DSCloseJob hJob) ;;;
                 ret status
             end) ;;
          call (DSCloseProject hProject) ;;;
          ret status
      end
  | ParseUndefined u => undefined u
  | _ => jobLog_usage
  end.

(** *** -logsum *)

(** The chain of [strcmp] that names an event type; [None] when no name
    matches. *)
Definition log_type_of_name (arg : string) : option Z :=
  if String.eqb arg "INFO" then Some DSJ_LOGINFO
  else if String.eqb arg "WARNING" then Some DSJ_LOGWARNING
  else if String.eqb arg "FATAL" then Some DSJ_LOGFATAL
  else if String.eqb arg "REJECT" then Some DSJ_LOGREJECT
  else if String.eqb arg "STARTED" then Some DSJ_LOGSTARTED
  else if String.eqb arg "RESET" then Some DSJ_LOGRESET
  else if String.eqb arg "BATCH" then Some DSJ_LOGBATCH
  else if String.eqb arg "OTHER" then Some DSJ_LOGOTHER
  else None.

Record LogSumOptions : Type := mkLogSumOptions {
  ls_type : Z;
  ls_maxNumber : Z
}.

(** The option loop of [jobLogSum]: every option takes a value. *)
Fixpoint jobLogSum_options (argv : list string) (o : LogSumOptions)
  : Parsed LogSumOptions :=
  match argv with
  | [] => Accepted o []
  | a :: rest =>
      if is_option a then
        match rest with
        | [] => BadOptions
        | arg :: rest' =>
            if String.eqb (opt_name a) "type" then
              match log_type_of_name arg with
              | Some type =>
                  jobLogSum_options rest' (mkLogSumOptions type (ls_maxNumber o))
              | None => BadOptions
              end
            else if String.eqb (opt_name a) "max" then
              match atoi arg with
              | Some n =>
                  jobLogSum_options rest' (mkLogSumOptions (ls_type o) n)
              | None => ParseUndefined IntegerOverflow
              end
            else BadOptions
        end
      else Accepted o argv
  end.

Definition jobLogSum_usage : M Z :=
  eprintf ("Invalid arguments: dsjob -logsum" +++ nl) ;;;
  eprintf (tab +++ tab +++ tab
     +++ "[-type <INFO | WARNING | FATAL | REJECT | STARTED | RESET | BATCH>]"
     +++ nl) ;;;
  eprintf (tab +++ tab +++ tab +++ "[-max <n>]" +++ nl) ;;;
  eprintf (tab +++ tab +++ tab +++ "<project> <job>" +++ nl) ;;;
  ret DSJE_DSJOB_ERROR.

(** The body of the [while] of [jobLogSum], before the next entry is
    asked for: one summary line, in four [printf]. *)
Definition print_log_event (event : DSLOGEVENT) : M unit :=
  printf (string_of_Z (le_eventId event) +++ tab) ;;;
  printf (log_type_label (le_type event)) ;;;
  printf (tab +++ ctime (le_timestamp event)) ;;;
  printf (tab +++ le_message event +++ nl).

(** [while (status == DSJE_NOERROR) { ...; status = DSFindNextLogEntry
    (hJob, &event); }].  The engine decides how often the loop runs:
    [fuel] bounds the number of iterations. *)
Fixpoint logsum_loop (fuel : nat) (hJob : DSJOB) (status : Z)
  (event : DSLOGEVENT) : M Z :=
  if status =? DSJE_NOERROR then
    match fuel with
    | O => out_of_fuel
    | S fuel' =>
        print_log_event event ;;;
        r <- call (DSFindNextLogEntry hJob) ;;
        logsum_loop fuel' hJob (fst r) (snd r)
    end
  else ret status.

(** The cursor of [jobLogSum]: first entry, loop, end of the iteration. *)
Definition logsum_cursor (fuel : nat) (hJob : DSJOB) (o : LogSumOptions)
  : M Z :=
  r <- call (DSFindFirstLogEntry hJob (ls_type o) 0 0 (ls_maxNumber o)) ;;
  status <- logsum_loop fuel hJob (fst r) (snd r) ;;
  if status =? DSJE_NOMORE then ret DSJE_NOERROR
  else
    eprintf ("Error " +++ string_of_Z status +++ " getting log summary"
             +++ nl) ;;;
    ret status.

Definition jobLogSum (fuel : nat) (argv : list string) : M Z :=
  match jobLogSum_options argv (mkLogSumOptions DSJ_LOGANY 0) with
  | Accepted o [project; job] =>
      hProject <- call (DSOpenProject project) ;;
      match hProject with
      | None => open_project_failed
      | Some hProject =>
          status <-
            (hJob <- call (DSOpenJob hProject job) ;;
             match hJob with
             | None => open_job_failed
             | Some hJob =>
                 status <- logsum_cursor fuel hJob o ;;
                 call (DSCloseJob hJob) ;;;
                 ret status
             end) ;;
          call (DSCloseProject hProject) ;;;
          ret status
      end
  | ParseUndefined u => undefined u
  | _ => jobLogSum_usage
  end.

(** *** -logdetail *)
Definition jobLogDetail (argv : list string) : M Z :=
  match argv with
  | [project; job; id] =>
      match atoi id with
      | None => undefined IntegerOverflow
      | Some eventId =>
          hProject <- call (DSOpenProject project) ;;
          match hProject with
          | None => open_project_failed
          | Some hProject =>
              status <-
                (hJob <- call (DSOpenJob hProject job) ;;
                 match hJob with
                 | None => open_job_failed
                 | Some hJob =>
                     r <- call (DSGetLogEntry hJob eventId) ;;
                     let (status, logDetail) := r in
                     (if failed status then
                        eprintf ("Error " +++ string_of_Z status
                                 +++ " getting event details" +++ nl)
                      else printLogDetail 0 logDetail) ;;;
                     call (DSCloseJob hJob) ;;;
                     ret status
                 end) ;;
              call (DSCloseProject hProject) ;;;
              ret status
          end
      end
  | _ =>
      eprintf
        ("Invalid arguments: dsjob -logdetail <project> <job> <event id>"
         +++ nl) ;;;
      ret DSJE_DSJOB_ERROR
  end.

(** *** -lognewest *)
Definition jobLogNewest_usage : M Z :=
  eprintf
    ("Invalid arguments: dsjob -lognewest <project> <job> [<event type>]"
     +++ nl) ;;;
  eprintf (tab
     +++ " event type = INFO | WARNING | FATAL | REJECT | STARTED | RESET | BATCH"
     +++ nl) ;;;
  ret DSJE_DSJOB_ERROR.

Definition jobLogNewest_open (project job : string) (type : Z) : M Z :=
  hProject <- call (DSOpenProject project) ;;
  match hProject with
  | None => open_project_failed
  | Some hProject =>
      status <-
        (hJob <- call (DSOpenJob hProject job) ;;
         match hJob with
         | None => open_job_failed
         | Some hJob =>
             id <- call (DSGetNewestLogId hJob type) ;;
             status <-
               (if id <? 0 then
                  status <- call DSGetLastError ;;
                  eprintf ("Error " +++ string_of_Z status
                           +++ " getting event details" +++ nl) ;;;
                  ret status
                else
                  printf ("Newsest id = " +++ string_of_Z id +++ nl) ;;;
                  ret DSJE_NOERROR) ;;
             call (DSCloseJob hJob) ;;;
             ret status
         end) ;;
      call (DSCloseProject hProject) ;;;
      ret status
  end.

Definition jobLogNewest (argv : list string) : M Z :=
  match argv with
  | [project; job] => jobLogNewest_open project job DSJ_LOGANY
  | [project; job; arg] =>
      match log_type_of_name arg with
      | Some type => jobLogNewest_open project job type
      | None => jobLogNewest_usage
      end
  | _ => jobLogNewest_usage
  end.

(** ** The dispatcher *)

(** [MajorOption[]]: the primary command options and their handlers. *)
Definition MajorOption (fuel : nat) : list (string * (list string -> M Z)) :=
  [("run", jobRun);
   ("stop", jobStop);
   ("lprojects", jobLProjects);
   ("ljobs", jobLJobs);
   ("lstages", jobLStages);
   ("llinks", jobLLinks);
   ("jobinfo", jobJobInfo);
   ("stageinfo", jobStageInfo);
   ("linkinfo", jobLinkInfo);
   ("lparams", jobLParams);
   ("paraminfo", jobParamInfo);
   ("log", jobLog);
   ("logsum", jobLogSum fuel);
   ("logdetail", jobLogDetail);
   ("lognewest", jobLogNewest)].

(** [for (i = 0; i < N_MAJOR_OPTIONS; i++)
       fprintf (stderr, "\t-%s\n", MajorOption[i].name);] *)
Fixpoint print_options (table : list (string * (list string -> M Z)))
  : M unit :=
  match table with
  | [] => ret tt
  | (name, _) :: rest =>
      eprintf (tab +++ "-" +++ name +++ nl) ;;; print_options rest
  end.

(** [reportError:] the command syntax and the primary command options. *)
Definition reportError (fuel : nat) : M Z :=
  eprintf ("Command syntax:" +++ nl) ;;;
  eprintf (tab
     +++ "dsjob [-domain <domain>][-server <server>][-user <user>][-password <password>]"
     +++ nl) ;;;
  eprintf (tab +++ tab +++ tab +++ "<primary command> [<arguments>]" +++ nl) ;;;
  eprintf (nl +++ "Valid primary command options are:" +++ nl) ;;;
  print_options (MajorOption fuel) ;;;
  ret DSJE_DSJOB_ERROR.

(** One optional, positional connection argument:
    [if (strcmp (argv[argPos], flag) == 0) { if (argc < 3) goto
    reportError; x = argv[argPos + 1]; argPos += 2; argc -= 2; }]
    on [a = argv[argPos]] and [rest], the [argc - 1] arguments after it.
    [None] is the jump to [reportError]; otherwise the value, the new
    [argv[argPos]] and what follows it. *)
Definition global_option (flag a : string) (rest : list string)
  : option (option string * string * list string) :=
  if String.eqb a flag then
    match rest with
    | value :: a' :: rest' => Some (Some value, a', rest')
    | _ => None
    end
  else Some (None, a, rest).

(** [argv[argPos][0]] is the option character of the platform *)
Definition is_command_switch (a : string) : bool :=
  match a with
  | String c _ => Ascii.eqb c "-" || (WIN32 && Ascii.eqb c "/")
  | EmptyString => false
  end.

(** The first entry of the table with the given name. *)
Fixpoint find_option (name : string)
  (table : list (string * (list string -> M Z)))
  : option (list string -> M Z) :=
  match table with
  | [] => None
  | (n, handler) :: rest =>
      if String.eqb name n then Some handler else find_option name rest
  end.

(** What [main] does once the command is found in the table. *)
Definition run_command (domain user password server : option string)
  (optionHandler : list string -> M Z) (args : list string) : M Z :=
  call (DSSetServerParams domain user password server) ;;;
  result <- optionHandler args ;;
  when (failed result)
    (eprintf (nl +++ "Status code = " +++ string_of_Z result +++ nl)) ;;;
  errText <- call DSGetLastErrorMsg ;;
  match errText with
  | Some errText =>
      fflush_stdout ;;;
      eprintf (nl +++ "Last recorded error message =" +++ nl) ;;;
      printStrList 0 errText ;;;
      fflush_stdout ;;;
      eprintf nl
  | None => ret tt
  end ;;;
  ret result.

(** [main], on the whole of [argv] (the command name first). *)
Definition main (fuel : nat) (argv : list string) : M Z :=
  match argv with
  | _ :: a :: rest =>
      match global_option "-domain" a rest with
      | None => reportError fuel
      | Some (domain, a, rest) =>
      match global_option "-server" a rest with
      | None => reportError fuel
      | Some (server, a, rest) =>
      match global_option "-user" a rest with
      | None => reportError fuel
      | Some (user, a, rest) =>
      match global_option "-password" a rest with
      | None => reportError fuel
      | Some (password, a, rest) =>
          if is_command_switch a then
            match find_option (opt_name a) (MajorOption fuel) with
            | Some optionHandler =>
                run_command domain user password server optionHandler rest
            | None =>
                eprintf ("Invalid/unknown primary command switch." +++ nl) ;;;
                reportError fuel
            end
          else reportError fuel
      end end end end
  | _ => reportError fuel
  end.

End Handlers.

Arguments Accepted {T} t rest.
Arguments BadOptions {T}.
Arguments ParseUndefined {T} u.

(** ** Observations on traces *)

Section Observations.
Context {P : Platform} {A : DsApi}.

Definition is_output (ev : Event) : bool :=
  match ev with
  | EvCall _ _ => false
  | _ => true
  end.

(** A trace without engine calls. *)
Definition output_only (tr : list Event) : bool := forallb is_output tr.

(** The text written to stdout, and to stderr. *)
Fixpoint stdout_text (tr : list Event) : string :=
  match tr with
  | [] => EmptyString
  | EvStdout s :: rest => s +++ stdout_text rest
  | _ :: rest => stdout_text rest
  end.

Fixpoint stderr_text (tr : list Event) : string :=
  match tr with
  | [] => EmptyString
  | EvStderr s :: rest => s +++ stderr_text rest
  | _ :: rest => stderr_text rest
  end.

(** *** The handles a handler holds

    [lifecycle] follows the trace of a handler and checks every call
    against the handles held: a project is closed while it is open and
    no job of it is; a job is opened in the open project, locked at most
    once, unlocked only while locked, closed while open and not locked;
    after a lock was refused the job is only closed.  [None] is a trace
    that breaks one of these rules. *)
Record Handles : Type := mkHandles {
  held_project : option DSPROJECT;
  held_job : option DSJOB;
  locked : bool;
  lock_refused : bool
}.

Definition no_handles : Handles := mkHandles None None false false.

Definition holds_job (h : Handles) (hJob : DSJOB) : bool :=
  match held_job h with
  | Some j => j =? hJob
  | None => false
  end.

Definition holds_project (h : Handles) (hProject : DSPROJECT) : bool :=
  match held_project h with
  | Some p => p =? hProject
  | None => false
  end.

(** A call that works on an open job: allowed unless the lock was
    refused. *)
Definition on_job (h : Handles) (hJob : DSJOB) : option Handles :=
  if holds_job h hJob && negb (lock_refused h) then Some h else None.

Definition lifecycle_call (h : Handles) {R : Type} (c : DSCall R)
  : R -> option Handles :=
  match c in DSCall R return R -> option Handles with
  | DSOpenProject _ => fun r =>
      match r, held_project h with
      | Some p, None =>
          Some (mkHandles (Some p) (held_job h) (locked h) (lock_refused h))
      | Some _, Some _ => None
      | None, _ => Some h
      end
  | DSCloseProject p => fun _ =>
      match held_job h with
      | None =>
          if holds_project h p
          then Some (mkHandles None None (locked h) (lock_refused h))
          else None
      | Some _ => None
      end
  | DSOpenJob p _ => fun r =>
      match r, held_job h with
      | Some j, None =>
          if holds_project h p
          then Some (mkHandles (held_project h) (Some j) false false)
          else None
      | Some _, Some _ => None
      | None, _ => Some h
      end
  | DSCloseJob j => fun _ =>
      if holds_job h j && negb (locked h)
      then Some (mkHandles (held_project h) None false false)
      else None
  | DSLockJob j => fun status =>
      if holds_job h j && negb (locked h) && negb (lock_refused h) then
        if status =? DSJE_NOERROR
        then Some (mkHandles (held_project h) (held_job h) true false)
        else Some (mkHandles (held_project h) (held_job h) false true)
      else None
  | DSUnlockJob j => fun _ =>
      if holds_job h j && locked h
      then Some (mkHandles (held_project h) (held_job h) false false)
      else None
  | DSSetJobLimit j _ _ => fun _ => on_job h j
  | DSGetParamInfo j _ => fun _ => on_job h j
  | DSSetParam j _ _ => fun _ => on_job h j
  | DSRunJob j _ => fun _ => on_job h j
  | DSWaitForJob j => fun _ => on_job h j
  | DSStopJob j => fun _ => on_job h j
  | DSGetJobInfo j _ => fun _ => on_job h j
  | DSGetStageInfo j _ _ => fun _ => on_job h j
  | DSGetLinkInfo j _ _ _ => fun _ => on_job h j
  | DSLogEvent j _ _ => fun _ => on_job h j
  | DSFindFirstLogEntry j _ _ _ _ => fun _ => on_job h j
  | DSFindNextLogEntry j => fun _ => on_job h j
  | DSGetLogEntry j _ => fun _ => on_job h j
  | DSGetNewestLogId j _ => fun _ => on_job h j
  | DSGetProjectInfo p _ => fun _ =>
      if holds_project h p then Some h else None
  | DSSetServerParams _ _ _ _ => fun _ => Some h
  | DSGetProjectList => fun _ => Some h
  | DSGetLastError => fun _ => Some h
  | DSGetLastErrorMsg => fun _ => Some h
  end.

Fixpoint lifecycle (h : Handles) (tr : list Event) : option Handles :=
  match tr with
  | [] => Some h
  | EvCall c r :: rest =>
      match lifecycle_call h c r with
      | Some h' => lifecycle h' rest
      | None => None
      end
  | _ :: rest => lifecycle h rest
  end.

(** The counts the invariant is about. *)
Definition count_events (f : Event -> bool) (tr : list Event) : nat :=
  List.length (filter f tr).

Definition is_project_opened (ev : Event) : bool :=
  match ev with
  | @EvCall _ _ (DSOpenProject _) r =>
      match r with Some _ => true | None => false end
  | _ => false
  end.

Definition is_project_closed (ev : Event) : bool :=
  match ev with
  | @EvCall _ _ (DSCloseProject _) _ => true
  | _ => false
  end.

Definition is_job_opened (ev : Event) : bool :=
  match ev with
  | @EvCall _ _ (DSOpenJob _ _) r =>
      match r with Some _ => true | None => false end
  | _ => false
  end.

Definition is_job_closed (ev : Event) : bool :=
  match ev with
  | @EvCall _ _ (DSCloseJob _) _ => true
  | _ => false
  end.

End Observations.

(** ** A platform, a header and an engine to evaluate the model on

    [Sample.dsapi] is one assignment of the constants of dsapi.h and
    [Sample.engine] an engine that answers from a script; no theorem
    about the handlers depends on either. *)
Module Sample.

Definition platform : Platform := {|
  WIN32 := false;
  DSFLOAT := Z;
  float_zero := 0;
  atof := fun s => if strtod_subject s then strtol10 s else 0;
  fmt_G := string_of_Z;
  ctime := fun t => string_of_Z t +++ nl
|}.

Definition win32 : Platform := {|
  WIN32 := true;
  DSFLOAT := Z;
  float_zero := 0;
  atof := fun s => if strtod_subject s then strtol10 s else 0;
  fmt_G := string_of_Z;
  ctime := fun t => string_of_Z t +++ nl
|}.

Definition dsapi : DsApi := {|
  DSJE_NOERROR := 0;
  DSJE_NOT_AVAILABLE := -1007;
  DSJE_NOMORE := -1001;
  DSJ_PARAMTYPE_STRING := 0;
  DSJ_PARAMTYPE_ENCRYPTED := 1;
  DSJ_PARAMTYPE_INTEGER := 2;
  DSJ_PARAMTYPE_FLOAT := 3;
  DSJ_PARAMTYPE_PATHNAME := 4;
  DSJ_PARAMTYPE_LIST := 5;
  DSJ_PARAMTYPE_DATE := 6;
  DSJ_PARAMTYPE_TIME := 7;
  DSJ_LOGINFO := 1;
  DSJ_LOGWARNING := 2;
  DSJ_LOGFATAL := 3;
  DSJ_LOGREJECT := 4;
  DSJ_LOGSTARTED := 5;
  DSJ_LOGRESET := 6;
  DSJ_LOGBATCH := 7;
  DSJ_LOGOTHER := 98;
  DSJ_LOGANY := 99;
  DSJ_RUNNORMAL := 1;
  DSJ_RUNRESET := 2;
  DSJ_RUNVALIDATE := 3;
  DSJ_LIMITWARN := 1;
  DSJ_LIMITROWS := 2;
  DSJ_JOBLIST := 1;
  DSJ_STAGELIST := 7;
  DSJ_PARAMLIST := 6;
  DSJ_JOBSTATUS := 1;
  DSJ_JOBCONTROLLER := 3;
  DSJ_JOBSTARTTIMESTAMP := 4;
  DSJ_JOBWAVENO := 5;
  DSJ_USERSTATUS := 8;
  DSJ_LINKLIST := 1;
  DSJ_STAGETYPE := 4;
  DSJ_STAGEINROWNUM := 5;
  DSJ_STAGELASTERR := 2;
  DSJ_LINKROWCOUNT := 3;
  DSJ_LINKLASTERR := 1;
  DSJS_RUNNING := 0;
  DSJS_RUNOK := 1;
  DSJS_RUNWARN := 2;
  DSJS_RUNFAILED := 3;
  DSJS_VALOK := 11;
  DSJS_VALWARN := 12;
  DSJS_VALFAILED := 13;
  DSJS_RESET := 21;
  DSJS_STOPPED := 97;
  DSJS_NOTRUNNABLE := 98;
  DSJS_NOTRUNNING := 99
|}.

Section Script.
Context {P : Platform}.

(** One scripted answer. *)
Inductive Answer : Type :=
| AHandle (h : option Z)
| AStatus (status : Z)
| AParamType (status : Z) (type : Z)
| ALogEvent (status : Z) (event : DSLOGEVENT)
| AText (text : option (list string)).

Definition no_param : DSPARAM := mkDSPARAM 0 (pString EmptyString).

Definition param_info (type : Z) : DSPARAMINFO :=
  mkDSPARAMINFO no_param EmptyString EmptyString type no_param [] [] 0.

Definition no_event : DSLOGEVENT := mkDSLOGEVENT 0 0 0 EmptyString.
Definition no_detail : DSLOGDETAIL := mkDSLOGDETAIL 0 0 0 [].
Definition no_job_info : DSJOBINFO :=
  mkDSJOBINFO 0 EmptyString 0 0 EmptyString [] [].
Definition no_stage_info : DSSTAGEINFO :=
  mkDSSTAGEINFO no_detail EmptyString 0 [].
Definition no_link_info : DSLINKINFO := mkDSLINKINFO no_detail 0.

(** The next answer when it is of the kind the call expects; anything
    else, and the end of the script, is success without data. *)
Definition next_status (s : list Answer) : Z * list Answer :=
  match s with
  | AStatus status :: s' => (status, s')
  | _ => (0, tl s)
  end.

Definition next_handle (s : list Answer) : option Z * list Answer :=
  match s with
  | AHandle h :: s' => (h, s')
  | _ => (None, tl s)
  end.

Definition with_info {I : Type} (info : I) (r : Z * list Answer)
  : (Z * I) * list Answer :=
  ((fst r, info), snd r).

Definition scripted (R : Type) (c : DSCall R) (s : list Answer)
  : R * list Answer :=
  match c in DSCall R return R * list Answer with
  | DSSetServerParams _ _ _ _ => (tt, s)
  | DSOpenProject _ => next_handle s
  | DSOpenJob _ _ => next_handle s
  | DSGetParamInfo _ _ =>
      match s with
      | AParamType status type :: s' => ((status, param_info type), s')
      | _ => ((0, param_info 0), tl s)
      end
  | DSGetProjectList =>
      match s with
      | AText text :: s' => (text, s')
      | _ => (None, tl s)
      end
  | DSGetLastErrorMsg =>
      match s with
      | AText text :: s' => (text, s')
      | _ => (None, tl s)
      end
  | DSGetProjectInfo _ _ => with_info (mkDSPROJECTINFO []) (next_status s)
  | DSGetJobInfo _ _ => with_info no_job_info (next_status s)
  | DSGetStageInfo _ _ _ => with_info no_stage_info (next_status s)
  | DSGetLinkInfo _ _ _ _ => with_info no_link_info (next_status s)
  | DSGetLogEntry _ _ => with_info no_detail (next_status s)
  | DSFindFirstLogEntry _ _ _ _ _ =>
      match s with
      | ALogEvent status event :: s' => ((status, event), s')
      | _ => ((0, no_event), tl s)
      end
  | DSFindNextLogEntry _ =>
      match s with
      | ALogEvent status event :: s' => ((status, event), s')
      | _ => ((0, no_event), tl s)
      end
  | DSCloseProject _ => next_status s
  | DSCloseJob _ => next_status s
  | DSLockJob _ => next_status s
  | DSUnlockJob _ => next_status s
  | DSSetJobLimit _ _ _ => next_status s
  | DSSetParam _ _ _ => next_status s
  | DSRunJob _ _ => next_status s
  | DSWaitForJob _ => next_status s
  | DSStopJob _ => next_status s
  | DSLogEvent _ _ _ => next_status s
  | DSGetNewestLogId _ _ => next_status s
  | DSGetLastError => next_status s
  end.

Definition engine : Engine := {| EState := list Answer; answer := scripted |}.

(** The world in which the engine follows [script] and stdin is empty. *)
Definition world (script : list Answer) : @World P engine :=
  @mkWorld P engine script [].

(** The world in which the engine follows [script] and [input] is what
    there is to read on stdin. *)
Definition reading (script : list Answer) (input : list ascii)
  : @World P engine :=
  @mkWorld P engine script input.

End Script.

End Sample.

(** ** What the properties are stated with *)

Section Statements.
Context {P : Platform} {A : DsApi} {Eng : Engine}.

(** *** Parameters *)

(** The names asked for with [DSGetParamInfo], and the names set with
    [DSSetParam], in the order of the calls. *)
Fixpoint queried_params (tr : list Event) : list string :=
  match tr with
  | [] => []
  | @EvCall _ _ (DSGetParamInfo _ name) _ :: rest => name :: queried_params rest
  | _ :: rest => queried_params rest
  end.

Fixpoint submitted_params (tr : list Event) : list string :=
  match tr with
  | [] => []
  | @EvCall _ _ (DSSetParam _ name _) _ :: rest => name :: submitted_params rest
  | _ :: rest => submitted_params rest
  end.

(** The limits handed to [DSSetJobLimit]: kind and value. *)
Fixpoint job_limits (tr : list Event) : list (Z * Z) :=
  match tr with
  | [] => []
  | @EvCall _ _ (DSSetJobLimit _ kind value) _ :: rest =>
      (kind, value) :: job_limits rest
  | _ :: rest => job_limits rest
  end.

(** The text before the first [=]. *)
Definition param_name (param : string) : string :=
  match strchr_split "=" param with
  | Some (name, _) => name
  | None => param
  end.

Definition has_equals (param : string) : bool :=
  match strchr_split "=" param with
  | Some _ => true
  | None => false
  end.

(** A [DSGetParamInfo] or [DSSetParam] that did not succeed. *)
Definition param_failure (ev : Event) : bool :=
  match ev with
  | @EvCall _ _ (DSGetParamInfo _ _) r => failed (fst r)
  | @EvCall _ _ (DSSetParam _ _ _) status => failed status
  | _ => false
  end.

(** A call that sets up or starts the job. *)
Definition is_job_setup (ev : Event) : bool :=
  match ev with
  | @EvCall _ _ (DSGetParamInfo _ _) _ => true
  | @EvCall _ _ (DSSetParam _ _ _) _ => true
  | @EvCall _ _ (DSRunJob _ _) _ => true
  | @EvCall _ _ (DSWaitForJob _) _ => true
  | _ => false
  end.

(** Has the text a number for [atoi] to read: a digit after the white
    space and the sign. *)
Definition leading_number (s : string) : bool :=
  match snd (strip_sign (skip_space s)) with
  | String c _ => isdigit c
  | EmptyString => false
  end.

(** The typed value of a parameter, in the words of the specification:
    numbers by a best-effort conversion that is 0 when there is nothing
    to convert, the string-like types verbatim, anything else as a
    string. *)
Inductive marshalled (declared : Z) (value : string) : DSPARAM -> Prop :=
| marshal_integer (n : Z) :
    declared = DSJ_PARAMTYPE_INTEGER -> atoi value = Some n ->
    marshalled declared value (mkDSPARAM DSJ_PARAMTYPE_INTEGER (pInt n))
| marshal_integer_unparseable :
    declared = DSJ_PARAMTYPE_INTEGER -> leading_number value = false ->
    marshalled declared value (mkDSPARAM DSJ_PARAMTYPE_INTEGER (pInt 0))
| marshal_float :
    declared = DSJ_PARAMTYPE_FLOAT ->
    marshalled declared value
      (mkDSPARAM DSJ_PARAMTYPE_FLOAT (pFloat (atof value)))
| marshal_float_unparseable :
    declared = DSJ_PARAMTYPE_FLOAT -> strtod_subject value = false ->
    marshalled declared value
      (mkDSPARAM DSJ_PARAMTYPE_FLOAT (pFloat float_zero))
| marshal_string :
    declared = DSJ_PARAMTYPE_STRING ->
    marshalled declared value (mkDSPARAM DSJ_PARAMTYPE_STRING (pString value))
| marshal_encrypted :
    declared = DSJ_PARAMTYPE_ENCRYPTED ->
    marshalled declared value
      (mkDSPARAM DSJ_PARAMTYPE_ENCRYPTED (pEncrypt value))
| marshal_pathname :
    declared = DSJ_PARAMTYPE_PATHNAME ->
    marshalled declared value (mkDSPARAM DSJ_PARAMTYPE_PATHNAME (pPath value))
| marshal_list :
    declared = DSJ_PARAMTYPE_LIST ->
    marshalled declared value
      (mkDSPARAM DSJ_PARAMTYPE_LIST (pListValue value))
| marshal_date :
    declared = DSJ_PARAMTYPE_DATE ->
    marshalled declared value (mkDSPARAM DSJ_PARAMTYPE_DATE (pDate value))
| marshal_time :
    declared = DSJ_PARAMTYPE_TIME ->
    marshalled declared value (mkDSPARAM DSJ_PARAMTYPE_TIME (pTime value))
| marshal_unknown :
    ~ In declared (param_types A) ->
    marshalled declared value (mkDSPARAM DSJ_PARAMTYPE_STRING (pString value)).

(** *** The command line of -run *)

Inductive RunMode : Type := NORMAL | RESET | VALIDATE.

Definition mode_name (m : RunMode) : string :=
  match m with
  | NORMAL => "NORMAL"
  | RESET => "RESET"
  | VALIDATE => "VALIDATE"
  end.

Definition mode_code (m : RunMode) : Z :=
  match m with
  | NORMAL => DSJ_RUNNORMAL
  | RESET => DSJ_RUNRESET
  | VALIDATE => DSJ_RUNVALIDATE
  end.

(** The options of the usage text of -run. *)
Inductive RunOption : Type :=
| OptWait
| OptMode (m : RunMode)
| OptParam (param : string)
| OptWarn (n : string)
| OptRows (n : string).

Definition option_tokens (o : RunOption) : list string :=
  match o with
  | OptWait => ["-wait"]
  | OptMode m => ["-mode"; mode_name m]
  | OptParam param => ["-param"; param]
  | OptWarn n => ["-warn"; n]
  | OptRows n => ["-rows"; n]
  end.

Definition options_tokens (opts : list RunOption) : list string :=
  List.concat (map option_tokens opts).

(** A parameter has its [=], a number is one [atoi] is defined on. *)
Definition option_ok (o : RunOption) : bool :=
  match o with
  | OptParam param => has_equals param
  | OptWarn n | OptRows n =>
      match atoi n with Some _ => true | None => false end
  | _ => true
  end.

Definition option_params (o : RunOption) : list string :=
  match o with
  | OptParam param => [param]
  | _ => []
  end.

(** The -param occurrences, in the order given. *)
Definition params_of (opts : list RunOption) : list string :=
  List.concat (map option_params opts).

(** What an option does to the variables of [jobRun]. *)
Definition apply_option (r : RunOptions) (o : RunOption) : RunOptions :=
  match o with
  | OptWait =>
      mkRunOptions (mode r) (warningLimit r) (rowLimit r) (param r) true
  | OptMode m =>
      mkRunOptions (mode_code m) (warningLimit r) (rowLimit r) (param r)
        (waitForJob r)
  | OptParam p =>
      mkRunOptions (mode r) (warningLimit r) (rowLimit r) (param r ++ [p])
        (waitForJob r)
  | OptWarn n =>
      mkRunOptions (mode r) (match atoi n with Some v => v | None => 0 end)
        (rowLimit r) (param r) (waitForJob r)
  | OptRows n =>
      mkRunOptions (mode r) (warningLimit r)
        (match atoi n with Some v => v | None => 0 end) (param r)
        (waitForJob r)
  end.

(** The tokens that are the option -param, and how many there are. *)
Definition is_param_flag (a : string) : bool :=
  is_option a && String.eqb (opt_name a) "param".

Definition param_flags (argv : list string) : nat :=
  List.length (filter is_param_flag argv).

(** *** The log cursor *)

(** From engine state [e], [DSFindNextLogEntry] answers [rs], one after
    the other, and leaves the engine in [e']. *)
Fixpoint find_next_answers (hJob : DSJOB) (e : EState)
  (rs : list (Z * DSLOGEVENT)) (e' : EState) : Prop :=
  match rs with
  | [] => e' = e
  | r :: rest =>
      exists e1, answer _ (DSFindNextLogEntry hJob) e = (r, e1)
                 /\ find_next_answers hJob e1 rest e'
  end.

(** The answers of a whole iteration: the first one to
    [DSFindFirstLogEntry], the others to [DSFindNextLogEntry]. *)
Definition cursor_answers (hJob : DSJOB) (o : LogSumOptions) (e : EState)
  (rs : list (Z * DSLOGEVENT)) (e' : EState) : Prop :=
  match rs with
  | [] => False
  | r :: rest =>
      exists e1,
        answer _ (DSFindFirstLogEntry hJob (ls_type o) 0 0 (ls_maxNumber o)) e
        = (r, e1)
        /\ find_next_answers hJob e1 rest e'
  end.

(** One line of the summary. *)
Definition log_line (event : DSLOGEVENT) : string :=
  string_of_Z (le_eventId event) +++ tab +++ log_type_label (le_type event)
  +++ tab +++ ctime (le_timestamp event)
  +++ tab +++ le_message event +++ nl.

Fixpoint log_lines (events : list DSLOGEVENT) : string :=
  match events with
  | [] => EmptyString
  | event :: rest => log_line event +++ log_lines rest
  end.

(** The [DSFindFirstLogEntry] / [DSFindNextLogEntry] calls of a trace. *)
Definition is_find (ev : Event) : bool :=
  match ev with
  | @EvCall _ _ (DSFindFirstLogEntry _ _ _ _ _) _ => true
  | @EvCall _ _ (DSFindNextLogEntry _) _ => true
  | _ => false
  end.

(** *** The dispatcher *)

Record GlobalOptions : Type := mkGlobalOptions {
  g_domain : option string;
  g_server : option string;
  g_user : option string;
  g_password : option string
}.

Definition flag_tokens (flag : string) (value : option string) : list string :=
  match value with
  | Some v => [flag; v]
  | None => []
  end.

(** The connection options, each a flag and its value, in the order of
    the command syntax. *)
Definition global_tokens (g : GlobalOptions) : list string :=
  flag_tokens "-domain" (g_domain g) ++ flag_tokens "-server" (g_server g)
  ++ flag_tokens "-user" (g_user g) ++ flag_tokens "-password" (g_password g).

Definition global_flags : list string :=
  ["-domain"; "-server"; "-user"; "-password"].



Fixpoint option_lines (names : list string) : string :=
  match names with
  | [] => EmptyString
  | name :: rest => tab +++ "-" +++ name +++ nl +++ option_lines rest
  end.

(** The usage text: the command syntax and every name of the table. *)
Definition usage_text : string :=
  "Command syntax:" +++ nl
  +++ tab
  +++ "dsjob [-domain <domain>][-server <server>][-user <user>][-password <password>]"
  +++ nl
  +++ tab +++ tab +++ tab +++ "<primary command> [<arguments>]" +++ nl
  +++ nl +++ "Valid primary command options are:" +++ nl
  +++ option_lines (map fst (MajorOption 0)).



(** What follows the handler in [main]: the status code when it is not
    success, the query for the last error message, the message when
    there is one. *)
Definition status_report (result : Z) : list Event :=
  if failed result
  then [EvStderr (nl +++ "Status code = " +++ string_of_Z result +++ nl)]
  else [].

Fixpoint message_lines (text : list string) : list Event :=
  match text with
  | [] => []
  | s :: rest => EvStdout (s +++ nl) :: message_lines rest
  end.

Definition message_report (errText : option (list string)) : list Event :=
  match errText with
  | Some text =>
      [EvFlush; EvStderr (nl +++ "Last recorded error message =" +++ nl)]
      ++ message_lines text ++ [EvFlush; EvStderr nl]
  | None => []
  end.

(** *** Engine failures *)

(** [status] when it is a failure, the statuses in [soft] being the ones
    the caller takes for an empty result. *)
Definition failure (soft : list Z) (status : Z) : option Z :=
  if (status =? DSJE_NOERROR) || existsb (Z.eqb status) soft
  then None else Some status.

(** The failure an engine call reports, if any.  Closing and unlocking
    are not asked; "not available" is an empty result for the project,
    job, stage and link queries, "no more" for the log cursor. *)
Definition engine_failure (ev : Event) : option Z :=
  match ev with
  | EvCall c r =>
      match c in DSCall R return R -> option Z with
      | DSLockJob _ => failure []
      | DSSetJobLimit _ _ _ => failure []
      | DSSetParam _ _ _ => failure []
      | DSRunJob _ _ => failure []
      | DSWaitForJob _ => failure []
      | DSStopJob _ => failure []
      | DSLogEvent _ _ _ => failure []
      | DSGetLastError => failure []
      | DSGetParamInfo _ _ => fun r => failure [] (fst r)
      | DSGetLogEntry _ _ => fun r => failure [] (fst r)
      | DSGetProjectInfo _ _ => fun r => failure [DSJE_NOT_AVAILABLE] (fst r)
      | DSGetJobInfo _ _ => fun r => failure [DSJE_NOT_AVAILABLE] (fst r)
      | DSGetStageInfo _ _ _ => fun r => failure [DSJE_NOT_AVAILABLE] (fst r)
      | DSGetLinkInfo _ _ _ _ => fun r => failure [DSJE_NOT_AVAILABLE] (fst r)
      | DSFindFirstLogEntry _ _ _ _ _ => fun r => failure [DSJE_NOMORE] (fst r)
      | DSFindNextLogEntry _ => fun r => failure [DSJE_NOMORE] (fst r)
      | _ => fun _ => None
      end r
  | _ => None
  end.

(** Any status other than success that an engine call hands back. *)
Definition call_status (ev : Event) : option Z :=
  match ev with
  | EvCall c r =>
      match c in DSCall R return R -> option Z with
      | DSCloseProject _ => Some
      | DSCloseJob _ => Some
      | DSLockJob _ => Some
      | DSUnlockJob _ => Some
      | DSSetJobLimit _ _ _ => Some
      | DSSetParam _ _ _ => Some
      | DSRunJob _ _ => Some
      | DSWaitForJob _ => Some
      | DSStopJob _ => Some
      | DSLogEvent _ _ _ => Some
      | DSGetParamInfo _ _ => fun r => Some (fst r)
      | DSGetLogEntry _ _ => fun r => Some (fst r)
      | DSGetProjectInfo _ _ => fun r => Some (fst r)
      | DSGetJobInfo _ _ => fun r => Some (fst r)
      | DSGetStageInfo _ _ _ => fun r => Some (fst r)
      | DSGetLinkInfo _ _ _ _ => fun r => Some (fst r)
      | DSFindFirstLogEntry _ _ _ _ _ => fun r => Some (fst r)
      | DSFindNextLogEntry _ => fun r => Some (fst r)
      | _ => fun _ => None
      end r
  | _ => None
  end.

(** The handlers in which every query overwrites the status of the one
    before. *)
Definition overwrites_status (name : string) : bool :=
  String.eqb name "jobinfo" || String.eqb name "stageinfo"
  || String.eqb name "linkinfo".

(** *** The parameters of a run *)

(** The parameters asked for are the first [k] of [params], the
    parameters set the first [j], and at most the last one asked for was
    not set. *)
Definition params_processed (params : list string) (tr : list Event) : Prop :=
  exists k j : nat,
    queried_params tr = map param_name (firstn k params)
    /\ submitted_params tr = map param_name (firstn j params)
    /\ (j <= k <= j + 1)%nat.

(** Every parameter was asked for and set, once, in the order given. *)
Definition all_params_set (params : list string) (tr : list Event) : Prop :=
  queried_params tr = map param_name params
  /\ submitted_params tr = map param_name params.

(** After a parameter call that failed, no parameter is asked for or set
    and the job is neither run nor waited for. *)
Fixpoint stops_at_failure (tr : list Event) : bool :=
  match tr with
  | [] => true
  | ev :: rest =>
      (if param_failure ev then negb (existsb is_job_setup rest) else true)
      && stops_at_failure rest
  end.

Definition is_run (ev : Event) : bool :=
  match ev with
  | @EvCall _ _ (DSRunJob _ _) _ => true
  | _ => false
  end.


(** A piece of trace without any call on the parameters or the run. *)
Definition setup_free (tr : list Event) : Prop :=
  queried_params tr = [] /\ submitted_params tr = []
  /\ existsb param_failure tr = false /\ existsb is_job_setup tr = false.


(** The job and status of a [DSLockJob]. *)
Definition lock_result (ev : Event) : option (DSJOB * Z) :=
  match ev with
  | @EvCall _ _ (DSLockJob hJob) status => Some (hJob, status)
  | _ => None
  end.


(** What [main] does with the token it takes for the command, [rest]
    being the arguments that follow it. *)
Definition dispatch (fuel : nat) (g : GlobalOptions) (a : string)
  (rest : list string) : M Z :=
  if is_command_switch a then
    match find_option (opt_name a) (MajorOption fuel) with
    | Some optionHandler =>
        run_command (g_domain g) (g_user g) (g_password g) (g_server g)
          optionHandler rest
    | None =>
        eprintf ("Invalid/unknown primary command switch." +++ nl) ;;;
        reportError fuel
    end
  else reportError fuel.

(** A token that is none of the four connection flags. *)
Definition not_a_flag (a : string) : bool :=
  negb (existsb (String.eqb a) global_flags).


(** The number of handles an optional handle stands for. *)
Definition held (o : option Z) : nat :=
  match o with Some _ => 1%nat | None => 0%nat end.

(** A computation that only prints: it returns in the world it started
    in, after output only, or its behaviour is undefined. *)
Definition quiet {X : Type} (m : M X) : Prop :=
  forall w,
    (exists x tr, m w = Returns x tr w /\ output_only tr = true)
    \/ (exists u, m w = Undefined u).

(** The job a call works on, when it is neither its opening nor its
    closing. *)
Definition works_on_job (ev : Event) : bool :=
  match ev with
  | EvCall c _ =>
      match c with
      | DSLockJob _ | DSUnlockJob _ | DSSetJobLimit _ _ _
      | DSGetParamInfo _ _ | DSSetParam _ _ _ | DSRunJob _ _
      | DSWaitForJob _ | DSStopJob _ | DSGetJobInfo _ _
      | DSGetStageInfo _ _ _ | DSGetLinkInfo _ _ _ _ | DSLogEvent _ _ _
      | DSFindFirstLogEntry _ _ _ _ _ | DSFindNextLogEntry _
      | DSGetLogEntry _ _ | DSGetNewestLogId _ _ => true
      | _ => false
      end
  | _ => false
  end.

(** After position [pre] of the trace a lock on [hJob] was refused: what
    follows is the closing of the job, with no call on a job before it. *)
Definition refused_lock_only_closed (tr : list Event) : Prop :=
  forall pre hJob status post,
    tr = pre ++ EvCall (DSLockJob hJob) status :: post ->
    status <> DSJE_NOERROR ->
    exists before closed rest,
      post = before ++ EvCall (DSCloseJob hJob) closed :: rest
      /\ forallb (fun ev => negb (works_on_job ev)) before = true.

(** After position [pre] of the trace a lock on [hJob] was granted: the
    job is unlocked, not closed before that, and closed after it. *)
Definition granted_lock_released (tr : list Event) : Prop :=
  forall pre hJob post,
    tr = pre ++ EvCall (DSLockJob hJob) DSJE_NOERROR :: post ->
    exists before unlocked rest closed,
      post = before ++ EvCall (DSUnlockJob hJob) unlocked :: rest
      /\ forallb (fun ev => negb (is_job_closed ev)) before = true
      /\ In (EvCall (DSCloseJob hJob) closed) rest.


(** A trace that opens and releases its handles by the rules of
    [lifecycle], and ends without any. *)
Definition releases_handles (tr : list Event) : Prop :=
  lifecycle no_handles tr = Some no_handles.


(** The result of a handler is the failure of every engine call that
    failed in its trace. *)
Definition propagates_failures (result : Z) (tr : list Event) : Prop :=
  forall ev status,
    In ev tr -> engine_failure ev = Some status -> result = status.


(** One step of a handler that is skipped once the status is a failure:
    [s] is the status after the step, [t] its trace. *)
Definition step_ok (before s : Z) (t : list Event) : Prop :=
  propagates_failures s t
  /\ (before <> DSJE_NOERROR -> t = [] /\ s = before).

(** The handles while a job is open and no lock was refused. *)
Definition job_usable (h : Handles) (hJob : DSJOB) : Prop :=
  holds_job h hJob = true /\ lock_refused h = false.

(** *** What the printing routines write *)

(** The lines of [printStrList]: every string after [indent] tabs, on a
    line of its own. *)
Fixpoint indented_lines (indent : nat) (str : list string) : string :=
  match str with
  | [] => EmptyString
  | s :: rest => tab_prefix indent +++ s +++ nl +++ indented_lines indent rest
  end.

(** *** Outcomes *)






(** *** Validation of the arguments *)

(** The commands that take a fixed number of arguments: the name, the
    number, and the line their handler writes when it is given another
    number. *)
Definition fixed_arity : list (string * nat * string) :=
  [("stop", 2%nat, "Invalid arguments: dsjob -stop <project> <job>");
   ("lprojects", 0%nat, "Invalid arguments: dsjob -lproject");
   ("ljobs", 1%nat, "Invalid arguments: dsjob -ljobs <project>");
   ("lstages", 2%nat, "Invalid arguments: dsjob -lstages <project> <job>");
   ("llinks", 3%nat,
    "Invalid arguments: dsjob -llinks <project> <job> <stage>");
   ("jobinfo", 2%nat, "Invalid arguments: dsjob -jobinfo <project> <job>");
   ("stageinfo", 3%nat,
    "Invalid arguments: dsjob -stageinfo <project> <job> <stage>");
   ("linkinfo", 4%nat,
    "Invalid arguments: dsjob -linkinfo <project> <job> <stage> <link>");
   ("lparams", 2%nat, "Invalid arguments: dsjob -lparams <project> <job>");
   ("paraminfo", 3%nat,
    "Invalid arguments: dsjob -paraminfo <project> <job> <param>");
   ("logdetail", 3%nat,
    "Invalid arguments: dsjob -logdetail <project> <job> <event id>")].

(** A handler turns its arguments down: it returns the local error code
    after writing [usage] to stderr, nothing to stdout, and without a
    call to the engine. *)
Definition turned_down (usage : string) (m : M Z) (w : World) : Prop :=
  exists tr,
    m w = Returns DSJE_DSJOB_ERROR tr w
    /\ output_only tr = true
    /\ stdout_text tr = EmptyString
    /\ stderr_text tr = usage.

(** The usage of -run, as [jobRun] writes it. *)
Definition run_usage_text : string :=
  "Invalid arguments: dsjob -run" +++ nl
  +++ tab +++ tab +++ tab +++ "[-mode <NORMAL | RESET | VALIDATE>]" +++ nl
  +++ tab +++ tab +++ tab +++ "[-param <name>=<value>]" +++ nl
  +++ tab +++ tab +++ tab +++ "[-warn <n>]" +++ nl
  +++ tab +++ tab +++ tab +++ "[-rows <n>]" +++ nl
  +++ tab +++ tab +++ tab +++ "[-wait]" +++ nl
  +++ tab +++ tab +++ tab +++ "<project> <job>" +++ nl.

(** The names of the options of -run. *)
Definition run_option_names : list string :=
  ["wait"; "mode"; "param"; "warn"; "rows"].

(** An argument list that does not start with an option. *)
Definition positional (rest : list string) : bool :=
  match rest with
  | a :: _ => negb (is_option a)
  | [] => true
  end.

(** *** Failing to open *)

(** The project a [DSOpenProject] names with the handle it answers, and
    the same for [DSOpenJob]. *)
Definition project_opening (ev : Event) : option (string * option DSPROJECT) :=
  match ev with
  | @EvCall _ _ (DSOpenProject project) h => Some (project, h)
  | _ => None
  end.

Definition job_opening (ev : Event)
  : option (DSPROJECT * string * option DSJOB) :=
  match ev with
  | @EvCall _ _ (DSOpenJob hProject job) h => Some (hProject, job, h)
  | _ => None
  end.

(** What a handler with result [r] and trace [tr] did if it could not
    open its project, or its job.  After a project that does not open:
    [DSGetLastError], whose answer is the result, the complaint on stderr
    (none when [silent]), and nothing else.  After a job that does not
    open: [DSGetLastError], whose answer is the result, the complaint,
    the closing of the project, and nothing else. *)
Definition open_failures (silent : bool) (r : Z) (tr : list Event) : Prop :=
  (forall p rest,
      tr = EvCall (DSOpenProject p) None :: rest ->
      rest = EvCall DSGetLastError r
             :: (if silent then []
                 else [EvStderr ("ERROR: Failed to open project" +++ nl)]))
  /\ (forall p hp hp' j rest,
         tr = EvCall (DSOpenProject p) (Some hp)
              :: EvCall (DSOpenJob hp' j) None :: rest ->
         hp' = hp
         /\ exists closed,
              rest = [EvCall DSGetLastError r;
                      EvStderr ("ERROR: Failed to open job" +++ nl);
                      EvCall (DSCloseProject hp) closed]).

(** *** The run *)

(** The mode and the status of the [DSRunJob] calls, in their order. *)
Fixpoint runs (tr : list Event) : list (Z * Z) :=
  match tr with
  | [] => []
  | @EvCall _ _ (DSRunJob _ runMode) status :: rest =>
      (runMode, status) :: runs rest
  | _ :: rest => runs rest
  end.

Definition is_wait (ev : Event) : bool :=
  match ev with
  | @EvCall _ _ (DSWaitForJob _) _ => true
  | _ => false
  end.

(** The mode of the last -mode option, [m] when there is none. *)
Fixpoint last_mode (opts : list RunOption) (m : Z) : Z :=
  match opts with
  | [] => m
  | OptMode x :: rest => last_mode rest (mode_code x)
  | _ :: rest => last_mode rest m
  end.

Definition is_OptWait (o : RunOption) : bool :=
  match o with
  | OptWait => true
  | _ => false
  end.

(** *** The queries of the info commands *)

(** The kind and the status of the [DSGetJobInfo] calls of a trace, in
    their order; the same for the stage and the link queries. *)
Fixpoint job_queries (tr : list Event) : list (Z * Z) :=
  match tr with
  | [] => []
  | @EvCall _ _ (DSGetJobInfo _ infoType) r :: rest =>
      (infoType, fst r) :: job_queries rest
  | _ :: rest => job_queries rest
  end.

Fixpoint stage_queries (tr : list Event) : list (Z * Z) :=
  match tr with
  | [] => []
  | @EvCall _ _ (DSGetStageInfo _ _ infoType) r :: rest =>
      (infoType, fst r) :: stage_queries rest
  | _ :: rest => stage_queries rest
  end.

Fixpoint link_queries (tr : list Event) : list (Z * Z) :=
  match tr with
  | [] => []
  | @EvCall _ _ (DSGetLinkInfo _ _ _ infoType) r :: rest =>
      (infoType, fst r) :: link_queries rest
  | _ :: rest => link_queries rest
  end.

(** [if (status == DSJE_NOT_AVAILABLE) status = DSJE_NOERROR;] *)
Definition not_available_is_success (status : Z) : Z :=
  if status =? DSJE_NOT_AVAILABLE then DSJE_NOERROR else status.

(** *** The listings *)

(** The commands that list what a job holds: the handler, the kind of
    its query, the list it prints and the name of the list in its
    complaint. *)
Definition job_listings
  : list ((list string -> M Z) * Z * (DSJOBINFO -> list string) * string) :=
  [(jobLStages, DSJ_STAGELIST, stageList, "stage list");
   (jobLParams, DSJ_PARAMLIST, paramList, "parameter list")].

(** *** Parameter values *)

(** The text [printValue] has for the value that [setParam] builds from
    [value] for a parameter of type [declared]: a number converted and
    written back, anything else as it is.  [None] when [atoi] is not
    defined on [value]. *)
Definition printed_value (declared : Z) (value : string) : option string :=
  if declared =? DSJ_PARAMTYPE_INTEGER then
    match atoi value with
    | Some n => Some (string_of_Z n)
    | None => None
    end
  else if declared =? DSJ_PARAMTYPE_FLOAT then Some (fmt_G (atof value))
  else Some value.

(** *** The message of -log *)

(** The type and the text of the [DSLogEvent] calls, in their order. *)
Fixpoint logged (tr : list Event) : list (Z * string) :=
  match tr with
  | [] => []
  | @EvCall _ _ (DSLogEvent _ eventType message) _ :: rest =>
      (eventType, message) :: logged rest
  | _ :: rest => logged rest
  end.

(** [(ch == '\n') || isprint (ch)]: a character [jobLog] keeps. *)
Definition kept (ch : ascii) : bool :=
  Ascii.eqb ch (ascii_of_nat 10) || isprint ch.

(** Ctrl-d, where it ends the message. *)
Definition ends_message (ch : ascii) : bool :=
  WIN32 && Ascii.eqb ch (ascii_of_nat 4).

Fixpoint all_chars (f : ascii -> bool) (s : string) : bool :=
  match s with
  | EmptyString => true
  | String c r => f c && all_chars f r
  end.

(** *** -lognewest *)

(** The usage of -lognewest, as [jobLogNewest] writes it. *)
Definition lognewest_usage_text : string :=
  "Invalid arguments: dsjob -lognewest <project> <job> [<event type>]" +++ nl
  +++ tab
  +++ " event type = INFO | WARNING | FATAL | REJECT | STARTED | RESET | BATCH"
  +++ nl.

(** *** The names of the event types *)

(** The event types that have a name: the labels of the [switch] that
    prints the type of a log entry.  A C compiler rejects duplicate case
    labels. *)
Definition log_types : list Z :=
  [DSJ_LOGINFO; DSJ_LOGWARNING; DSJ_LOGFATAL; DSJ_LOGREJECT; DSJ_LOGSTARTED;
   DSJ_LOGRESET; DSJ_LOGBATCH; DSJ_LOGOTHER].

Definition log_types_distinct : Prop := NoDup log_types.

(** *** What a command changes *)

(** A call that changes something at the engine: a lock, a limit, a
    parameter, the start or the stop of a job, an entry in its log. *)
Definition changes_engine (ev : Event) : bool :=
  match ev with
  | EvCall c _ =>
      match c with
      | DSLockJob _ | DSUnlockJob _ | DSSetJobLimit _ _ _ | DSSetParam _ _ _
      | DSRunJob _ _ | DSStopJob _ | DSLogEvent _ _ _ => true
      | _ => false
      end
  | _ => false
  end.

(** The commands that only ask. *)
Definition query_commands : list string :=
  ["lprojects"; "ljobs"; "lstages"; "llinks"; "jobinfo"; "stageinfo";
   "linkinfo"; "lparams"; "paraminfo"; "logsum"; "logdetail"; "lognewest"].

Definition is_stop (ev : Event) : bool :=
  match ev with
  | @EvCall _ _ (DSStopJob _) _ => true
  | _ => false
  end.

Definition is_log_event (ev : Event) : bool :=
  match ev with
  | @EvCall _ _ (DSLogEvent _ _ _) _ => true
  | _ => false
  end.

(** *** The options of -log and -logsum *)

(** The options of the usage text of -logsum. *)
Inductive LogSumOption : Type :=
| OptType (name : string)
| OptMax (n : string).

Definition logsum_option_tokens (o : LogSumOption) : list string :=
  match o with
  | OptType name => ["-type"; name]
  | OptMax n => ["-max"; n]
  end.

Definition logsum_tokens (opts : list LogSumOption) : list string :=
  List.concat (map logsum_option_tokens opts).

(** A type has one of the names, a number is one [atoi] is defined on. *)
Definition logsum_option_ok (o : LogSumOption) : bool :=
  match o with
  | OptType name =>
      match log_type_of_name name with Some _ => true | None => false end
  | OptMax n => match atoi n with Some _ => true | None => false end
  end.

(** The type of the last -type option and the number of the last -max
    option, [d] when there is none. *)
Fixpoint last_type (opts : list LogSumOption) (d : Z) : Z :=
  match opts with
  | [] => d
  | OptType name :: rest =>
      last_type rest
        (match log_type_of_name name with Some type => type | None => d end)
  | _ :: rest => last_type rest d
  end.

Fixpoint last_max (opts : list LogSumOption) (d : Z) : Z :=
  match opts with
  | [] => d
  | OptMax n :: rest =>
      last_max rest (match atoi n with Some v => v | None => d end)
  | _ :: rest => last_max rest d
  end.

(** What [DSFindFirstLogEntry] is asked: type, start time, end time and
    number of entries. *)
Fixpoint first_entries (tr : list Event) : list (Z * Z * Z * Z) :=
  match tr with
  | [] => []
  | @EvCall _ _ (DSFindFirstLogEntry _ type startTime endTime maxNumber) _
    :: rest =>
      (type, startTime, endTime, maxNumber) :: first_entries rest
  | _ :: rest => first_entries rest
  end.

(** The options -info and -warn of -log. *)
Definition log_flag (warn : bool) : string :=
  if warn then "-warn" else "-info".

(** The type of the last of the options of -log, [d] when there is
    none. *)
Fixpoint last_flag (flags : list bool) (d : Z) : Z :=
  match flags with
  | [] => d
  | warn :: rest =>
      last_flag rest (if warn then DSJ_LOGWARNING else DSJ_LOGINFO)
  end.

(** *** -logdetail *)

(** The lines of [printLogDetail]: the id, the time, the type and the
    message of a log entry, the lines of the message one tab further in
    than the rest. *)
Definition log_detail_text (indent : nat) (logDetail : DSLOGDETAIL) : string :=
  tab_prefix indent +++ "Event Id: "
  +++ (if ld_eventId logDetail <? 0 then "unknown"
       else string_of_Z (ld_eventId logDetail)) +++ nl
  +++ tab_prefix indent +++ "Time" +++ tab +++ ": "
  +++ ctime (ld_timestamp logDetail)
  +++ tab_prefix indent +++ "Type" +++ tab +++ ": "
  +++ log_type_label (ld_type logDetail) +++ nl
  +++ tab_prefix indent +++ "Message" +++ tab +++ ":" +++ nl
  +++ indented_lines (indent + 1) (ld_fullMessage logDetail).

(** *** The calls of a run, in their order *)

(** What a call does, without what it answers. *)
Inductive Step : Type :=
| OpenProjectStep (project : string)
| OpenJobStep (job : string)
| LockStep
| LimitStep (kind value : Z)
| QueryStep (name : string)
| SetStep (name : string)
| RunStep (runMode : Z)
| WaitStep
| UnlockStep
| CloseJobStep
| CloseProjectStep
| OtherStep.

Definition step_of (ev : Event) : list Step :=
  match ev with
  | EvCall c _ =>
      [match c with
       | DSOpenProject project => OpenProjectStep project
       | DSOpenJob _ job => OpenJobStep job
       | DSLockJob _ => LockStep
       | DSSetJobLimit _ kind value => LimitStep kind value
       | DSGetParamInfo _ name => QueryStep name
       | DSSetParam _ name _ => SetStep name
       | DSRunJob _ runMode => RunStep runMode
       | DSWaitForJob _ => WaitStep
       | DSUnlockJob _ => UnlockStep
       | DSCloseJob _ => CloseJobStep
       | DSCloseProject _ => CloseProjectStep
       | _ => OtherStep
       end]
  | _ => []
  end.

Definition steps (tr : list Event) : list Step := flat_map step_of tr.

(** A call that did what it was asked: an opening that gave a handle, a
    lock, limit, parameter, run or wait with the status of success.
    Nothing is asked of the other calls. *)
Definition succeeded (ev : Event) : bool :=
  match ev with
  | EvCall c r =>
      match c in DSCall R return R -> bool with
      | DSOpenProject _ =>
          fun h => match h with Some _ => true | None => false end
      | DSOpenJob _ _ =>
          fun h => match h with Some _ => true | None => false end
      | DSLockJob _ => fun status => status =? DSJE_NOERROR
      | DSSetJobLimit _ _ _ => fun status => status =? DSJE_NOERROR
      | DSSetParam _ _ _ => fun status => status =? DSJE_NOERROR
      | DSRunJob _ _ => fun status => status =? DSJE_NOERROR
      | DSWaitForJob _ => fun status => status =? DSJE_NOERROR
      | DSGetParamInfo _ _ => fun r => fst r =? DSJE_NOERROR
      | _ => fun _ => true
      end r
  | _ => true
  end.

(** The steps of a run in which every call succeeds, for the options [o]
    of the command line. *)
Definition run_steps (project job : string) (o : RunOptions) : list Step :=
  [OpenProjectStep project; OpenJobStep job; LockStep]
  ++ (if 0 <=? warningLimit o
      then [LimitStep DSJ_LIMITWARN (warningLimit o)] else [])
  ++ (if rowLimit o =? 0 then []
      else [LimitStep DSJ_LIMITROWS (rowLimit o)])
  ++ flat_map (fun p => [QueryStep (param_name p); SetStep (param_name p)])
       (param o)
  ++ [RunStep (mode o)]
  ++ (if waitForJob o then [WaitStep] else [])
  ++ [UnlockStep; CloseJobStep; CloseProjectStep].

End Statements.

(** * Properties *)

Section Properties.
Context {P : Platform} {A : DsApi} {Eng : Engine}.

(** ** The C library and the monad *)

Lemma failed_false (status : Z) :
  failed status = false -> status = DSJE_NOERROR.
Proof.
  unfold failed. intros H. apply negb_false_iff in H. now apply Z.eqb_eq.
Qed.

Lemma failed_true (status : Z) :
  failed status = true -> status <> DSJE_NOERROR.
Proof.
  unfold failed. intros H. apply negb_true_iff in H. now apply Z.eqb_neq.
Qed.

Lemma failed_noerror : failed DSJE_NOERROR = false.
Proof. unfold failed. now rewrite Z.eqb_refl. Qed.

Lemma switch_case {T : Type} (x : Z) (cases : list (Z * T)) (d a : T) :
  NoDup (map fst cases) -> In (x, a) cases -> switch x cases d = a.
Proof.
  induction cases as [|[l b] cases IH]; simpl; intros Hnd Hin; [easy|].
  inversion Hnd as [|? ? Hnotin Hnd']; subst.
  destruct Hin as [Heq|Hin].
  - inversion Heq; subst. now rewrite Z.eqb_refl.
  - destruct (Z.eqb_spec x l) as [->|_].
    + exfalso. apply Hnotin. now apply (in_map fst) in Hin.
    + now apply IH.
Qed.

Lemma switch_default {T : Type} (x : Z) (cases : list (Z * T)) (d : T) :
  ~ In x (map fst cases) -> switch x cases d = d.
Proof.
  induction cases as [|[l b] cases IH]; simpl; intros Hnotin; [easy|].
  destruct (Z.eqb_spec x l) as [->|_].
  - exfalso. apply Hnotin. now left.
  - apply IH. intros Hin. apply Hnotin. now right.
Qed.

Lemma digits_value_no_digit (s : string) (acc : Z) :
  match s with String c _ => isdigit c | EmptyString => false end = false ->
  digits_value s acc = acc.
Proof. destruct s as [|c r]; simpl; intros H; [easy|]. now rewrite H. Qed.

(** Nothing to convert: [atoi] is 0. *)
Lemma atoi_unparseable (s : string) :
  leading_number s = false -> atoi s = Some 0.
Proof.
  unfold leading_number, atoi, strtol10. intros H.
  destruct (strip_sign (skip_space s)) as [negative r]. simpl in H.
  rewrite (digits_value_no_digit r 0 H). now destruct negative.
Qed.

Lemma bind_returns {X Y : Type} (m : M X) (k : X -> M Y) (w w' : World)
  (y : Y) (tr : list Event) :
  bind m k w = Returns y tr w' ->
  exists x t1 w1 t2,
    m w = Returns x t1 w1 /\ k x w1 = Returns y t2 w' /\ tr = t1 ++ t2.
Proof.
  unfold bind. destruct (m w) as [x t1 w1| |]; try discriminate.
  destruct (k x w1) as [y' t2 w2| |] eqn:Hk; try discriminate.
  intros H. inversion H; subst. now exists x, t1, w1, t2.
Qed.

Lemma bind_intro {X Y : Type} (m : M X) (k : X -> M Y) (w w1 w2 : World)
  (x : X) (y : Y) (t1 t2 : list Event) :
  m w = Returns x t1 w1 -> k x w1 = Returns y t2 w2 ->
  bind m k w = Returns y (t1 ++ t2) w2.
Proof. unfold bind. now intros -> ->. Qed.

Lemma bind_assoc {X Y T : Type} (m : M X) (f : X -> M Y) (g : Y -> M T)
  (w : World) :
  bind (bind m f) g w = bind m (fun x => bind (f x) g) w.
Proof.
  unfold bind. destruct (m w) as [x t1 w1| |]; try reflexivity.
  destruct (f x w1) as [y t2 w2| |]; try reflexivity.
  destruct (g y w2) as [z t3 w3| |]; try reflexivity.
  now rewrite app_assoc.
Qed.

Lemma bind_call {R Y : Type} (c : DSCall R) (k : R -> M Y) (w : World)
  (r : R) (e : EState) :
  answer R c (engine w) = (r, e) ->
  bind (call c) k w
  = match k r (mkWorld e (stdin w)) with
    | Returns y t w' => Returns y (EvCall c r :: t) w'
    | Undefined u => Undefined u
    | OutOfFuel => OutOfFuel
    end.
Proof. unfold bind, call. now intros ->. Qed.

Lemma bind_step {X Y : Type} (m : M X) (k : X -> M Y) (w w1 : World) (x : X)
  (t1 : list Event) :
  m w = Returns x t1 w1 ->
  bind m k w
  = match k x w1 with
    | Returns y t2 w2 => Returns y (t1 ++ t2) w2
    | Undefined u => Undefined u
    | OutOfFuel => OutOfFuel
    end.
Proof. unfold bind. now intros ->. Qed.

(** ** Parameter marshalling *)

Lemma make_param_marshals (declared : Z) (value : string) (p : DSPARAM) :
  param_types_distinct A -> atof_conforms P ->
  marshalled declared value p -> make_param declared value = Some p.
Proof.
  intros Hnd Hatof Hm. unfold make_param.
  destruct Hm as [n -> Hn| -> Hn| -> | -> Hs| -> | -> | -> | -> | -> | -> |Hun];
    try (erewrite switch_case; [reflexivity|exact Hnd|simpl; tauto]).
  - erewrite switch_case; [|exact Hnd|simpl; right; right; left; reflexivity].
    now rewrite Hn.
  - erewrite switch_case; [|exact Hnd|simpl; right; right; left; reflexivity].
    now rewrite (atoi_unparseable _ Hn).
  - erewrite switch_case;
      [|exact Hnd|simpl; right; right; right; left; reflexivity].
    now rewrite (Hatof _ Hs).
  - now apply switch_default.
Qed.

(** C5.  Parameter marshalling builds the value from the declared type
    the engine reports: once [DSGetParamInfo] has succeeded, [setParam]
    hands [DSSetParam] the value the specification describes
    ([marshalled]: an integer or float by best-effort conversion, 0 when
    there is nothing to convert; the string-like types verbatim; an
    unknown type code as a string), and the only text it may write
    afterwards is the report of a refused [DSSetParam]: no complaint about
    the format of a number. *)
Theorem setParam_marshals_declared_type (hJob : DSJOB)
  (param name value : string) (w : World) (info : DSPARAMINFO) (e' : EState)
  (p : DSPARAM) :
  param_types_distinct A -> atof_conforms P ->
  strchr_split "=" param = Some (name, value) ->
  answer _ (DSGetParamInfo hJob name) (engine w) = ((DSJE_NOERROR, info), e') ->
  marshalled (pi_paramType info) value p ->
  exists status e'',
    answer _ (DSSetParam hJob name p) e' = (status, e'')
    /\ setParam hJob param w
       = Returns status
           (EvCall (DSGetParamInfo hJob name) (DSJE_NOERROR, info)
            :: EvCall (DSSetParam hJob name p) status
            :: (if failed status
                then [EvStderr ("Error setting value of parameter '" +++ name
                                +++ "'" +++ nl)]
                else []))
           (mkWorld e'' (stdin w)).
Proof.
  intros Hnd Hatof Hsplit Hinfo Hm.
  destruct (answer _ (DSSetParam hJob name p) e') as [status e''] eqn:Hset.
  exists status, e''. split; [reflexivity|].
  unfold setParam. rewrite Hsplit.
  unfold bind at 1. unfold call at 1. rewrite Hinfo.
  rewrite failed_noerror.
  rewrite (make_param_marshals _ _ _ Hnd Hatof Hm).
  unfold bind, call, when. simpl. rewrite Hset.
  destruct (failed status); reflexivity.
Qed.

(** ** The parameters of a run *)

(** The two shapes of the trace of [setParam]. *)
Lemma setParam_returns (hJob : DSJOB) (param : string) (w w' : World)
  (st : Z) (tr : list Event) :
  setParam hJob param w = Returns st tr w' ->
  exists name value info,
    strchr_split "=" param = Some (name, value)
    /\ ((failed st = true
         /\ tr = [EvCall (DSGetParamInfo hJob name) (st, info);
                  EvStderr ("Error " +++ string_of_Z st
                            +++ " getting information for parameter '"
                            +++ name +++ "'" +++ nl)])
        \/ (exists pd,
              tr = EvCall (DSGetParamInfo hJob name) (DSJE_NOERROR, info)
                   :: EvCall (DSSetParam hJob name pd) st
                   :: (if failed st
                       then [EvStderr ("Error setting value of parameter '"
                                       +++ name +++ "'" +++ nl)]
                       else []))).
Proof.
  unfold setParam.
  destruct (strchr_split "=" param) as [[name value]|]; [|discriminate].
  unfold bind at 1, call at 1.
  destruct (answer _ (DSGetParamInfo hJob name) (engine w))
    as [[status info] e1] eqn:Hinfo.
  intros H. exists name, value, info. split; [reflexivity|].
  destruct (failed status) eqn:Hf.
  - left. unfold bind, eprintf, ret in H. simpl in H.
    inversion H; subst. now split.
  - right. apply failed_false in Hf. subst status.
    destruct (make_param (pi_paramType info) value) as [pd|];
      [|discriminate].
    exists pd. unfold bind, call, when in H. simpl in H.
    destruct (answer _ (DSSetParam hJob name pd) e1) as [status e2].
    destruct (failed status) eqn:Hf; simpl in H; inversion H; subst;
      rewrite Hf; reflexivity.
Qed.

Lemma existsb_app_false {T : Type} (f : T -> bool) (l1 l2 : list T) :
  existsb f l1 = false -> existsb f l2 = false -> existsb f (l1 ++ l2) = false.
Proof. intros H1 H2. now rewrite existsb_app, H1, H2. Qed.

Lemma stops_at_failure_app (t1 t2 : list Event) :
  stops_at_failure (t1 ++ t2)
  = stops_at_failure t1 && stops_at_failure t2
    && (negb (existsb param_failure t1) || negb (existsb is_job_setup t2)).
Proof.
  induction t1 as [|ev t1 IH]; simpl.
  - now rewrite andb_true_r.
  - rewrite IH, existsb_app.
    destruct (param_failure ev), (existsb is_job_setup t1),
      (existsb is_job_setup t2), (stops_at_failure t1),
      (stops_at_failure t2), (existsb param_failure t1); reflexivity.
Qed.

(** What [stops_at_failure] says, on the positions of a trace. *)
Lemma stops_at_failure_spec (tr : list Event) :
  stops_at_failure tr = true ->
  forall pre ev post,
    tr = pre ++ ev :: post -> param_failure ev = true ->
    existsb is_job_setup post = false.
Proof.
  intros H pre. revert tr H.
  induction pre as [|x pre IH]; intros tr H ev post -> Hev; simpl in H.
  - rewrite Hev in H. apply andb_true_iff in H as [H _].
    now apply negb_true_iff in H.
  - apply andb_true_iff in H as [_ H]. now apply (IH _ H ev post).
Qed.

Lemma queried_params_app (t1 t2 : list Event) :
  queried_params (t1 ++ t2) = queried_params t1 ++ queried_params t2.
Proof.
  induction t1 as [|ev t1 IH]; simpl; [reflexivity|].
  destruct ev as [R c r| | |]; try exact IH.
  destruct c; simpl; now rewrite ?IH.
Qed.

Lemma submitted_params_app (t1 t2 : list Event) :
  submitted_params (t1 ++ t2) = submitted_params t1 ++ submitted_params t2.
Proof.
  induction t1 as [|ev t1 IH]; simpl; [reflexivity|].
  destruct ev as [R c r| | |]; try exact IH.
  destruct c; simpl; now rewrite ?IH.
Qed.

(** The trace of one [setParam], for the parameter loop. *)
Lemma setParam_trace (hJob : DSJOB) (param : string) (w w' : World)
  (st : Z) (tr : list Event) :
  setParam hJob param w = Returns st tr w' ->
  queried_params tr = [param_name param]
  /\ (if st =? DSJE_NOERROR then submitted_params tr = [param_name param]
      else (submitted_params tr = [param_name param]
            \/ submitted_params tr = []))
  /\ stops_at_failure tr = true
  /\ existsb param_failure tr = failed st
  /\ existsb is_run tr = false.
Proof.
  intros H. apply setParam_returns in H.
  destruct H as (name & value & info & Hsplit & [[Hf ->]|[pd ->]]);
    unfold param_name; rewrite Hsplit; simpl.
  - rewrite Hf. simpl. pose proof (failed_true _ Hf) as Hne.
    apply Z.eqb_neq in Hne. rewrite Hne. repeat split; auto.
  - rewrite failed_noerror. simpl.
    destruct (failed st) eqn:Hf; simpl.
    + pose proof (failed_true _ Hf) as Hne. apply Z.eqb_neq in Hne.
      rewrite Hne. repeat split; auto.
    + pose proof (failed_false _ Hf) as ->. rewrite Z.eqb_refl.
      repeat split; auto.
Qed.

(** The parameter loop asks for and sets a prefix of the parameters, in
    their order, and all of them when it ends on success. *)
Lemma setParam_loop_trace (hJob : DSJOB) (params : list string) :
  forall (status : Z) (w w' : World) (st : Z) (tr : list Event),
    setParam_loop hJob status params w = Returns st tr w' ->
    params_processed params tr
    /\ stops_at_failure tr = true
    /\ existsb is_run tr = false
    /\ (st = DSJE_NOERROR -> status = DSJE_NOERROR)
    /\ (st = DSJE_NOERROR -> all_params_set params tr)
    /\ (st = DSJE_NOERROR -> existsb param_failure tr = false)
    /\ (status <> DSJE_NOERROR -> tr = [] /\ st = status).
Proof.
  assert (Hnone : forall params', params_processed params' []).
  { intros params'. exists 0%nat, 0%nat. simpl. repeat split; lia. }
  induction params as [|p params IH]; intros status w w' st tr H; simpl in H.
  - inversion H; subst. unfold all_params_set. simpl.
    repeat (split; [solve [auto; congruence]|]). auto.
  - destruct (Z.eqb_spec status DSJE_NOERROR) as [->|Hne].
    + apply bind_returns in H as (st1 & t1 & w1 & t2 & H1 & H2 & ->).
      apply setParam_trace in H1 as (Hq & Hs & Hstop & Hfail & Hrun).
      apply IH in H2 as (Hproc & Hstop2 & Hrun2 & Hst & Hall & Hbad & Hskip).
      destruct (Z.eqb_spec st1 DSJE_NOERROR) as [->|Hne1].
      * (* this parameter was set: the rest of the loop decides *)
        destruct Hproc as (k & j & Hk & Hj & Hkj).
        rewrite failed_noerror in Hfail.
        split; [|split; [|split; [|split; [|split; [|split]]]]].
        -- exists (S k), (S j). rewrite queried_params_app,
             submitted_params_app, Hq, Hs, Hk, Hj. simpl.
           repeat split; lia.
        -- rewrite stops_at_failure_app, Hstop, Hstop2, Hfail. reflexivity.
        -- now rewrite existsb_app, Hrun, Hrun2.
        -- reflexivity.
        -- intros Hok. destruct (Hall Hok) as [Ha Hb]. split.
           ++ rewrite queried_params_app, Hq, Ha. reflexivity.
           ++ rewrite submitted_params_app, Hs, Hb. reflexivity.
        -- intros Hok. now rewrite existsb_app, Hfail, (Hbad Hok).
        -- congruence.
      * (* this parameter failed: the loop is over *)
        destruct (Hskip Hne1) as [-> ->]. rewrite app_nil_r.
        split; [|split; [|split; [|split; [|split; [|split]]]]];
          try congruence; auto.
        -- destruct Hs as [Hs|Hs].
           ++ exists 1%nat, 1%nat. rewrite Hq, Hs. simpl.
              repeat split; lia.
           ++ exists 1%nat, 0%nat. rewrite Hq, Hs. simpl.
              repeat split; lia.
    + inversion H; subst. unfold all_params_set.
      split; [|split; [|split; [|split; [|split; [|split]]]]];
        try congruence; auto.
Qed.

(** Straight-line code: name every answer of the engine, decide every
    test, and read the outcome off the equation. *)
Ltac run_code H :=
  unfold bind, call, when, printf, eprintf, fflush_stdout, ret, undefined,
    out_of_fuel in H;
  simpl in H;
  repeat
    (match type of H with
     | context [answer ?R ?c ?e] =>
         let r := fresh "r" in
         let e' := fresh "e" in
         let Hr := fresh "Hans" in
         destruct (answer R c e) as [r e'] eqn:Hr
     | context [match ?x with Some _ => _ | None => _ end] =>
         is_var x; destruct x
     | context [if ?b then _ else _] =>
         let Hb := fresh "Hif" in destruct b eqn:Hb
     end;
     simpl in H);
  try discriminate H.

(** ** The command line of -run *)

Lemma param_fold (opts : list RunOption) :
  forall o, param (fold_left apply_option opts o) = param o ++ params_of opts.
Proof.
  induction opts as [|x opts IH]; intros o; simpl.
  - now rewrite app_nil_r.
  - rewrite IH. unfold params_of. simpl.
    destruct x; simpl; try reflexivity. now rewrite <- app_assoc.
Qed.

(** The option loop on a rendered command line: the options are applied
    in turn, unless they hold more parameters than [param] has room for. *)
Lemma jobRun_options_rendered (opts : list RunOption) (rest : list string) :
  forallb option_ok opts = true ->
  forall o,
    (List.length (param o) <= MAX_PARAMS)%nat ->
    jobRun_options (options_tokens opts ++ rest) o
    = if (List.length (param o) + List.length (params_of opts)
          <=? MAX_PARAMS)%nat
      then jobRun_options rest (fold_left apply_option opts o)
      else ParseUndefined OutOfBoundsWrite.
Proof.
  unfold options_tokens, params_of.
  induction opts as [|x opts IH]; intros Hok o Hlen.
  - simpl. rewrite Nat.add_0_r.
    apply Nat.leb_le in Hlen. now rewrite Hlen.
  - simpl in Hok. apply andb_true_iff in Hok as [Hx Hok].
    destruct x as [|m|p|n|n]; simpl in *.
    + now rewrite (IH Hok).
    + destruct m; simpl; now rewrite (IH Hok).
    + unfold has_equals in Hx.
      destruct (strchr_split "=" p) as [?|]; [|discriminate].
      destruct (Nat.ltb_spec (List.length (param o)) MAX_PARAMS) as [Hlt|Hge].
      * rewrite (IH Hok); simpl; rewrite ?length_app; simpl; [|lia].
        replace (List.length (param o) + 1
                 + List.length (List.concat (map option_params opts)))%nat
          with (List.length (param o)
                + S (List.length (List.concat (map option_params opts))))%nat
          by lia.
        reflexivity.
      * destruct (Nat.leb_spec
                    (List.length (param o)
                     + S (List.length (List.concat (map option_params opts))))
                    MAX_PARAMS) as [Hle|_]; [lia|reflexivity].
    + destruct (atoi n) as [v|]; [|discriminate]. now rewrite (IH Hok).
    + destruct (atoi n) as [v|]; [|discriminate]. now rewrite (IH Hok).
Qed.

Lemma jobRun_options_positional (o : RunOptions) (project job : string) :
  is_option project = false ->
  jobRun_options [project; job] o = Accepted o [project; job].
Proof. simpl. now intros ->. Qed.

(** [jobRun] on a rendered command line. *)
Lemma jobRun_rendered (opts : list RunOption) (project job : string) :
  forallb option_ok opts = true -> is_option project = false ->
  jobRun (options_tokens opts ++ [project; job])
  = if (List.length (params_of opts) <=? MAX_PARAMS)%nat
    then jobRun_open project job (fold_left apply_option opts jobRun_defaults)
    else undefined OutOfBoundsWrite.
Proof.
  intros Hok Hp. unfold jobRun.
  rewrite (jobRun_options_rendered opts _ Hok); [|simpl; unfold MAX_PARAMS; lia].
  replace (List.length (param jobRun_defaults)
           + List.length (params_of opts))%nat
    with (List.length (params_of opts)) by reflexivity.
  destruct (List.length (params_of opts) <=? MAX_PARAMS)%nat; [|reflexivity].
  now rewrite (jobRun_options_positional _ _ _ Hp).
Qed.

Lemma eqb_noerror (status : Z) :
  (status =? DSJE_NOERROR) = true -> status = DSJE_NOERROR.
Proof. apply Z.eqb_eq. Qed.

(** What [jobRun] does with the job it has locked. *)
Lemma jobRun_locked_trace (hJob : DSJOB) (o : RunOptions) (w w' : World)
  (r : Z) (tr : list Event) :
  jobRun_locked hJob o DSJE_NOERROR w = Returns r tr w' ->
  params_processed (param o) tr
  /\ stops_at_failure tr = true
  /\ (existsb is_run tr = true -> all_params_set (param o) tr).
Proof.
  unfold jobRun_locked. intros H.
  apply bind_returns in H as (s1 & t1 & w1 & q1 & H1 & H & ->).
  apply bind_returns in H as (s2 & t2 & w2 & q2 & H2 & H & ->).
  apply bind_returns in H as (s3 & t3 & w3 & q3 & H3 & H & ->).
  apply bind_returns in H as (s4 & t4 & w4 & q4 & H4 & H & ->).
  apply bind_returns in H as (s5 & t5 & w5 & t6 & H5 & H6 & ->).
  assert (F1 : setup_free t1 /\ stops_at_failure t1 = true
               /\ existsb is_run t1 = false).
  { unfold setup_free.
    run_code H1; inversion H1; subst; simpl; repeat split; reflexivity. }
  assert (F2 : setup_free t2 /\ stops_at_failure t2 = true
               /\ existsb is_run t2 = false).
  { unfold setup_free.
    run_code H2; inversion H2; subst; simpl; repeat split; reflexivity. }
  assert (F4 : queried_params t4 = [] /\ submitted_params t4 = []
               /\ existsb param_failure t4 = false
               /\ stops_at_failure t4 = true
               /\ (existsb is_job_setup t4 = true -> s3 = DSJE_NOERROR)
               /\ (existsb is_run t4 = true -> s3 = DSJE_NOERROR)
               /\ (s4 = DSJE_NOERROR -> s3 = DSJE_NOERROR)).
  { destruct (Z.eqb_spec s3 DSJE_NOERROR) as [->|Hne].
    - run_code H4; inversion H4; subst; simpl; repeat split; reflexivity.
    - inversion H4; subst. simpl. repeat split; congruence. }
  assert (F5 : queried_params t5 = [] /\ submitted_params t5 = []
               /\ existsb param_failure t5 = false
               /\ stops_at_failure t5 = true
               /\ (existsb is_job_setup t5 = true -> s4 = DSJE_NOERROR)
               /\ existsb is_run t5 = false).
  { destruct (Z.eqb_spec s4 DSJE_NOERROR) as [->|Hne].
    - run_code H5; inversion H5; subst; simpl; repeat split; reflexivity.
    - inversion H5; subst. simpl. repeat split; congruence. }
  assert (F6 : setup_free t6 /\ stops_at_failure t6 = true
               /\ existsb is_run t6 = false).
  { unfold setup_free.
    run_code H6; inversion H6; subst; simpl; repeat split; reflexivity. }
  apply setParam_loop_trace in H3
    as (Hproc & Hstop & Hrun & _ & Hall & Hgood & _).
  destruct F1 as ((A1 & B1 & C1 & D1) & E1 & G1).
  destruct F2 as ((A2 & B2 & C2 & D2) & E2 & G2).
  destruct F4 as (A4 & B4 & C4 & E4 & S4 & R4 & N4).
  destruct F5 as (A5 & B5 & C5 & E5 & S5 & R5).
  destruct F6 as ((A6 & B6 & C6 & D6) & E6 & G6).
  assert (Hq : queried_params (t1 ++ t2 ++ t3 ++ t4 ++ t5 ++ t6)
               = queried_params t3).
  { rewrite !queried_params_app, A1, A2, A4, A5, A6. simpl.
    now rewrite app_nil_r. }
  assert (Hs : submitted_params (t1 ++ t2 ++ t3 ++ t4 ++ t5 ++ t6)
               = submitted_params t3).
  { rewrite !submitted_params_app, B1, B2, B4, B5, B6. simpl.
    now rewrite app_nil_r. }
  split; [|split].
  - destruct Hproc as (k & j & Hk & Hj & Hkj). exists k, j.
    rewrite Hq, Hs. auto.
  - rewrite !stops_at_failure_app, !existsb_app.
    rewrite E1, E2, Hstop, E4, E5, E6, C1, C2, C4, C5, D6. simpl.
    destruct (existsb param_failure t3) eqn:Hf3; [|reflexivity]. simpl.
    destruct (existsb is_job_setup t4) eqn:Hs4.
    + specialize (Hgood (S4 eq_refl)). discriminate.
    + destruct (existsb is_job_setup t5) eqn:Hs5; [|reflexivity].
      specialize (Hgood (N4 (S5 eq_refl))). discriminate.
  - rewrite !existsb_app, G1, G2, Hrun, R5, G6. simpl.
    rewrite orb_false_r. intros Hr. unfold all_params_set.
    rewrite Hq, Hs. exact (Hall (R4 Hr)).
Qed.

(** [jobRun] once the command line is read. *)
Lemma jobRun_open_trace (project job : string) (o : RunOptions) (w w' : World)
  (r : Z) (tr : list Event) :
  jobRun_open project job o w = Returns r tr w' ->
  params_processed (param o) tr
  /\ stops_at_failure tr = true
  /\ (existsb is_run tr = true -> all_params_set (param o) tr).
Proof.
  assert (Hnone : forall tr0,
             queried_params tr0 = [] -> submitted_params tr0 = [] ->
             params_processed (param o) tr0).
  { intros tr0 Hq Hs. exists 0%nat, 0%nat. rewrite Hq, Hs. simpl.
    repeat split; lia. }
  unfold jobRun_open, open_project_failed, open_job_failed. intros H.
  apply bind_returns in H as (hp & t1 & w1 & q1 & H1 & H & ->).
  run_code H1. inversion H1; subst. clear H1.
  destruct hp as [hProject|].
  2:{ run_code H. inversion H; subst.
      split; [now apply Hnone|split; [reflexivity|discriminate]]. }
  apply bind_returns in H as (s1 & t2 & w2 & t3 & H2 & H3 & ->).
  run_code H3. inversion H3; subst. clear H3.
  apply bind_returns in H2 as (hj & t4 & w4 & q4 & H4 & H & ->).
  run_code H4. inversion H4; subst. clear H4.
  destruct hj as [hJob|].
  2:{ run_code H. inversion H; subst.
      split; [now apply Hnone|split; [reflexivity|discriminate]]. }
  apply bind_returns in H as (s2 & t5 & w5 & t6 & H5 & H6 & ->).
  run_code H6. inversion H6; subst. clear H6.
  apply bind_returns in H5 as (s3 & t7 & w7 & t8 & H7 & H8 & ->).
  run_code H7. inversion H7; subst. clear H7.
  destruct (failed s3) eqn:Hf.
  - run_code H8. inversion H8; subst.
    split; [now apply Hnone|split; [reflexivity|discriminate]].
  - apply failed_false in Hf. subst s3.
    apply jobRun_locked_trace in H8 as (Hproc & Hstop & Hrun).
    unfold params_processed, all_params_set in *. simpl.
    rewrite ?queried_params_app, ?submitted_params_app,
      ?stops_at_failure_app, ?existsb_app, ?Hstop.
    simpl. rewrite ?app_nil_r, ?orb_false_r, ?orb_true_r.
    split; [exact Hproc|split; [reflexivity|exact Hrun]].
Qed.

(** C6.  A parameter whose type query fails is reported and not set:
    [setParam] returns the status of [DSGetParamInfo] after that call and
    one line on stderr, without any [DSSetParam].  In a run, the
    parameters are asked for and set once each, in the order of the
    -param occurrences: what was processed is a prefix of them, all of
    them once the job gets run, and after a parameter call that failed
    no parameter is asked for or set any more (nor is the job run). *)
Theorem run_parameters_in_order_until_failure :
  (forall (hJob : DSJOB) (param name value : string) (w : World)
          (status : Z) (info : DSPARAMINFO) (e' : EState),
      strchr_split "=" param = Some (name, value) ->
      answer _ (DSGetParamInfo hJob name) (engine w) = ((status, info), e') ->
      status <> DSJE_NOERROR ->
      setParam hJob param w
      = Returns status
          [EvCall (DSGetParamInfo hJob name) (status, info);
           EvStderr ("Error " +++ string_of_Z status
                     +++ " getting information for parameter '" +++ name
                     +++ "'" +++ nl)]
          (mkWorld e' (stdin w)))
  /\ (forall (opts : list RunOption) (project job : string) (w w' : World)
             (r : Z) (tr : list Event),
         forallb option_ok opts = true -> is_option project = false ->
         jobRun (options_tokens opts ++ [project; job]) w = Returns r tr w' ->
         params_processed (params_of opts) tr
         /\ (existsb is_run tr = true -> all_params_set (params_of opts) tr)
         /\ (forall pre ev post,
                tr = pre ++ ev :: post -> param_failure ev = true ->
                existsb is_job_setup post = false)).
Proof.
  split.
  - intros hJob param name value w status info e' Hsplit Hinfo Hne.
    unfold setParam. rewrite Hsplit.
    unfold bind at 1, call at 1. rewrite Hinfo.
    unfold failed. apply Z.eqb_neq in Hne. rewrite Hne. reflexivity.
  - intros opts project job w w' r tr Hok Hp H.
    rewrite (jobRun_rendered _ _ _ Hok Hp) in H.
    destruct (List.length (params_of opts) <=? MAX_PARAMS)%nat;
      [|discriminate].
    apply jobRun_open_trace in H as (Hproc & Hstop & Hrun).
    rewrite param_fold in Hproc, Hrun. simpl in Hproc, Hrun.
    split; [exact Hproc|split; [exact Hrun|]].
    now apply stops_at_failure_spec.
Qed.

(** ** The limits of a run *)

(** C9, as the code has it.  [-warn n] is accepted whatever the sign of
    the number: [jobRun] goes on to open the project with [n] as warning
    limit.  A negative limit is then not handed to the engine at all (no
    [DSSetJobLimit] call is made, as when the option is absent); a limit
    that is not negative is handed to [DSSetJobLimit] as it is, once the
    job is locked. *)
Theorem warn_limit_forwarded_unless_negative (n project job : string) (v : Z)
  (w w' : World) (r : Z) (tr : list Event) :
  atoi n = Some v -> is_option project = false ->
  jobRun ["-warn"; n; project; job] w = Returns r tr w' ->
  jobRun ["-warn"; n; project; job]
  = jobRun_open project job (mkRunOptions DSJ_RUNNORMAL v 0 [] false)
  /\ (v < 0 -> job_limits tr = [])
  /\ (0 <= v ->
      forall hJob, In (EvCall (DSLockJob hJob) DSJE_NOERROR) tr ->
                   job_limits tr = [(DSJ_LIMITWARN, v)]).
Proof.
  intros Hn Hp H.
  assert (Heq : jobRun ["-warn"; n; project; job]
                = jobRun_open project job
                    (mkRunOptions DSJ_RUNNORMAL v 0 [] false)).
  { unfold jobRun. simpl. rewrite Hn, Hp. reflexivity. }
  split; [exact Heq|].
  rewrite Heq in H. clear Heq.
  unfold jobRun_open, jobRun_locked, open_project_failed, open_job_failed,
    setParam_loop in H.
  run_code H; inversion H; subst; clear H; simpl;
    (split; [intros Hv|intros Hv hJob Hin]);
    try reflexivity;
    repeat match goal with
           | F : (0 <=? v) = true |- _ => apply Z.leb_le in F
           | F : (0 <=? v) = false |- _ => apply Z.leb_gt in F
           end;
    try lia;
    repeat (destruct Hin as [Hin|Hin];
            [apply (f_equal lock_result) in Hin; simpl in Hin;
             try discriminate Hin; inversion Hin; subst|]);
    try contradiction.
  rewrite failed_noerror in Hif. discriminate Hif.
Qed.

(** ** The array of parameters *)

Lemma param_flags_cons (a : string) (argv : list string) :
  param_flags (a :: argv)
  = ((if is_param_flag a then 1 else 0) + param_flags argv)%nat.
Proof. unfold param_flags. simpl. now destruct (is_param_flag a). Qed.

(** No store past the end of [param] while the parameters stored and the
    -param tokens still to read fit in it. *)
Lemma jobRun_options_in_bounds (argv : list string) :
  (forall o, (List.length (param o) + param_flags argv <= MAX_PARAMS)%nat ->
             jobRun_options argv o <> ParseUndefined OutOfBoundsWrite)
  /\ (forall a o,
         (List.length (param o) + param_flags (a :: argv) <= MAX_PARAMS)%nat ->
         jobRun_options (a :: argv) o <> ParseUndefined OutOfBoundsWrite).
Proof.
  induction argv as [|b argv [IH1 IH2]].
  - split; [intros o _; discriminate|].
    intros a o _. simpl.
    destruct (is_option a); [|discriminate].
    destruct (String.eqb (opt_name a) "wait"); discriminate.
  - split; [intros o; apply IH2|].
    intros a o Hlen. rewrite param_flags_cons in Hlen.
    change (jobRun_options (a :: b :: argv) o) with
      (if is_option a then
         if String.eqb (opt_name a) "wait" then
           jobRun_options (b :: argv)
             (mkRunOptions (mode o) (warningLimit o) (rowLimit o) (param o)
                true)
         else if String.eqb (opt_name a) "mode" then
           if String.eqb b "NORMAL" then
             jobRun_options argv
               (mkRunOptions DSJ_RUNNORMAL (warningLimit o) (rowLimit o)
                  (param o) (waitForJob o))
           else if String.eqb b "RESET" then
             jobRun_options argv
               (mkRunOptions DSJ_RUNRESET (warningLimit o) (rowLimit o)
                  (param o) (waitForJob o))
           else if String.eqb b "VALIDATE" then
             jobRun_options argv
               (mkRunOptions DSJ_RUNVALIDATE (warningLimit o) (rowLimit o)
                  (param o) (waitForJob o))
           else BadOptions
         else if String.eqb (opt_name a) "param" then
           match strchr_split "=" b with
           | None => BadOptions
           | Some _ =>
               if (List.length (param o) <? MAX_PARAMS)%nat then
                 jobRun_options argv
                   (mkRunOptions (mode o) (warningLimit o) (rowLimit o)
                      (param o ++ [b]) (waitForJob o))
               else ParseUndefined OutOfBoundsWrite
           end
         else if String.eqb (opt_name a) "warn" then
           match atoi b with
           | Some n =>
               jobRun_options argv
                 (mkRunOptions (mode o) n (rowLimit o) (param o)
                    (waitForJob o))
           | None => ParseUndefined IntegerOverflow
           end
         else if String.eqb (opt_name a) "rows" then
           match atoi b with
           | Some n =>
               jobRun_options argv
                 (mkRunOptions (mode o) (warningLimit o) n (param o)
                    (waitForJob o))
           | None => ParseUndefined IntegerOverflow
           end
         else BadOptions
       else Accepted o (a :: b :: argv)).
    rewrite param_flags_cons in Hlen.
    assert (Hargv : (param_flags argv <= param_flags (b :: argv))%nat)
      by (rewrite param_flags_cons; lia).
    rewrite param_flags_cons in Hargv.
    unfold is_param_flag in Hlen at 1.
    destruct (is_option a); [|discriminate].
    destruct (String.eqb (opt_name a) "wait") eqn:Hwait.
    { apply IH2. simpl. rewrite param_flags_cons. lia. }
    destruct (String.eqb (opt_name a) "mode").
    { repeat match goal with
             | |- context [if ?c then _ else _] => destruct c
             end; try discriminate; apply IH1; simpl; lia. }
    destruct (String.eqb (opt_name a) "param") eqn:Hparam.
    { destruct (strchr_split "=" b); [|discriminate].
      simpl in Hlen.
      destruct (Nat.ltb_spec (List.length (param o)) MAX_PARAMS) as [Hlt|Hge].
      - apply IH1. simpl. rewrite length_app. simpl. lia.
      - lia. }
    destruct (String.eqb (opt_name a) "warn").
    { destruct (atoi b); [|discriminate]. apply IH1. simpl. lia. }
    destruct (String.eqb (opt_name a) "rows").
    { destruct (atoi b); [|discriminate]. apply IH1. simpl. lia. }
    discriminate.
Qed.

(** C10.  [jobRun] stores the -param values in [param[MAX_PARAMS]]
    without checking the index.  An argument list with at most
    [MAX_PARAMS] (10) -param tokens never makes the option loop store
    past the end of the array; a command line whose options hold more
    than [MAX_PARAMS] well-formed -param occurrences does: the loop, and
    with it the handler, runs into the out-of-bounds store. *)
Theorem param_array_overflows_beyond_max_params :
  MAX_PARAMS = 10%nat
  /\ (forall argv : list string,
         (param_flags argv <= MAX_PARAMS)%nat ->
         jobRun_options argv jobRun_defaults
         <> ParseUndefined OutOfBoundsWrite)
  /\ (forall (opts : list RunOption) (rest : list string) (w : World),
         forallb option_ok opts = true ->
         (MAX_PARAMS < List.length (params_of opts))%nat ->
         jobRun_options (options_tokens opts ++ rest) jobRun_defaults
         = ParseUndefined OutOfBoundsWrite
         /\ jobRun (options_tokens opts ++ rest) w
            = Undefined OutOfBoundsWrite).
Proof.
  split; [reflexivity|split].
  - intros argv Hlen. now apply (proj1 (jobRun_options_in_bounds argv)).
  - intros opts rest w Hok Hlen.
    assert (Hparse : jobRun_options (options_tokens opts ++ rest)
                       jobRun_defaults
                     = ParseUndefined OutOfBoundsWrite).
    { rewrite (jobRun_options_rendered opts rest Hok);
        [|simpl; unfold MAX_PARAMS; lia].
      replace (List.length (param jobRun_defaults)
               + List.length (params_of opts))%nat
        with (List.length (params_of opts)) by reflexivity.
      destruct (Nat.leb_spec (List.length (params_of opts)) MAX_PARAMS);
        [lia|reflexivity]. }
    split; [exact Hparse|].
    unfold jobRun. now rewrite Hparse.
Qed.

(** ** The log cursor *)

Lemma append_assoc (a b c : string) : (a +++ b) +++ c = a +++ b +++ c.
Proof. induction a as [|x a IH]; simpl; [reflexivity|now rewrite IH]. Qed.

Lemma append_empty_r (a : string) : a +++ EmptyString = a.
Proof. induction a as [|x a IH]; simpl; [reflexivity|now rewrite IH]. Qed.

Lemma stdout_text_app (t1 t2 : list Event) :
  stdout_text (t1 ++ t2) = stdout_text t1 +++ stdout_text t2.
Proof.
  induction t1 as [|ev t1 IH]; simpl; [reflexivity|].
  destruct ev; try exact IH. now rewrite IH, append_assoc.
Qed.

Lemma stderr_text_app (t1 t2 : list Event) :
  stderr_text (t1 ++ t2) = stderr_text t1 +++ stderr_text t2.
Proof.
  induction t1 as [|ev t1 IH]; simpl; [reflexivity|].
  destruct ev; try exact IH. now rewrite IH, append_assoc.
Qed.

Lemma count_events_app (f : Event -> bool) (t1 t2 : list Event) :
  count_events f (t1 ++ t2) = (count_events f t1 + count_events f t2)%nat.
Proof. unfold count_events. now rewrite filter_app, length_app. Qed.

(** The loop prints the entry it holds and the entries the engine goes on
    to supply, and ends on the first status that is not success. *)
Lemma logsum_loop_runs (hJob : DSJOB) (rest : list DSLOGEVENT) :
  forall (fuel : nat) (event : DSLOGEVENT) (w : World) (fin : Z)
         (last : DSLOGEVENT) (e' : EState),
    find_next_answers hJob (engine w)
      (map (pair DSJE_NOERROR) rest ++ [(fin, last)]) e' ->
    fin <> DSJE_NOERROR -> (List.length rest < fuel)%nat ->
    exists tr,
      logsum_loop fuel hJob DSJE_NOERROR event w
      = Returns fin tr (mkWorld e' (stdin w))
      /\ stdout_text tr = log_lines (event :: rest)
      /\ stderr_text tr = EmptyString
      /\ count_events is_find tr = S (List.length rest).
Proof.
  induction rest as [|next rest IH];
    intros fuel event w fin last e' Hans Hfin Hfuel;
    (destruct fuel as [|fuel]; [simpl in Hfuel; lia|]);
    simpl in Hans; destruct Hans as (e1 & Hnext & Hans);
    simpl logsum_loop; rewrite Z.eqb_refl;
    unfold print_log_event, bind, call, printf; simpl; rewrite Hnext; simpl.
  - subst e'. apply Z.eqb_neq in Hfin.
    destruct fuel; simpl; rewrite Hfin; unfold ret;
      (eexists; split; [reflexivity|]); simpl; unfold log_line;
      rewrite ?append_assoc, ?append_empty_r; auto.
  - destruct (IH fuel next (mkWorld e1 (stdin w)) fin last e' Hans Hfin)
      as (tr & Hloop & Hout & Herr & Hcount); [simpl in Hfuel; lia|].
    rewrite Hloop. simpl.
    eexists; split; [reflexivity|]. simpl.
    rewrite Hout, Herr. unfold count_events in *. simpl. rewrite Hcount.
    unfold log_line. rewrite ?append_assoc. auto.
Qed.

(** The cursor: the entries, then the end of the iteration. *)
Lemma logsum_cursor_runs (hJob : DSJOB) (o : LogSumOptions)
  (entries : list DSLOGEVENT) (fuel : nat) (w : World) (fin : Z)
  (last : DSLOGEVENT) (e' : EState) :
  cursor_answers hJob o (engine w)
    (map (pair DSJE_NOERROR) entries ++ [(fin, last)]) e' ->
  fin <> DSJE_NOERROR -> (List.length entries < fuel)%nat ->
  exists tr,
    logsum_cursor fuel hJob o w
    = Returns (if fin =? DSJE_NOMORE then DSJE_NOERROR else fin) tr
        (mkWorld e' (stdin w))
    /\ stdout_text tr = log_lines entries
    /\ stderr_text tr
       = (if fin =? DSJE_NOMORE then EmptyString
          else "Error " +++ string_of_Z fin +++ " getting log summary"
               +++ nl)
    /\ count_events is_find tr = S (List.length entries).
Proof.
  intros Hans Hfin Hfuel. unfold logsum_cursor.
  destruct entries as [|event rest]; simpl in Hans;
    destruct Hans as (e1 & Hfirst & Hans).
  - simpl in Hans. subst e'.
    unfold bind at 1, call at 1. rewrite Hfirst. simpl.
    pose proof Hfin as Hfin'. apply Z.eqb_neq in Hfin'.
    unfold bind at 1.
    replace (logsum_loop fuel hJob fin last (mkWorld e1 (stdin w)))
      with (Returns fin [] (mkWorld e1 (stdin w)))
      by (destruct fuel; simpl; rewrite Hfin'; reflexivity).
    destruct (fin =? DSJE_NOMORE); unfold bind, eprintf, ret; simpl;
      (eexists; split; [reflexivity|]); simpl;
      rewrite ?append_empty_r; auto.
  - destruct (logsum_loop_runs hJob rest fuel event (mkWorld e1 (stdin w))
                fin last e' Hans Hfin)
      as (tr & Hloop & Hout & Herr & Hcount); [simpl in Hfuel; lia|].
    unfold bind at 1, call at 1. rewrite Hfirst. simpl.
    unfold bind at 1. rewrite Hloop. simpl.
    destruct (fin =? DSJE_NOMORE); unfold bind, eprintf, ret; simpl;
      (eexists; split; [reflexivity|]);
      unfold count_events in *; simpl;
      rewrite ?stdout_text_app, ?stderr_text_app, ?filter_app, ?length_app;
      simpl;
      rewrite ?Hout, ?Herr, ?Hcount, ?append_empty_r, ?Nat.add_0_r; auto.
Qed.

(** C7.  When the engine supplies N log entries and then a status other
    than success, -logsum (given fuel for N + 1 rounds) returns: it has
    asked the engine N + 1 times and written the N summary lines, and
    nothing else, to stdout.  If the final status is "no more" (also
    when it comes at once, N = 0) the result is success and stderr stays
    empty; any other final status is reported on stderr with its number
    and is the result. *)
Theorem logsum_iterates_until_no_more (fuel : nat) (argv : list string)
  (o : LogSumOptions) (project job : string) (w : World)
  (hProject : DSPROJECT) (hJob : DSJOB) (e1 e2 e3 : EState)
  (entries : list DSLOGEVENT) (fin : Z) (last : DSLOGEVENT) :
  jobLogSum_options argv (mkLogSumOptions DSJ_LOGANY 0)
  = Accepted o [project; job] ->
  answer _ (DSOpenProject project) (engine w) = (Some hProject, e1) ->
  answer _ (DSOpenJob hProject job) e1 = (Some hJob, e2) ->
  cursor_answers hJob o e2
    (map (pair DSJE_NOERROR) entries ++ [(fin, last)]) e3 ->
  fin <> DSJE_NOERROR -> (List.length entries < fuel)%nat ->
  exists tr w',
    jobLogSum fuel argv w
    = Returns (if fin =? DSJE_NOMORE then DSJE_NOERROR else fin) tr w'
    /\ stdout_text tr = log_lines entries
    /\ stderr_text tr
       = (if fin =? DSJE_NOMORE then EmptyString
          else "Error " +++ string_of_Z fin +++ " getting log summary"
               +++ nl)
    /\ count_events is_find tr = S (List.length entries).
Proof.
  intros Hparse Hproject Hjob Hans Hfin Hfuel.
  unfold jobLogSum. rewrite Hparse.
  destruct (logsum_cursor_runs hJob o entries fuel (mkWorld e2 (stdin w))
              fin last e3 Hans Hfin Hfuel)
    as (tr & Hcursor & Hout & Herr & Hcount).
  rewrite (bind_call _ _ _ _ _ Hproject).
  rewrite bind_assoc,
    (bind_call (DSOpenJob hProject job) _ (mkWorld e1 (stdin w)) _ _ Hjob).
  rewrite bind_assoc, (bind_step _ _ _ _ _ _ Hcursor).
  unfold bind, call, ret. simpl.
  destruct (answer _ (DSCloseJob hJob) e3) as [s1 e4]. simpl.
  destruct (answer _ (DSCloseProject hProject) e4) as [s2 e5]. simpl.
  eexists. eexists. split; [reflexivity|].
  unfold count_events in *. simpl.
  rewrite ?stdout_text_app, ?stderr_text_app, ?filter_app, ?length_app.
  simpl.
  rewrite ?Hout, ?Herr, ?Hcount, ?append_empty_r, ?Nat.add_0_r. auto.
Qed.

(** ** The dispatcher *)

Lemma print_options_names (fuel : nat) :
  map fst (MajorOption fuel) = map fst (MajorOption 0).
Proof. reflexivity. Qed.

Lemma reportError_usage (fuel : nat) (w : World) :
  exists tr,
    reportError fuel w = Returns DSJE_DSJOB_ERROR tr w
    /\ output_only tr = true
    /\ stdout_text tr = EmptyString
    /\ stderr_text tr = usage_text.
Proof. eexists. split; [reflexivity|]. repeat split. Qed.



Lemma not_a_flag_eqb (a : string) :
  not_a_flag a = true ->
  String.eqb a "-domain" = false /\ String.eqb a "-server" = false
  /\ String.eqb a "-user" = false /\ String.eqb a "-password" = false.
Proof.
  unfold not_a_flag. simpl. intros H. apply negb_true_iff in H.
  repeat (apply orb_false_iff in H; destruct H as [? H]). auto.
Qed.

(** After the connection options, [main] dispatches on the next token. *)
Lemma main_dispatches (fuel : nat) (prog : string) (g : GlobalOptions)
  (a : string) (rest : list string) :
  not_a_flag a = true ->
  main fuel (prog :: global_tokens g ++ a :: rest) = dispatch fuel g a rest.
Proof.
  intros H. apply not_a_flag_eqb in H as (H1 & H2 & H3 & H4).
  destruct g as [[d|] [s|] [u|] [p|]];
    unfold main, dispatch, global_tokens, flag_tokens, global_option;
    cbn [app g_domain g_server g_user g_password String.eqb Ascii.eqb
         Bool.eqb];
    rewrite ?H1, ?H2, ?H3, ?H4; reflexivity.
Qed.



(** A command of the table, after connection options in their order. *)
Lemma main_runs_command (fuel : nat) (prog : string) (g : GlobalOptions)
  (name : string) (optionHandler : list string -> M Z) (rest : list string) :
  In (name, optionHandler) (MajorOption fuel) ->
  main fuel (prog :: global_tokens g ++ ("-" +++ name) :: rest)
  = run_command (g_domain g) (g_user g) (g_password g) (g_server g)
      optionHandler rest.
Proof.
  intros Hin. simpl in Hin.
  repeat (destruct Hin as [Hin|Hin];
          [inversion Hin; subst;
           rewrite main_dispatches by reflexivity; reflexivity|]).
  contradiction.
Qed.


Lemma printStrList_lines (text : list string) (w : World) :
  printStrList 0 text w = Returns tt (message_lines text) w.
Proof.
  induction text as [|s text IH]; [reflexivity|].
  simpl. unfold bind, ret, printf. simpl. now rewrite IH.
Qed.

(** What [main] adds around the handler it runs. *)
Lemma run_command_trace (domain user password server : option string)
  (optionHandler : list string -> M Z) (args : list string) (w w1 : World)
  (e0 e2 : EState) (result : Z) (tr : list Event)
  (errText : option (list string)) :
  answer _ (DSSetServerParams domain user password server) (engine w)
  = (tt, e0) ->
  optionHandler args (mkWorld e0 (stdin w)) = Returns result tr w1 ->
  answer _ DSGetLastErrorMsg (engine w1) = (errText, e2) ->
  run_command domain user password server optionHandler args w
  = Returns result
      (EvCall (DSSetServerParams domain user password server) tt
       :: tr ++ status_report result
       ++ EvCall DSGetLastErrorMsg errText :: message_report errText)
      (mkWorld e2 (stdin w1)).
Proof.
  intros Hset Hrun Hmsg. unfold run_command.
  rewrite (bind_call _ _ _ _ _ Hset), (bind_step _ _ _ _ _ _ Hrun).
  assert (Hreport :
            when (failed result)
              (eprintf (nl +++ "Status code = " +++ string_of_Z result
                        +++ nl)) w1
            = Returns tt (status_report result) w1).
  { unfold status_report, when. now destruct (failed result). }
  rewrite (bind_step _ _ _ _ _ _ Hreport), (bind_call _ _ _ _ _ Hmsg).
  destruct errText as [text|]; simpl.
  - unfold bind, fflush_stdout, eprintf, ret. simpl.
    rewrite printStrList_lines. simpl. now rewrite <- !app_assoc.
  - unfold bind, ret. simpl. reflexivity.
Qed.

(** C4.  For every command of the table, once its handler has returned,
    whatever its result, [main] asks the engine for the last recorded
    error message, and prints the message when there is one; the result
    of [main] is the result of the handler. *)
Theorem main_reports_last_error_message (fuel : nat) (prog : string)
  (g : GlobalOptions) (name : string) (optionHandler : list string -> M Z)
  (rest : list string) (w w1 : World) (e0 e2 : EState) (result : Z)
  (tr : list Event) (errText : option (list string)) :
  In (name, optionHandler) (MajorOption fuel) ->
  answer _ (DSSetServerParams (g_domain g) (g_user g) (g_password g)
              (g_server g)) (engine w) = (tt, e0) ->
  optionHandler rest (mkWorld e0 (stdin w)) = Returns result tr w1 ->
  answer _ DSGetLastErrorMsg (engine w1) = (errText, e2) ->
  main fuel (prog :: global_tokens g ++ ("-" +++ name) :: rest) w
  = Returns result
      (EvCall (DSSetServerParams (g_domain g) (g_user g) (g_password g)
                 (g_server g)) tt
       :: tr ++ status_report result
       ++ EvCall DSGetLastErrorMsg errText :: message_report errText)
      (mkWorld e2 (stdin w1)).
Proof.
  intros Hin Hset Hrun Hmsg.
  rewrite (main_runs_command fuel prog g name optionHandler rest Hin).
  now apply (run_command_trace _ _ _ _ _ _ _ _ e0).
Qed.

(** ** The handles of a handler *)

Lemma lifecycle_app (h : Handles) (t1 t2 : list Event) :
  lifecycle h (t1 ++ t2)
  = match lifecycle h t1 with
    | Some h' => lifecycle h' t2
    | None => None
    end.
Proof.
  revert h. induction t1 as [|ev t1 IH]; intros h; simpl; [reflexivity|].
  destruct ev as [R c r| | |]; try apply IH.
  destruct (lifecycle_call h c r); [apply IH|reflexivity].
Qed.

Lemma lifecycle_output_only (h : Handles) (tr : list Event) :
  output_only tr = true -> lifecycle h tr = Some h.
Proof.
  induction tr as [|ev tr IH]; simpl; [reflexivity|].
  destruct ev; simpl; try discriminate; exact IH.
Qed.

(** Every opening that succeeded is matched by a closing, up to the
    handles held when the trace starts and ends. *)
Lemma lifecycle_counts (tr : list Event) :
  forall h h',
    lifecycle h tr = Some h' ->
    (count_events is_project_opened tr + held (held_project h)
     = count_events is_project_closed tr + held (held_project h'))%nat
    /\ (count_events is_job_opened tr + held (held_job h)
        = count_events is_job_closed tr + held (held_job h'))%nat.
Proof.
  unfold count_events.
  induction tr as [|ev tr IH]; intros h h' H; simpl in H.
  - inversion H; subst. simpl. lia.
  - destruct ev as [R c r| | |]; try (simpl; now apply IH).
    destruct (lifecycle_call h c r) as [h1|] eqn:Hcall; [|discriminate].
    apply IH in H as [Hp Hj].
    destruct c; simpl in Hcall |- *;
      unfold on_job, holds_job, holds_project in Hcall;
      repeat match type of Hcall with
             | context [match ?x with _ => _ end] => destruct x eqn:?
             end;
      try discriminate Hcall; inversion Hcall; subst; simpl in *;
      match goal with
      | F : held_project h = _ |- _ => rewrite F in *
      | _ => idtac
      end;
      match goal with
      | F : held_job h = _ |- _ => rewrite F in *
      | _ => idtac
      end; simpl in *; try lia;
      destruct (held_project h); destruct (held_job h); simpl in *;
      try discriminate; lia.
Qed.

(** *** Printing leaves the engine alone *)

Lemma quiet_ret {X : Type} (x : X) : quiet (ret x).
Proof. intros w. left. now exists x, []. Qed.

Lemma quiet_printf (text : string) : quiet (printf text).
Proof. intros w. left. now exists tt, [EvStdout text]. Qed.

Lemma quiet_eprintf (text : string) : quiet (eprintf text).
Proof. intros w. left. now exists tt, [EvStderr text]. Qed.

Lemma quiet_undefined {X : Type} (u : UB) : quiet (@undefined _ _ X u).
Proof. intros w. right. now exists u. Qed.

Lemma quiet_bind {X Y : Type} (m : M X) (k : X -> M Y) :
  quiet m -> (forall x, quiet (k x)) -> quiet (bind m k).
Proof.
  intros Hm Hk w. unfold bind.
  destruct (Hm w) as [(x & t1 & -> & H1)|(u & ->)]; [|right; now exists u].
  destruct (Hk x w) as [(y & t2 & -> & H2)|(u & ->)]; [|right; now exists u].
  left. exists y, (t1 ++ t2). split; [reflexivity|].
  unfold output_only in *. now rewrite forallb_app, H1, H2.
Qed.

Lemma quiet_when (c : bool) (m : M unit) : quiet m -> quiet (when c m).
Proof. destruct c; simpl; [trivial|intros _; apply quiet_ret]. Qed.

Lemma quiet_switch {X : Type} (x : Z) (cases : list (Z * M X)) (d : M X) :
  Forall (fun c => quiet (snd c)) cases -> quiet d -> quiet (switch x cases d).
Proof.
  induction 1 as [|[l m] cases Hm _ IH]; simpl; intros Hd; [exact Hd|].
  destruct (x =? l); [exact Hm|now apply IH].
Qed.

Ltac quiet_steps :=
  repeat first
    [ apply quiet_ret | apply quiet_printf | apply quiet_eprintf
    | apply quiet_undefined
    | apply quiet_when
    | apply quiet_bind; [|intros ?]
    | match goal with
      | |- quiet (if ?c then _ else _) => destruct c
      | |- quiet (match ?v with pString _ => _ | _ => _ end) => destruct v
      end ].

Lemma quiet_tabs (n : nat) : quiet (tabs n).
Proof. induction n; simpl; quiet_steps. exact IHn. Qed.

Lemma quiet_printStrList (indent : nat) (str : list string) :
  quiet (printStrList indent str).
Proof.
  induction str as [|s str IH]; simpl; quiet_steps;
    [apply quiet_tabs|exact IH].
Qed.

Lemma quiet_printLogDetail (indent : nat) (logDetail : DSLOGDETAIL) :
  quiet (printLogDetail indent logDetail).
Proof. unfold printLogDetail. quiet_steps. apply quiet_printStrList. Qed.

Lemma quiet_printValue (p : DSPARAM) : quiet (printValue p).
Proof.
  unfold printValue. apply quiet_switch; [|apply quiet_ret].
  repeat (apply Forall_cons;
          [simpl; destruct (paramValue p); quiet_steps|]).
  apply Forall_nil.
Qed.

Lemma quiet_print_param_info (paramInfo : DSPARAMINFO) :
  quiet (print_param_info paramInfo).
Proof.
  unfold print_param_info.
  quiet_steps; try apply quiet_printValue; apply quiet_printStrList.
Qed.

(** *** The handlers, one by one *)

(** [run_code], for handlers: the argument vector is split into the
    shapes the handler tells apart and the printing routines are replaced
    by the output they stand for. *)
Ltac run_handler H :=
  unfold open_project_failed, open_job_failed, read_stdin in H;
  unfold bind, call, when, printf, eprintf, fflush_stdout, ret, undefined,
    out_of_fuel in H;
  simpl in H;
  repeat
    (match type of H with
     | context [answer ?R ?c ?e] =>
         let r := fresh "r" in
         let e' := fresh "e" in
         let Hr := fresh "Hans" in
         destruct (answer R c e) as [r e'] eqn:Hr
     | context [match ?x with Some _ => _ | None => _ end] =>
         is_var x; destruct x
     | context [let (_, _) := ?x in _] => is_var x; destruct x
     | context [printStrList ?n ?l ?w] =>
         let Hq := fresh "Hq" in
         let Ho := fresh "Hout" in
         destruct (quiet_printStrList n l w) as [(? & ? & Hq & Ho)|(? & Hq)];
         rewrite Hq in H
     | context [printLogDetail ?n ?l ?w] =>
         let Hq := fresh "Hq" in
         let Ho := fresh "Hout" in
         destruct (quiet_printLogDetail n l w) as [(? & ? & Hq & Ho)|(? & Hq)];
         rewrite Hq in H
     | context [print_param_info ?i ?w] =>
         let Hq := fresh "Hq" in
         let Ho := fresh "Hout" in
         destruct (quiet_print_param_info i w) as [(? & ? & Hq & Ho)|(? & Hq)];
         rewrite Hq in H
     | context [read_message ?i ?n ?m] =>
         destruct (read_message i n m)
     | context [if ?b then _ else _] =>
         let Hb := fresh "Hif" in destruct b eqn:Hb
     end;
     simpl in H);
  try discriminate H;
  inversion H; subst; clear H.

(** The tests on a status, as equations on the status. *)
Ltac status_facts :=
  unfold failed in *;
  repeat match goal with
         | F : negb _ = true |- _ => apply negb_true_iff in F
         | F : negb _ = false |- _ => apply negb_false_iff in F
         end.

Ltac lifecycle_steps :=
  unfold releases_handles; status_facts;
  repeat (unfold holds_project, holds_job, on_job; simpl;
          rewrite ?Z.eqb_refl, ?lifecycle_app;
          repeat match goal with
                 | F : (?s =? ?c) = _ |- context [?s =? ?c] => rewrite F
                 | Ho : output_only ?t = true |- context [lifecycle ?h ?t] =>
                     rewrite (lifecycle_output_only h t Ho)
                 | L : lifecycle ?h ?t = Some _ |- context [lifecycle ?h ?t] =>
                     rewrite L
                 end);
  try reflexivity.

Lemma output_only_no_failure (tr : list Event) (ev : Event) :
  output_only tr = true -> In ev tr -> engine_failure ev = None.
Proof.
  unfold output_only. intros H Hin.
  apply (proj1 (forallb_forall _ _) H) in Hin. now destruct ev.
Qed.

Ltac in_cases Hin :=
  match type of Hin with
  | In _ (_ :: _) => destruct Hin as [Hin|Hin]; [|in_cases Hin]
  | In _ (_ ++ _) =>
      apply in_app_or in Hin; destruct Hin as [Hin|Hin]; in_cases Hin
  | In _ [] => contradiction Hin
  | _ => idtac
  end.

Ltac failure_steps :=
  unfold propagates_failures; status_facts;
  let ev := fresh "ev" in
  let st := fresh "st" in
  let Hin := fresh "Hin" in
  let Hfail := fresh "Hfail" in
  intros ev st Hin Hfail;
  in_cases Hin;
  first
    [ rewrite (output_only_no_failure _ _ ltac:(eassumption) Hin) in Hfail;
      discriminate Hfail
    | subst ev; simpl in Hfail; unfold failure in Hfail; simpl in Hfail;
      repeat match goal with
             | F : (?s =? ?c) = _ |- _ => rewrite F in Hfail
             end;
      rewrite ?orb_true_r, ?orb_false_r in Hfail; simpl in Hfail;
      repeat match type of Hfail with
             | context [if ?b then _ else _] =>
                 let Hb := fresh "Hb" in destruct b eqn:Hb
             end;
      try discriminate Hfail;
      inversion Hfail; subst;
      try reflexivity;
      repeat match goal with
             | F : (?s =? ?c) = true |- _ => apply Z.eqb_eq in F
             end;
      congruence ].

Lemma jobStop_releases (argv : list string) (w w' : World) (r : Z)
  (tr : list Event) :
  jobStop argv w = Returns r tr w' ->
  releases_handles tr /\ propagates_failures r tr.
Proof.
  intros H. unfold jobStop in H.
  destruct argv as [|a1 [|a2 [|a3 argv]]]; run_handler H;
    (split; [lifecycle_steps|failure_steps]).
Qed.

Lemma jobLProjects_releases (argv : list string) (w w' : World) (r : Z)
  (tr : list Event) :
  jobLProjects argv w = Returns r tr w' ->
  releases_handles tr /\ propagates_failures r tr.
Proof.
  intros H. unfold jobLProjects in H.
  destruct argv as [|a1 argv]; run_handler H;
    (split; [lifecycle_steps|failure_steps]).
Qed.

Lemma jobLJobs_releases (argv : list string) (w w' : World) (r : Z)
  (tr : list Event) :
  jobLJobs argv w = Returns r tr w' ->
  releases_handles tr /\ propagates_failures r tr.
Proof.
  intros H. unfold jobLJobs in H.
  destruct argv as [|a1 [|a2 argv]]; run_handler H;
    (split; [lifecycle_steps|failure_steps]).
Qed.

Lemma jobLStages_releases (argv : list string) (w w' : World) (r : Z)
  (tr : list Event) :
  jobLStages argv w = Returns r tr w' ->
  releases_handles tr /\ propagates_failures r tr.
Proof.
  intros H. unfold jobLStages in H.
  destruct argv as [|a1 [|a2 [|a3 argv]]]; run_handler H;
    (split; [lifecycle_steps|failure_steps]).
Qed.

Lemma jobLLinks_releases (argv : list string) (w w' : World) (r : Z)
  (tr : list Event) :
  jobLLinks argv w = Returns r tr w' ->
  releases_handles tr /\ propagates_failures r tr.
Proof.
  intros H. unfold jobLLinks in H.
  destruct argv as [|a1 [|a2 [|a3 [|a4 argv]]]]; run_handler H;
    (split; [lifecycle_steps|failure_steps]).
Qed.

Lemma jobLParams_releases (argv : list string) (w w' : World) (r : Z)
  (tr : list Event) :
  jobLParams argv w = Returns r tr w' ->
  releases_handles tr /\ propagates_failures r tr.
Proof.
  intros H. unfold jobLParams in H.
  destruct argv as [|a1 [|a2 [|a3 argv]]]; run_handler H;
    (split; [lifecycle_steps|failure_steps]).
Qed.

Lemma jobParamInfo_releases (argv : list string) (w w' : World) (r : Z)
  (tr : list Event) :
  jobParamInfo argv w = Returns r tr w' ->
  releases_handles tr /\ propagates_failures r tr.
Proof.
  intros H. unfold jobParamInfo in H.
  destruct argv as [|a1 [|a2 [|a3 [|a4 argv]]]]; run_handler H;
    (split; [lifecycle_steps|failure_steps]).
Qed.

Lemma jobLog_releases (argv : list string) (w w' : World) (r : Z)
  (tr : list Event) :
  jobLog argv w = Returns r tr w' ->
  releases_handles tr /\ propagates_failures r tr.
Proof.
  intros H. unfold jobLog, jobLog_usage in H.
  destruct (jobLog_options argv DSJ_LOGINFO)
    as [type [|a1 [|a2 [|a3 rest]]]| |u];
    run_handler H; (split; [lifecycle_steps|failure_steps]).
Qed.

Lemma jobLogDetail_releases (argv : list string) (w w' : World) (r : Z)
  (tr : list Event) :
  jobLogDetail argv w = Returns r tr w' ->
  releases_handles tr /\ propagates_failures r tr.
Proof.
  intros H. unfold jobLogDetail in H.
  destruct argv as [|a1 [|a2 [|a3 [|a4 argv]]]];
    try destruct (atoi a3);
    run_handler H; (split; [lifecycle_steps|failure_steps]).
Qed.

Lemma jobLogNewest_releases (argv : list string) (w w' : World) (r : Z)
  (tr : list Event) :
  jobLogNewest argv w = Returns r tr w' ->
  releases_handles tr /\ propagates_failures r tr.
Proof.
  intros H. unfold jobLogNewest, jobLogNewest_open, jobLogNewest_usage in H.
  destruct argv as [|a1 [|a2 [|a3 [|a4 argv]]]];
    try destruct (log_type_of_name a3);
    run_handler H; (split; [lifecycle_steps|failure_steps]).
Qed.

(** The three handlers whose queries overwrite the status. *)
Lemma jobJobInfo_releases (argv : list string) (w w' : World) (r : Z)
  (tr : list Event) :
  jobJobInfo argv w = Returns r tr w' -> releases_handles tr.
Proof.
  intros H. unfold jobJobInfo, jobJobInfo_queries in H.
  destruct argv as [|a1 [|a2 [|a3 argv]]]; run_handler H; lifecycle_steps.
Qed.

Lemma jobStageInfo_releases (argv : list string) (w w' : World) (r : Z)
  (tr : list Event) :
  jobStageInfo argv w = Returns r tr w' -> releases_handles tr.
Proof.
  intros H. unfold jobStageInfo, jobStageInfo_queries in H.
  destruct argv as [|a1 [|a2 [|a3 [|a4 argv]]]]; run_handler H;
    lifecycle_steps.
Qed.

Lemma jobLinkInfo_releases (argv : list string) (w w' : World) (r : Z)
  (tr : list Event) :
  jobLinkInfo argv w = Returns r tr w' -> releases_handles tr.
Proof.
  intros H. unfold jobLinkInfo, jobLinkInfo_queries in H.
  destruct argv as [|a1 [|a2 [|a3 [|a4 [|a5 argv]]]]]; run_handler H;
    lifecycle_steps.
Qed.

(** *** -run and -logsum *)

Lemma failure_not_success (soft : list Z) (s x : Z) :
  failure soft s = Some x -> x = s /\ s <> DSJE_NOERROR.
Proof.
  unfold failure. intros H.
  destruct (Z.eqb_spec s DSJE_NOERROR) as [->|Hne]; simpl in H;
    [discriminate|].
  destruct (existsb (Z.eqb s) soft); [discriminate|].
  inversion H; subst. auto.
Qed.

Lemma engine_failure_not_success (ev : Event) (x : Z) :
  engine_failure ev = Some x -> x <> DSJE_NOERROR.
Proof.
  destruct ev as [R c r| | |]; simpl; try discriminate.
  destruct c; try discriminate; intros H;
    apply failure_not_success in H as [-> H]; exact H.
Qed.

Lemma on_job_usable (h : Handles) (hJob : DSJOB) :
  job_usable h hJob -> on_job h hJob = Some h.
Proof. intros [H1 H2]. unfold on_job. now rewrite H1, H2. Qed.

Lemma setParam_usable (hJob : DSJOB) (param : string) (w w' : World)
  (st : Z) (tr : list Event) (h : Handles) :
  setParam hJob param w = Returns st tr w' ->
  job_usable h hJob ->
  lifecycle h tr = Some h /\ propagates_failures st tr.
Proof.
  intros H Hh. pose proof (on_job_usable _ _ Hh) as Hon.
  apply setParam_returns in H
    as (name & value & info & _ & [[Hf ->]|[pd ->]]).
  - split; [simpl; now rewrite Hon|].
    intros ev x [<-|[<-|[]]] Hfail; simpl in Hfail; [|discriminate].
    now apply failure_not_success in Hfail as [-> _].
  - split; [destruct (failed st); simpl; now rewrite !Hon|].
    intros ev x Hin Hfail.
    destruct Hin as [<-|[<-|Hin]]; simpl in Hfail.
    + apply failure_not_success in Hfail as [_ Hne]. now elim Hne.
    + now apply failure_not_success in Hfail as [-> _].
    + destruct (failed st); [destruct Hin as [<-|[]]|destruct Hin];
        discriminate.
Qed.

Lemma setParam_loop_usable (hJob : DSJOB) (params : list string)
  (h : Handles) :
  job_usable h hJob ->
  forall (status : Z) (w w' : World) (st : Z) (tr : list Event),
    setParam_loop hJob status params w = Returns st tr w' ->
    lifecycle h tr = Some h /\ step_ok status st tr.
Proof.
  intros Hh. unfold step_ok.
  induction params as [|p params IH]; intros status w w' st tr H; simpl in H.
  - inversion H; subst. repeat split; auto. intros ev x [].
  - destruct (Z.eqb_spec status DSJE_NOERROR) as [->|Hne].
    + apply bind_returns in H as (st1 & t1 & w1 & t2 & H1 & H2 & ->).
      apply (setParam_usable _ _ _ _ _ _ h) in H1 as [L1 F1]; [|exact Hh].
      apply IH in H2 as (L2 & F2 & S2).
      split; [now rewrite lifecycle_app, L1|].
      split; [|congruence].
      intros ev x Hin Hfail. apply in_app_or in Hin as [Hin|Hin].
      * pose proof (F1 _ _ Hin Hfail) as ->.
        apply engine_failure_not_success in Hfail.
        now destruct (S2 Hfail) as [_ ->].
      * exact (F2 _ _ Hin Hfail).
    + inversion H; subst. repeat split; auto. intros ev x [].
Qed.

Lemma propagates_nothing (s : Z) : propagates_failures s [].
Proof. intros ev x []. Qed.

(** Two steps in a row. *)
Lemma step_ok_app (s0 s1 s2 : Z) (t1 t2 : list Event) :
  step_ok s0 s1 t1 -> step_ok s1 s2 t2 -> step_ok s0 s2 (t1 ++ t2).
Proof.
  intros [F1 S1] [F2 S2]. split.
  - intros ev x Hin Hfail. apply in_app_or in Hin as [Hin|Hin].
    + pose proof (F1 _ _ Hin Hfail) as ->.
      apply engine_failure_not_success in Hfail.
      now destruct (S2 Hfail) as [_ ->].
    + exact (F2 _ _ Hin Hfail).
  - intros Hne. destruct (S1 Hne) as [-> ->].
    destruct (S2 Hne) as [-> ->]. auto.
Qed.

Lemma jobRun_locked_usable (hJob : DSJOB) (o : RunOptions) (w w' : World)
  (r : Z) (tr : list Event) (h : Handles) :
  jobRun_locked hJob o DSJE_NOERROR w = Returns r tr w' ->
  job_usable h hJob -> locked h = true ->
  lifecycle h tr
  = Some (mkHandles (held_project h) (held_job h) false false)
  /\ propagates_failures r tr.
Proof.
  unfold jobRun_locked. intros H Hh Hlocked.
  pose proof (on_job_usable _ _ Hh) as Hon. pose proof Hh as [Hj Hr].
  apply bind_returns in H as (s1 & t1 & w1 & q1 & H1 & H & ->).
  apply bind_returns in H as (s2 & t2 & w2 & q2 & H2 & H & ->).
  apply bind_returns in H as (s3 & t3 & w3 & q3 & H3 & H & ->).
  apply bind_returns in H as (s4 & t4 & w4 & q4 & H4 & H & ->).
  apply bind_returns in H as (s5 & t5 & w5 & t6 & H5 & H6 & ->).
  assert (F1 : lifecycle h t1 = Some h /\ step_ok DSJE_NOERROR s1 t1).
  { unfold step_ok. run_code H1; inversion H1; subst;
      (split; [simpl; now rewrite ?Hon|]);
      (split; [failure_steps|congruence]). }
  assert (F2 : lifecycle h t2 = Some h /\ step_ok s1 s2 t2).
  { unfold step_ok. run_code H2; inversion H2; subst;
      (split; [simpl; now rewrite ?Hon|]);
      (split; [failure_steps|]);
      intros Hne; try (split; reflexivity);
      apply andb_true_iff in Hif as [_ Hif]; apply Z.eqb_eq in Hif;
      now elim Hne. }
  assert (F3 : lifecycle h t3 = Some h /\ step_ok s2 s3 t3)
    by exact (setParam_loop_usable hJob (param o) h Hh _ _ _ _ _ H3).
  assert (F4 : lifecycle h t4 = Some h /\ step_ok s3 s4 t4).
  { unfold step_ok. run_code H4; inversion H4; subst;
      (split; [simpl; now rewrite ?Hon|]);
      (split; [failure_steps|]);
      intros Hne; try (split; reflexivity);
      apply Z.eqb_eq in Hif; now elim Hne. }
  assert (F5 : lifecycle h t5 = Some h /\ step_ok s4 s5 t5).
  { unfold step_ok. run_code H5; inversion H5; subst;
      (split; [simpl; now rewrite ?Hon|]);
      (split; [failure_steps|]);
      intros Hne; try (split; reflexivity);
      apply andb_true_iff in Hif as [Hif _]; apply Z.eqb_eq in Hif;
      now elim Hne. }
  destruct F1 as [L1 S1], F2 as [L2 S2], F3 as [L3 S3], F4 as [L4 S4],
    F5 as [L5 S5].
  pose proof (step_ok_app _ _ _ _ _ S1
                (step_ok_app _ _ _ _ _ S2
                   (step_ok_app _ _ _ _ _ S3
                      (step_ok_app _ _ _ _ _ S4 S5)))) as [F _].
  run_code H6. inversion H6; subst. clear H6.
  split.
  - rewrite lifecycle_app, L1. cbn iota beta.
    rewrite lifecycle_app, L2. cbn iota beta.
    rewrite lifecycle_app, L3. cbn iota beta.
    rewrite lifecycle_app, L4. cbn iota beta.
    rewrite lifecycle_app, L5. simpl.
    now rewrite Hj, Hlocked.
  - intros ev x Hin Hfail.
    rewrite !app_assoc in Hin. apply in_app_or in Hin as [Hin|Hin].
    + rewrite <- !app_assoc in Hin. exact (F _ _ Hin Hfail).
    + destruct Hin as [<-|[]]. discriminate.
Qed.

Lemma jobRun_open_releases (project job : string) (o : RunOptions)
  (w w' : World) (r : Z) (tr : list Event) :
  jobRun_open project job o w = Returns r tr w' ->
  releases_handles tr /\ propagates_failures r tr.
Proof.
  unfold jobRun_open, open_project_failed, open_job_failed. intros H.
  apply bind_returns in H as (hp & t1 & w1 & q1 & H1 & H & ->).
  run_code H1. inversion H1; subst. clear H1.
  destruct hp as [hProject|];
    [|run_handler H; (split; [lifecycle_steps|failure_steps])].
  apply bind_returns in H as (s1 & t2 & w2 & t3 & H2 & H3 & ->).
  run_code H3. inversion H3; subst. clear H3.
  apply bind_returns in H2 as (hj & t4 & w4 & q4 & H4 & H & ->).
  run_code H4. inversion H4; subst. clear H4.
  destruct hj as [hJob|];
    [|run_handler H; (split; [lifecycle_steps|failure_steps])].
  apply bind_returns in H as (s2 & t5 & w5 & t6 & H5 & H6 & ->).
  run_code H6. inversion H6; subst. clear H6.
  apply bind_returns in H5 as (s3 & t7 & w7 & t8 & H7 & H8 & ->).
  run_code H7. inversion H7; subst. clear H7.
  destruct (failed s3) eqn:Hf.
  - run_handler H8. split; [lifecycle_steps|failure_steps].
  - apply failed_false in Hf. subst s3.
    apply (jobRun_locked_usable _ _ _ _ _ _
             (mkHandles (Some hProject) (Some hJob) true false)) in H8
      as [L F];
      [|split; [unfold holds_job; simpl; apply Z.eqb_refl|reflexivity]
       |reflexivity].
    split.
    + simpl in L. lifecycle_steps.
    + intros ev x Hin Hfail. simpl in Hin.
      destruct Hin as [<-|[<-|[<-|Hin]]]; try discriminate Hfail.
      * simpl in Hfail. apply failure_not_success in Hfail as [_ Hne].
        now elim Hne.
      * apply in_app_or in Hin as [Hin|[<-|[]]]; [|discriminate Hfail].
        apply in_app_or in Hin as [Hin|[<-|[]]]; [|discriminate Hfail].
        exact (F _ _ Hin Hfail).
Qed.

Lemma jobRun_releases (argv : list string) (w w' : World) (r : Z)
  (tr : list Event) :
  jobRun argv w = Returns r tr w' ->
  releases_handles tr /\ propagates_failures r tr.
Proof.
  unfold jobRun, jobRun_usage. intros H.
  destruct (jobRun_options argv jobRun_defaults)
    as [o [|project [|job [|a rest]]]| |u];
    try (run_handler H; (split; [lifecycle_steps|failure_steps])).
  now apply jobRun_open_releases in H.
Qed.

(** The loop of -logsum: the status it ends with is the one status that
    is not success, and "no more" is not counted as a failure. *)
Lemma failure_not_soft (c s x : Z) : failure [c] s = Some x -> x <> c.
Proof.
  unfold failure. simpl. intros H.
  destruct (Z.eqb_spec s c) as [->|Hne];
    [now rewrite orb_true_r in H|].
  destruct (s =? DSJE_NOERROR); [discriminate|].
  simpl in H. inversion H; subst. exact Hne.
Qed.

Lemma logsum_loop_usable (hJob : DSJOB) (h : Handles) :
  job_usable h hJob ->
  forall (fuel : nat) (status : Z) (event : DSLOGEVENT) (w w' : World)
         (st : Z) (tr : list Event),
    logsum_loop fuel hJob status event w = Returns st tr w' ->
    lifecycle h tr = Some h
    /\ step_ok status st tr
    /\ (forall ev x, In ev tr -> engine_failure ev = Some x ->
                     x <> DSJE_NOMORE).
Proof.
  intros Hh. pose proof (on_job_usable _ _ Hh) as Hon. unfold step_ok.
  induction fuel as [|fuel IH]; intros status event w w' st tr H;
    simpl in H;
    (destruct (Z.eqb_spec status DSJE_NOERROR) as [->|Hne];
     [|inversion H; subst; repeat split; auto; intros ev x []]).
  - discriminate H.
  - apply bind_returns in H as (u1 & t1 & w1 & q1 & H1 & H & ->).
    assert (Hprint : output_only t1 = true).
    { unfold print_log_event in H1. run_code H1. now inversion H1; subst. }
    apply bind_returns in H as (r1 & t2 & w2 & t3 & H2 & H3 & ->).
    run_code H2. inversion H2; subst. clear H2.
    apply IH in H3 as (L3 & [F3 S3] & N3).
    split; [|split; [split|]].
    + rewrite lifecycle_app, (lifecycle_output_only _ _ Hprint). simpl.
      now rewrite Hon.
    + intros ev x Hin Hfail. apply in_app_or in Hin as [Hin|Hin].
      * now rewrite (output_only_no_failure _ _ Hprint Hin) in Hfail.
      * destruct Hin as [<-|Hin]; [|exact (F3 _ _ Hin Hfail)].
        simpl in Hfail. apply failure_not_success in Hfail as [-> Hne].
        now destruct (S3 Hne) as [_ ->].
    + congruence.
    + intros ev x Hin Hfail. apply in_app_or in Hin as [Hin|Hin].
      * now rewrite (output_only_no_failure _ _ Hprint Hin) in Hfail.
      * destruct Hin as [<-|Hin]; [|exact (N3 _ _ Hin Hfail)].
        simpl in Hfail. now apply failure_not_soft in Hfail.
Qed.

Lemma jobLogSum_releases (fuel : nat) (argv : list string) (w w' : World)
  (r : Z) (tr : list Event) :
  jobLogSum fuel argv w = Returns r tr w' ->
  releases_handles tr /\ propagates_failures r tr.
Proof.
  unfold jobLogSum, jobLogSum_usage, open_project_failed, open_job_failed.
  intros H.
  destruct (jobLogSum_options argv (mkLogSumOptions DSJ_LOGANY 0))
    as [o [|project [|job [|a rest]]]| |u];
    try (run_handler H; (split; [lifecycle_steps|failure_steps])).
  apply bind_returns in H as (hp & t1 & w1 & q1 & H1 & H & ->).
  run_code H1. inversion H1; subst. clear H1.
  destruct hp as [hProject|];
    [|run_handler H; (split; [lifecycle_steps|failure_steps])].
  apply bind_returns in H as (s1 & t2 & w2 & t3 & H2 & H3 & ->).
  run_code H3. inversion H3; subst. clear H3.
  apply bind_returns in H2 as (hj & t4 & w4 & q4 & H4 & H & ->).
  run_code H4. inversion H4; subst. clear H4.
  destruct hj as [hJob|];
    [|run_handler H; (split; [lifecycle_steps|failure_steps])].
  apply bind_returns in H as (s2 & t5 & w5 & t6 & H5 & H6 & ->).
  run_code H6. inversion H6; subst. clear H6.
  unfold logsum_cursor in H5.
  apply bind_returns in H5 as (first & t7 & w7 & q7 & H7 & H & ->).
  run_code H7. inversion H7; subst. clear H7.
  apply bind_returns in H as (st & t8 & w8 & t9 & H8 & H9 & ->).
  assert (Hh : job_usable (mkHandles (Some hProject) (Some hJob) false false)
                 hJob).
  { split; [unfold holds_job; simpl; apply Z.eqb_refl|reflexivity]. }
  apply (logsum_loop_usable _ _ Hh) in H8 as (L8 & [F8 S8] & N8).
  assert (H9' : output_only t9 = true
                /\ r = (if st =? DSJE_NOMORE then DSJE_NOERROR else st)).
  { run_code H9; inversion H9; subst; now split. }
  destruct H9' as [Hout ->].
  assert (Hend : forall x, x <> DSJE_NOMORE -> st = x ->
                           (if st =? DSJE_NOMORE then DSJE_NOERROR else st)
                           = x).
  { intros x Hx ->. apply Z.eqb_neq in Hx. now rewrite Hx. }
  split.
  - simpl in L8. lifecycle_steps.
  - intros ev x Hin Hfail.
    in_cases Hin; try (subst ev; discriminate Hfail).
    + subst ev. simpl in Hfail.
      pose proof (failure_not_soft _ _ _ Hfail) as Hsoft.
      apply failure_not_success in Hfail as [-> Hne].
      destruct (S8 Hne) as [_ ->]. now apply Hend.
    + apply Hend; [exact (N8 _ _ Hin Hfail)|exact (F8 _ _ Hin Hfail)].
    + now rewrite (output_only_no_failure _ _ Hout Hin) in Hfail.
Qed.

(** *** What the rules of [lifecycle] say about a lock *)

Ltac call_cases H :=
  simpl in H;
  repeat match type of H with
         | context [match ?x with _ => _ end] => destruct x eqn:?
         end;
  try discriminate H; inversion H; subst; clear H; simpl.

(** The job of the call is the job held. *)
Ltac same_job :=
  repeat match goal with
         | F : _ && _ = true |- _ => apply andb_true_iff in F as [? ?]
         end;
  match goal with
  | F : (_ =? _) = true |- _ => apply Z.eqb_eq in F; subst; reflexivity
  end.

Lemma step_held (h h' : Handles) (j : DSJOB) {R : Type} (c : DSCall R)
  (r : R) :
  held_job h = Some j -> lifecycle_call h c r = Some h' ->
  held_job h' = Some j
  \/ (held_job h' = None
      /\ exists closed, EvCall c r = EvCall (DSCloseJob j) closed).
Proof.
  intros Hj H. destruct c; simpl in H;
    unfold on_job, holds_job, holds_project in H; rewrite ?Hj in H;
    call_cases H; auto; try congruence.
  right. split; [reflexivity|]. exists r. same_job.
Qed.

Lemma closed_eventually (post : list Event) :
  forall (h hf : Handles) (j : DSJOB),
    held_job h = Some j -> lifecycle h post = Some hf -> held_job hf = None ->
    exists closed, In (EvCall (DSCloseJob j) closed) post.
Proof.
  induction post as [|ev post IH]; intros h hf j Hj H Hf; simpl in H.
  - inversion H; subst. congruence.
  - destruct ev as [R c r| | |];
      try (destruct (IH _ _ _ Hj H Hf) as [x Hx]; exists x; now right).
    destruct (lifecycle_call h c r) as [h'|] eqn:Hc; [|discriminate].
    destruct (step_held _ _ _ _ _ Hj Hc) as [Hj'|[_ [x Hx]]].
    + destruct (IH _ _ _ Hj' H Hf) as [x Hx]. exists x. now right.
    + exists x. left. exact Hx.
Qed.

Lemma step_locked (h h' : Handles) (j : DSJOB) {R : Type} (c : DSCall R)
  (r : R) :
  held_job h = Some j -> locked h = true -> lifecycle_call h c r = Some h' ->
  (held_job h' = Some j /\ locked h' = true
   /\ is_job_closed (EvCall c r) = false)
  \/ (held_job h' = Some j
      /\ exists unlocked, EvCall c r = EvCall (DSUnlockJob j) unlocked).
Proof.
  intros Hj Hl H. destruct c; simpl in H;
    unfold on_job, holds_job, holds_project in H; rewrite ?Hj, ?Hl in H;
    call_cases H; auto; try congruence;
    try (rewrite andb_false_r in *; discriminate).
  right. split; [reflexivity|]. exists r. same_job.
Qed.

Lemma granted_lock_then (post : list Event) :
  forall (h hf : Handles) (j : DSJOB),
    held_job h = Some j -> locked h = true ->
    lifecycle h post = Some hf -> held_job hf = None ->
    exists before unlocked rest closed,
      post = before ++ EvCall (DSUnlockJob j) unlocked :: rest
      /\ forallb (fun ev => negb (is_job_closed ev)) before = true
      /\ In (EvCall (DSCloseJob j) closed) rest.
Proof.
  induction post as [|ev post IH]; intros h hf j Hj Hl H Hf; simpl in H.
  - inversion H; subst. congruence.
  - assert (Hnext : forall h',
               held_job h' = Some j -> locked h' = true ->
               lifecycle h' post = Some hf -> is_job_closed ev = false ->
               exists before unlocked rest closed,
                 ev :: post = before ++ EvCall (DSUnlockJob j) unlocked :: rest
                 /\ forallb (fun ev => negb (is_job_closed ev)) before = true
                 /\ In (EvCall (DSCloseJob j) closed) rest).
    { intros h' Hj' Hl' H' Hev.
      destruct (IH _ _ _ Hj' Hl' H' Hf) as (b & u & rest & x & -> & Hb & Hx).
      exists (ev :: b), u, rest, x. simpl. now rewrite Hev, Hb. }
    destruct ev as [R c r| | |]; try (now apply (Hnext h)).
    destruct (lifecycle_call h c r) as [h'|] eqn:Hc; [|discriminate].
    destruct (step_locked _ _ _ _ _ Hj Hl Hc) as [(Hj' & Hl' & Hev)|[Hj' [u Hu]]].
    + now apply (Hnext h').
    + destruct (closed_eventually _ _ _ _ Hj' H Hf) as [x Hx].
      exists [], u, post, x. rewrite Hu. auto.
Qed.

Lemma step_refused (h h' : Handles) (j : DSJOB) {R : Type} (c : DSCall R)
  (r : R) :
  held_job h = Some j -> locked h = false -> lock_refused h = true ->
  lifecycle_call h c r = Some h' ->
  (held_job h' = Some j /\ locked h' = false /\ lock_refused h' = true
   /\ works_on_job (EvCall c r) = false)
  \/ (exists closed, EvCall c r = EvCall (DSCloseJob j) closed).
Proof.
  intros Hj Hl Hr H. destruct c; simpl in H;
    unfold on_job, holds_job, holds_project in H;
    rewrite ?Hj, ?Hl, ?Hr in H;
    call_cases H; auto; try congruence;
    try (rewrite ?andb_false_r in *; discriminate).
  right. exists r. same_job.
Qed.

Lemma refused_lock_then (post : list Event) :
  forall (h hf : Handles) (j : DSJOB),
    held_job h = Some j -> locked h = false -> lock_refused h = true ->
    lifecycle h post = Some hf -> held_job hf = None ->
    exists before closed rest,
      post = before ++ EvCall (DSCloseJob j) closed :: rest
      /\ forallb (fun ev => negb (works_on_job ev)) before = true.
Proof.
  induction post as [|ev post IH]; intros h hf j Hj Hl Hr H Hf; simpl in H.
  - inversion H; subst. congruence.
  - assert (Hnext : forall h',
               held_job h' = Some j -> locked h' = false ->
               lock_refused h' = true ->
               lifecycle h' post = Some hf -> works_on_job ev = false ->
               exists before closed rest,
                 ev :: post = before ++ EvCall (DSCloseJob j) closed :: rest
                 /\ forallb (fun ev => negb (works_on_job ev)) before = true).
    { intros h' Hj' Hl' Hr' H' Hev.
      destruct (IH _ _ _ Hj' Hl' Hr' H' Hf) as (b & x & rest & -> & Hb).
      exists (ev :: b), x, rest. simpl. now rewrite Hev, Hb. }
    destruct ev as [R c r| | |]; try (now apply (Hnext h)).
    destruct (lifecycle_call h c r) as [h'|] eqn:Hc; [|discriminate].
    destruct (step_refused _ _ _ _ _ Hj Hl Hr Hc)
      as [(Hj' & Hl' & Hr' & Hev)|[x Hx]].
    + now apply (Hnext h').
    + exists [], x, post. rewrite Hx. auto.
Qed.

(** A trace that follows the rules releases every lock it was granted
    and leaves a job alone once a lock on it was refused. *)
Lemma releases_handles_locks (tr : list Event) :
  releases_handles tr ->
  refused_lock_only_closed tr /\ granted_lock_released tr.
Proof.
  unfold releases_handles. intros H. split.
  - intros pre j status post -> Hne.
    rewrite lifecycle_app in H.
    destruct (lifecycle no_handles pre) as [h|]; [|discriminate].
    simpl in H.
    destruct (holds_job h j && negb (locked h) && negb (lock_refused h))
      eqn:Hc; [|discriminate].
    apply Z.eqb_neq in Hne. rewrite Hne in H.
    apply andb_true_iff in Hc as [Hc _]. apply andb_true_iff in Hc as [Hc _].
    unfold holds_job in Hc.
    destruct (held_job h) as [j'|] eqn:Hj; [|discriminate].
    apply Z.eqb_eq in Hc. subst j'.
    now apply (refused_lock_then post _ _ j) in H.
  - intros pre j post ->.
    rewrite lifecycle_app in H.
    destruct (lifecycle no_handles pre) as [h|]; [|discriminate].
    simpl in H.
    destruct (holds_job h j && negb (locked h) && negb (lock_refused h))
      eqn:Hc; [|discriminate].
    rewrite Z.eqb_refl in H.
    apply andb_true_iff in Hc as [Hc _]. apply andb_true_iff in Hc as [Hc _].
    unfold holds_job in Hc.
    destruct (held_job h) as [j'|] eqn:Hj; [|discriminate].
    apply Z.eqb_eq in Hc. subst j'.
    now apply (granted_lock_then post _ _ j) in H.
Qed.

(** *** Every handler of the table *)

Lemma handler_releases (fuel : nat) (name : string)
  (optionHandler : list string -> M Z) (argv : list string) (w w' : World)
  (r : Z) (tr : list Event) :
  In (name, optionHandler) (MajorOption fuel) ->
  optionHandler argv w = Returns r tr w' ->
  releases_handles tr.
Proof.
  intros Hin H. simpl in Hin.
  repeat (destruct Hin as [Hin|Hin]; [inversion Hin; subst; clear Hin|]);
    try contradiction.
  - now apply jobRun_releases in H.
  - now apply jobStop_releases in H.
  - now apply jobLProjects_releases in H.
  - now apply jobLJobs_releases in H.
  - now apply jobLStages_releases in H.
  - now apply jobLLinks_releases in H.
  - now apply jobJobInfo_releases in H.
  - now apply jobStageInfo_releases in H.
  - now apply jobLinkInfo_releases in H.
  - now apply jobLParams_releases in H.
  - now apply jobParamInfo_releases in H.
  - now apply jobLog_releases in H.
  - now apply jobLogSum_releases in H.
  - now apply jobLogDetail_releases in H.
  - now apply jobLogNewest_releases in H.
Qed.

Lemma handler_propagates (fuel : nat) (name : string)
  (optionHandler : list string -> M Z) (argv : list string) (w w' : World)
  (r : Z) (tr : list Event) :
  In (name, optionHandler) (MajorOption fuel) ->
  overwrites_status name = false ->
  optionHandler argv w = Returns r tr w' ->
  propagates_failures r tr.
Proof.
  intros Hin Hname H. simpl in Hin.
  repeat (destruct Hin as [Hin|Hin]; [inversion Hin; subst; clear Hin|]);
    try contradiction; try discriminate Hname.
  - now apply jobRun_releases in H.
  - now apply jobStop_releases in H.
  - now apply jobLProjects_releases in H.
  - now apply jobLJobs_releases in H.
  - now apply jobLStages_releases in H.
  - now apply jobLLinks_releases in H.
  - now apply jobLParams_releases in H.
  - now apply jobParamInfo_releases in H.
  - now apply jobLog_releases in H.
  - now apply jobLogSum_releases in H.
  - now apply jobLogDetail_releases in H.
  - now apply jobLogNewest_releases in H.
Qed.

(** C1.  Whatever the arguments and whatever the engine answers, a
    handler that returns (after a validation failure, an engine error or
    a success alike) has followed the rules of [lifecycle] and holds no
    handle any more: every project and every job it opened was closed
    once, the job before the project, so that the openings that succeeded
    and the closings are equal in number.  A job whose lock was granted
    is unlocked before it is closed; after a lock was refused no call
    works on a job (no unlock, limit, parameter, run or wait) until the
    job is closed. *)
Theorem handlers_release_their_handles (fuel : nat) (name : string)
  (optionHandler : list string -> M Z) (argv : list string) (w w' : World)
  (r : Z) (tr : list Event) :
  In (name, optionHandler) (MajorOption fuel) ->
  optionHandler argv w = Returns r tr w' ->
  releases_handles tr
  /\ count_events is_project_opened tr = count_events is_project_closed tr
  /\ count_events is_job_opened tr = count_events is_job_closed tr
  /\ granted_lock_released tr
  /\ refused_lock_only_closed tr.
Proof.
  intros Hin H.
  pose proof (handler_releases _ _ _ _ _ _ _ _ Hin H) as Hrel.
  destruct (lifecycle_counts _ _ _ Hrel) as [Hp Hj]. simpl in Hp, Hj.
  destruct (releases_handles_locks _ Hrel) as [Hrefused Hgranted].
  repeat split; auto; lia.
Qed.

(** ** Engine failures *)

Lemma run_command_returns (domain user password server : option string)
  (optionHandler : list string -> M Z) (args : list string) (w w' : World)
  (result : Z) (tr : list Event) :
  run_command domain user password server optionHandler args w
  = Returns result tr w' ->
  exists w0 w1 tr0 before after,
    optionHandler args w0 = Returns result tr0 w1
    /\ tr = before ++ tr0 ++ status_report result ++ after
    /\ (forall ev, In ev (before ++ after) -> engine_failure ev = None).
Proof.
  unfold run_command. intros H.
  apply bind_returns in H as (u0 & t0 & w0 & q0 & H0 & H & ->).
  apply bind_returns in H as (res & t1 & w1 & q1 & H1 & H & ->).
  apply bind_returns in H as (u2 & t2 & w2 & q2 & H2 & H & ->).
  apply bind_returns in H as (msg & t3 & w3 & q3 & H3 & H & ->).
  apply bind_returns in H as (u4 & t4 & w4 & t5 & H4 & H5 & ->).
  inversion H5; subst. clear H5.
  assert (E2 : t2 = status_report result).
  { unfold status_report. run_code H2; now inversion H2. }
  assert (E0 : forall ev, In ev t0 -> engine_failure ev = None).
  { run_code H0. inversion H0; subst. intros ev [<-|[]]. reflexivity. }
  assert (E3 : forall ev, In ev t3 -> engine_failure ev = None).
  { run_code H3. inversion H3; subst. intros ev [<-|[]]. reflexivity. }
  assert (E4 : output_only t4 = true).
  { destruct msg as [text|].
    - unfold bind, fflush_stdout, eprintf in H4. simpl in H4.
      rewrite printStrList_lines in H4. simpl in H4. inversion H4; subst.
      unfold output_only. simpl. rewrite forallb_app. simpl.
      rewrite andb_true_r. clear. induction text; simpl; auto.
    - now inversion H4. }
  exists w0, w1, t1, t0, (t3 ++ t4 ++ []). subst t2.
  split; [exact H1|split; [reflexivity|]].
  intros ev Hin. in_cases Hin;
    [now apply E0|now apply E3
    |now apply (output_only_no_failure _ _ E4)].
Qed.

(** The commands other than -jobinfo, -stageinfo and -linkinfo keep the
    failure of an engine call.  A status that an engine call returns,
    other than success, "not available" from a project, job, stage or
    link query and "no more" from the log cursor, and other than the
    status of a close or unlock call, is the result of the command; and
    [main] writes every result that is not success to stderr as
    [Status code = <n>]. *)
Theorem engine_failure_is_the_result (fuel : nat) (name : string)
  (optionHandler : list string -> M Z) (prog : string) (g : GlobalOptions)
  (args : list string) (w w' : World) (r : Z) (tr : list Event) :
  In (name, optionHandler) (MajorOption fuel) ->
  overwrites_status name = false ->
  main fuel (prog :: global_tokens g ++ ("-" +++ name) :: args) w
  = Returns r tr w' ->
  propagates_failures r tr
  /\ (r <> DSJE_NOERROR ->
      In (EvStderr (nl +++ "Status code = " +++ string_of_Z r +++ nl)) tr).
Proof.
  intros Hin Hname H.
  rewrite (main_runs_command fuel prog g name optionHandler args Hin) in H.
  apply run_command_returns in H
    as (w0 & w1 & tr0 & before & after & Hrun & -> & Hquiet).
  pose proof (handler_propagates _ _ _ _ _ _ _ _ Hin Hname Hrun) as Hprop.
  split.
  - intros ev x Hev Hfail.
    assert (Hreport : forall ev', In ev' (status_report r) ->
                                  engine_failure ev' = None).
    { unfold status_report. intros ev' Hin'.
      destruct (failed r); [destruct Hin' as [<-|[]]|destruct Hin'];
        reflexivity. }
    in_cases Hev.
    + rewrite (Hquiet ev) in Hfail; [discriminate|]. apply in_or_app. auto.
    + exact (Hprop _ _ Hev Hfail).
    + rewrite (Hreport _ Hev) in Hfail. discriminate.
    + rewrite (Hquiet ev) in Hfail; [discriminate|]. apply in_or_app. auto.
  - intros Hne. apply in_or_app. right. apply in_or_app. right.
    apply in_or_app. left. unfold status_report, failed.
    apply Z.eqb_neq in Hne. rewrite Hne. now left.
Qed.

(** * More of the code *)

(** ** The printing routines *)

Lemma tabs_prints (n : nat) (w : World) :
  tabs n w = Returns tt (repeat (EvStdout tab) n) w.
Proof.
  induction n as [|n IH]; [reflexivity|].
  simpl. unfold bind, printf. now rewrite IH.
Qed.

Lemma stdout_text_tabs (n : nat) :
  stdout_text (repeat (EvStdout tab) n) = tab_prefix n.
Proof. induction n as [|n IH]; simpl; [reflexivity|now rewrite IH]. Qed.

Lemma stderr_text_tabs (n : nat) :
  stderr_text (repeat (EvStdout tab) n) = EmptyString.
Proof. induction n as [|n IH]; simpl; [reflexivity|exact IH]. Qed.

Lemma output_only_tabs (n : nat) :
  output_only (repeat (EvStdout tab) n) = true.
Proof. induction n as [|n IH]; simpl; [reflexivity|exact IH]. Qed.

Lemma printStrList_prints (indent : nat) (str : list string) (w : World) :
  exists tr,
    printStrList indent str w = Returns tt tr w
    /\ output_only tr = true
    /\ stdout_text tr = indented_lines indent str
    /\ stderr_text tr = EmptyString.
Proof.
  induction str as [|s str (tr & Hrun & Hout & Hstdout & Hstderr)].
  - exists []. now repeat split.
  - simpl. unfold bind, printf. rewrite tabs_prints, Hrun.
    eexists. split; [reflexivity|].
    pose proof (output_only_tabs indent) as Htabs. unfold output_only in *.
    rewrite forallb_app, stdout_text_app, stderr_text_app, stdout_text_tabs,
      stderr_text_tabs. simpl.
    rewrite Hstdout, Hstderr, Hout, Htabs.
    now rewrite !append_assoc.
Qed.

(** [printStrList] writes every string of the list on a line of its own
    on stdout, after [indent] tabs; it writes nothing to stderr and does
    not call the engine. *)
Theorem printStrList_writes_indented_lines (indent : nat) (str : list string)
  (w : World) :
  exists tr,
    printStrList indent str w = Returns tt tr w
    /\ output_only tr = true
    /\ stdout_text tr = indented_lines indent str
    /\ stderr_text tr = EmptyString.
Proof. apply printStrList_prints. Qed.

(** ** Outcomes *)















(** ** printLogDetail *)



(** ** The handlers that always return *)



















(** ** The unchecked [strchr] of setParam *)

Lemma jobRun_options_cons (a : string) (rest : list string) (o : RunOptions) :
  jobRun_options (a :: rest) o
  = if is_option a then
      if String.eqb (opt_name a) "wait" then
        jobRun_options rest
          (mkRunOptions (mode o) (warningLimit o) (rowLimit o) (param o) true)
      else
        match rest with
        | [] => BadOptions
        | arg :: rest' =>
            if String.eqb (opt_name a) "mode" then
              if String.eqb arg "NORMAL" then
                jobRun_options rest'
                  (mkRunOptions DSJ_RUNNORMAL (warningLimit o) (rowLimit o)
                     (param o) (waitForJob o))
              else if String.eqb arg "RESET" then
                jobRun_options rest'
                  (mkRunOptions DSJ_RUNRESET (warningLimit o) (rowLimit o)
                     (param o) (waitForJob o))
              else if String.eqb arg "VALIDATE" then
                jobRun_options rest'
                  (mkRunOptions DSJ_RUNVALIDATE (warningLimit o) (rowLimit o)
                     (param o) (waitForJob o))
              else BadOptions
            else if String.eqb (opt_name a) "param" then
              match strchr_split "=" arg with
              | None => BadOptions
              | Some _ =>
                  if (List.length (param o) <? MAX_PARAMS)%nat then
                    jobRun_options rest'
                      (mkRunOptions (mode o) (warningLimit o) (rowLimit o)
                         (param o ++ [arg]) (waitForJob o))
                  else ParseUndefined OutOfBoundsWrite
              end
            else if String.eqb (opt_name a) "warn" then
              match atoi arg with
              | Some n =>
                  jobRun_options rest'
                    (mkRunOptions (mode o) n (rowLimit o) (param o)
                       (waitForJob o))
              | None => ParseUndefined IntegerOverflow
              end
            else if String.eqb (opt_name a) "rows" then
              match atoi arg with
              | Some n =>
                  jobRun_options rest'
                    (mkRunOptions (mode o) (warningLimit o) n (param o)
                       (waitForJob o))
              | None => ParseUndefined IntegerOverflow
              end
            else BadOptions
        end
    else Accepted o (a :: rest).
Proof. reflexivity. Qed.

(** What the option loop of [jobRun] leaves when it accepts: every
    parameter stored has its [=], the loop has read a prefix of the
    arguments, and the next argument does not look like an option. *)
Lemma jobRun_options_accepted (n : nat) :
  forall argv o o' rest,
    (List.length argv <= n)%nat ->
    jobRun_options argv o = Accepted o' rest ->
    (Forall (fun p => has_equals p = true) (param o) ->
     Forall (fun p => has_equals p = true) (param o'))
    /\ (exists pre, argv = pre ++ rest)
    /\ match rest with a :: _ => is_option a = false | [] => True end.
Proof.
  induction n as [|n IH]; intros argv o o' rest Hlen H.
  - destruct argv; [|simpl in Hlen; lia]. simpl in H. inversion H; subst.
    split; [trivial|split; [now exists []|trivial]].
  - destruct argv as [|a argv].
    { simpl in H. inversion H; subst.
      split; [trivial|split; [now exists []|trivial]]. }
    simpl in Hlen. rewrite jobRun_options_cons in H.
    destruct (is_option a) eqn:Ha.
    2:{ inversion H; subst. split; [trivial|split; [now exists []|exact Ha]]. }
    assert (Hstep : forall argv' o1,
               (List.length argv' <= n)%nat ->
               (exists mid, argv = mid ++ argv') ->
               (Forall (fun p => has_equals p = true) (param o) ->
                Forall (fun p => has_equals p = true) (param o1)) ->
               jobRun_options argv' o1 = Accepted o' rest ->
               (Forall (fun p => has_equals p = true) (param o) ->
                Forall (fun p => has_equals p = true) (param o'))
               /\ (exists pre, a :: argv = pre ++ rest)
               /\ match rest with a :: _ => is_option a = false | [] => True end).
    { intros argv' o1 Hlen' (mid & ->) Hpar H1.
      destruct (IH _ _ _ _ Hlen' H1) as (Hp & (pre & ->) & Hrest).
      split; [auto|split; [|exact Hrest]].
      exists (a :: mid ++ pre). simpl. now rewrite <- app_assoc. }
    destruct (String.eqb (opt_name a) "wait").
    { refine (Hstep argv _ _ _ _ H); [lia|now exists []|exact (fun Hp => Hp)]. }
    destruct argv as [|arg argv]; [discriminate|]. simpl in Hlen.
    assert (Hmid : exists mid, arg :: argv = mid ++ argv) by now exists [arg].
    repeat match type of H with
           | (if ?c then _ else _) = _ => destruct c eqn:?
           | match ?x with Some _ => _ | None => _ end = _ => destruct x eqn:?
           end;
      try discriminate H;
      (refine (Hstep argv _ _ Hmid _ H); [lia|];
       first
         [ exact (fun Hp => Hp)
         | simpl; intros Hpar; apply Forall_app; split; [exact Hpar|];
           constructor; [|constructor]; unfold has_equals;
           match goal with
           | F : strchr_split _ arg = Some _ |- _ => now rewrite F
           end ]).
Qed.



















(** ** Validation of the arguments *)

(** The handlers of the commands with a fixed number of arguments count
    their arguments before anything else: given another number they write
    their one line of usage to stderr and return [DSJE_DSJOB_ERROR]
    without a call to the engine (and, in -logdetail, before the event id
    is converted), and that outcome occurs in no other case. *)
Theorem wrong_argument_count_is_rejected (fuel : nat) (name : string)
  (optionHandler : list string -> M Z) (n : nat) (usage : string)
  (argv : list string) (w : World) :
  In (name, optionHandler) (MajorOption fuel) ->
  In (name, n, usage) fixed_arity ->
  (List.length argv <> n
   <-> optionHandler argv w
       = Returns DSJE_DSJOB_ERROR [EvStderr (usage +++ nl)] w).
Proof.
  intros Hin Hfix. simpl in Hin, Hfix.
  repeat (destruct Hfix as [Hfix|Hfix]; [injection Hfix as <- <- <-|]);
    try contradiction;
    repeat (destruct Hin as [Hin|Hin];
            [try discriminate Hin; injection Hin as <-|]);
    try contradiction;
    destruct argv as [|a1 [|a2 [|a3 [|a4 [|a5 argv]]]]];
    (split; [intros Hlen; first [reflexivity|simpl in Hlen; lia]|]);
    intros H; try (simpl; lia); exfalso;
    unfold jobStop, jobLProjects, jobLJobs, jobLStages, jobLLinks, jobJobInfo,
      jobJobInfo_queries, jobStageInfo, jobStageInfo_queries, jobLinkInfo,
      jobLinkInfo_queries, jobLParams, jobParamInfo, jobLogDetail in H;
    try match type of H with
        | context [atoi ?x] => destruct (atoi x)
        end;
    run_handler H.
Qed.

Lemma jobRun_usage_turned_down (w : World) :
  turned_down run_usage_text jobRun_usage w.
Proof. eexists. split; [reflexivity|]. repeat split. Qed.

Lemma jobRun_bad_options (argv : list string) :
  jobRun_options argv jobRun_defaults = BadOptions ->
  jobRun argv = jobRun_usage.
Proof. unfold jobRun. now intros ->. Qed.

Lemma jobRun_options_tail (opts : list RunOption) (rest : list string) :
  forallb option_ok opts = true ->
  (List.length (params_of opts) <= MAX_PARAMS)%nat ->
  jobRun_options (options_tokens opts ++ rest) jobRun_defaults
  = jobRun_options rest (fold_left apply_option opts jobRun_defaults).
Proof.
  intros Hok Hlen.
  rewrite (jobRun_options_rendered opts rest Hok);
    [|simpl; unfold MAX_PARAMS; lia].
  replace (List.length (param jobRun_defaults)
           + List.length (params_of opts))%nat
    with (List.length (params_of opts)) by reflexivity.
  apply Nat.leb_le in Hlen. now rewrite Hlen.
Qed.

(** [jobRun] turns down a command line that, after options in good
    order, goes on with an option that lacks its value, an option the
    command does not have, a mode other than NORMAL, RESET and VALIDATE,
    a parameter without [=], or other than two arguments for the project
    and the job: it writes the usage of -run to stderr and returns
    [DSJE_DSJOB_ERROR] without a call to the engine. *)
Theorem run_turns_down_malformed_options (opts : list RunOption)
  (w : World) :
  forallb option_ok opts = true ->
  (List.length (params_of opts) <= MAX_PARAMS)%nat ->
  (forall a,
      is_option a = true -> String.eqb (opt_name a) "wait" = false ->
      turned_down run_usage_text (jobRun (options_tokens opts ++ [a])) w)
  /\ (forall a arg rest,
         is_option a = true ->
         existsb (String.eqb (opt_name a)) run_option_names = false ->
         turned_down run_usage_text
           (jobRun (options_tokens opts ++ a :: arg :: rest)) w)
  /\ (forall arg rest,
         existsb (String.eqb arg) (map mode_name [NORMAL; RESET; VALIDATE])
         = false ->
         turned_down run_usage_text
           (jobRun (options_tokens opts ++ "-mode" :: arg :: rest)) w)
  /\ (forall arg rest,
         has_equals arg = false ->
         turned_down run_usage_text
           (jobRun (options_tokens opts ++ "-param" :: arg :: rest)) w)
  /\ (forall rest,
         positional rest = true -> List.length rest <> 2%nat ->
         turned_down run_usage_text (jobRun (options_tokens opts ++ rest)) w).
Proof.
  intros Hok Hlen.
  assert (Hbad : forall rest,
             jobRun_options rest (fold_left apply_option opts jobRun_defaults)
             = BadOptions ->
             turned_down run_usage_text (jobRun (options_tokens opts ++ rest))
               w).
  { intros rest H. rewrite jobRun_bad_options.
    - apply jobRun_usage_turned_down.
    - now rewrite jobRun_options_tail. }
  split; [|split; [|split; [|split]]].
  - intros a Ha Hwait. apply Hbad.
    rewrite jobRun_options_cons, Ha, Hwait. reflexivity.
  - intros a arg rest Ha Hname. apply Hbad.
    simpl in Hname.
    repeat (apply orb_false_iff in Hname; destruct Hname as [?Hn Hname]).
    rewrite jobRun_options_cons, Ha, Hn, Hn0, Hn1, Hn2, Hn3. reflexivity.
  - intros arg rest Hmode. apply Hbad.
    simpl in Hmode.
    repeat (apply orb_false_iff in Hmode; destruct Hmode as [?Hn Hmode]).
    rewrite jobRun_options_cons. simpl. now rewrite Hn, Hn0, Hn1.
  - intros arg rest Harg. apply Hbad.
    rewrite jobRun_options_cons. simpl. unfold has_equals in Harg.
    now destruct (strchr_split "=" arg).
  - intros rest Hpos Hrest. unfold jobRun.
    rewrite (jobRun_options_tail opts rest Hok Hlen).
    destruct rest as [|a rest]; [apply jobRun_usage_turned_down|].
    simpl in Hpos. apply negb_true_iff in Hpos.
    rewrite jobRun_options_cons, Hpos.
    destruct rest as [|b [|c rest]]; try apply jobRun_usage_turned_down.
    now contradiction Hrest.
Qed.

(** ** Failing to open *)

(** The first events of a trace, against the openings a statement names. *)
Ltac opening_steps :=
  let Htr := fresh "Htr" in
  split;
  [ intros ? ? Htr | intros ? ? ? ? ? Htr ];
  simpl in Htr;
  first
    [ discriminate Htr
    | exfalso;
      apply (f_equal (fun t => option_map project_opening (hd_error t)))
        in Htr;
      simpl in Htr; discriminate Htr
    | exfalso;
      apply (f_equal (fun t => option_map job_opening (hd_error (tl t))))
        in Htr;
      simpl in Htr; discriminate Htr
    | apply (f_equal (@tl Event)) in Htr; simpl in Htr;
      match type of Htr with _ = ?rest => subst rest end;
      reflexivity
    | let H1 := fresh "H" in
      let H2 := fresh "H" in
      pose proof
        (f_equal (fun t => option_map project_opening (hd_error t)) Htr)
        as H1;
      pose proof
        (f_equal (fun t => option_map job_opening (hd_error (tl t))) Htr)
        as H2;
      apply (f_equal (fun t => tl (tl t))) in Htr;
      simpl in H1, H2, Htr; inversion H1; inversion H2; subst;
      split; [reflexivity|eexists; reflexivity] ].

(** The shape the handlers of a job share. *)
Lemma opening_failures (project job : string) (body : DSJOB -> M Z)
  (w w' : World) (r : Z) (tr : list Event) :
  (hProject <- call (DSOpenProject project) ;;
   match hProject with
   | None => open_project_failed
   | Some hProject =>
       status <-
         (hJob <- call (DSOpenJob hProject job) ;;
          match hJob with
          | None => open_job_failed
          | Some hJob => body hJob
          end) ;;
       call (DSCloseProject hProject) ;;;
       ret status
   end) w = Returns r tr w' ->
  open_failures false r tr.
Proof.
  unfold open_project_failed, open_job_failed. intros H.
  apply bind_returns in H as (hp & t1 & w1 & t2 & H1 & H2 & ->).
  run_code H1. inversion H1; subst. clear H1.
  destruct hp as [hProject|].
  2:{ run_code H2. inversion H2; subst. opening_steps. }
  apply bind_returns in H2 as (st & t3 & w3 & t4 & H3 & H4 & ->).
  run_code H4. inversion H4; subst. clear H4.
  apply bind_returns in H3 as (hj & t5 & w5 & t6 & H5 & H6 & ->).
  run_code H5. inversion H5; subst. clear H5.
  destruct hj as [hJob|].
  2:{ run_code H6. inversion H6; subst. opening_steps. }
  opening_steps.
Qed.

Ltac opening_cases H :=
  first
    [ now apply opening_failures in H
    | run_code H; inversion H; subst; opening_steps ].

(** When the project does not open, a handler asks [DSGetLastError] and
    returns its answer, whatever it is, after the complaint
    [ERROR: Failed to open project] on stderr (-ljobs alone complains of
    nothing); it makes no other call.  When the project opens and the job
    does not, the handler asks [DSGetLastError], returns its answer after
    the complaint [ERROR: Failed to open job], and closes the project
    (the one it opened) as its last call. *)
Theorem failed_open_gives_last_error (fuel : nat) (name : string)
  (optionHandler : list string -> M Z) (argv : list string) (w w' : World)
  (r : Z) (tr : list Event) :
  In (name, optionHandler) (MajorOption fuel) ->
  optionHandler argv w = Returns r tr w' ->
  open_failures (String.eqb name "ljobs") r tr.
Proof.
  intros Hin H. simpl in Hin.
  repeat (destruct Hin as [Hin|Hin];
          [injection Hin as <- <-|]); try contradiction; simpl.
  - unfold jobRun, jobRun_usage in H.
    destruct (jobRun_options argv jobRun_defaults)
      as [o [|project [|job [|a3 rest]]]| |u]; opening_cases H.
  - unfold jobStop in H.
    destruct argv as [|a1 [|a2 [|a3 argv]]]; opening_cases H.
  - unfold jobLProjects in H.
    destruct argv as [|a1 argv]; run_handler H; opening_steps.
  - unfold jobLJobs in H.
    destruct argv as [|a1 [|a2 argv]]; run_handler H; opening_steps.
  - unfold jobLStages in H.
    destruct argv as [|a1 [|a2 [|a3 argv]]]; opening_cases H.
  - unfold jobLLinks in H.
    destruct argv as [|a1 [|a2 [|a3 [|a4 argv]]]]; opening_cases H.
  - unfold jobJobInfo in H.
    destruct argv as [|a1 [|a2 [|a3 argv]]]; opening_cases H.
  - unfold jobStageInfo in H.
    destruct argv as [|a1 [|a2 [|a3 [|a4 argv]]]]; opening_cases H.
  - unfold jobLinkInfo in H.
    destruct argv as [|a1 [|a2 [|a3 [|a4 [|a5 argv]]]]]; opening_cases H.
  - unfold jobLParams in H.
    destruct argv as [|a1 [|a2 [|a3 argv]]]; opening_cases H.
  - unfold jobParamInfo in H.
    destruct argv as [|a1 [|a2 [|a3 [|a4 argv]]]]; opening_cases H.
  - unfold jobLog, jobLog_usage in H.
    destruct (jobLog_options argv DSJ_LOGINFO)
      as [type [|a1 [|a2 [|a3 rest]]]| |u]; opening_cases H.
  - unfold jobLogSum, jobLogSum_usage in H.
    destruct (jobLogSum_options argv (mkLogSumOptions DSJ_LOGANY 0))
      as [o [|project [|job [|a3 rest]]]| |u]; opening_cases H.
  - unfold jobLogDetail in H.
    destruct argv as [|a1 [|a2 [|a3 [|a4 argv]]]];
      try destruct (atoi a3); opening_cases H.
  - unfold jobLogNewest, jobLogNewest_open, jobLogNewest_usage in H.
    destruct argv as [|a1 [|a2 [|a3 [|a4 argv]]]];
      try destruct (log_type_of_name a3); opening_cases H.
Qed.

(** ** The limits, the mode and the wait of a run *)

(** [-rows n] is a row limit for the engine unless the number is 0: with
    [-rows 0] no limit is set, as when the option is absent; any other
    number, a negative one too, is handed to [DSSetJobLimit] as it is
    once the job is locked. *)
Theorem rows_limit_forwarded_unless_zero (n project job : string) (v : Z)
  (w w' : World) (r : Z) (tr : list Event) :
  atoi n = Some v -> is_option project = false ->
  jobRun ["-rows"; n; project; job] w = Returns r tr w' ->
  (v = 0 -> job_limits tr = [])
  /\ (v <> 0 ->
      forall hJob, In (EvCall (DSLockJob hJob) DSJE_NOERROR) tr ->
                   job_limits tr = [(DSJ_LIMITROWS, v)]).
Proof.
  intros Hn Hp H.
  assert (Heq : jobRun ["-rows"; n; project; job]
                = jobRun_open project job
                    (mkRunOptions DSJ_RUNNORMAL (-1) v [] false)).
  { unfold jobRun. simpl. rewrite Hn, Hp. reflexivity. }
  rewrite Heq in H. clear Heq.
  unfold jobRun_open, jobRun_locked, open_project_failed, open_job_failed,
    setParam_loop in H.
  run_code H; inversion H; subst; clear H; simpl;
    (split; [intros Hv|intros Hv hJob Hin]);
    try reflexivity;
    repeat match goal with
           | F : (v =? 0) = true |- _ => apply Z.eqb_eq in F
           | F : (v =? 0) = false |- _ => apply Z.eqb_neq in F
           end;
    try lia;
    repeat (destruct Hin as [Hin|Hin];
            [apply (f_equal lock_result) in Hin; simpl in Hin;
             try discriminate Hin; inversion Hin; subst|]);
    try contradiction;
    try (rewrite failed_noerror in Hif; discriminate Hif);
    match goal with
    | F : (?x =? ?x) = false |- _ => rewrite Z.eqb_refl in F; discriminate F
    end.
Qed.

Lemma runs_app (t1 t2 : list Event) : runs (t1 ++ t2) = runs t1 ++ runs t2.
Proof.
  induction t1 as [|ev t1 IH]; simpl; [reflexivity|].
  destruct ev as [R c r| | |]; try exact IH.
  destruct c; simpl; now rewrite ?IH.
Qed.

Lemma mode_fold (opts : list RunOption) :
  forall o, mode (fold_left apply_option opts o) = last_mode opts (mode o).
Proof.
  induction opts as [|x opts IH]; intros o; simpl; [reflexivity|].
  rewrite IH. now destruct x.
Qed.

Lemma wait_fold (opts : list RunOption) :
  forall o,
    waitForJob (fold_left apply_option opts o)
    = existsb is_OptWait opts || waitForJob o.
Proof.
  induction opts as [|x opts IH]; intros o; simpl; [reflexivity|].
  rewrite IH. destruct x; simpl; try reflexivity.
  now rewrite orb_true_r.
Qed.

Lemma setParam_loop_no_run (hJob : DSJOB) (params : list string) :
  forall (status : Z) (w w' : World) (st : Z) (tr : list Event),
    setParam_loop hJob status params w = Returns st tr w' ->
    runs tr = [] /\ existsb is_wait tr = false.
Proof.
  induction params as [|p params IH]; intros status w w' st tr H; simpl in H.
  - inversion H; subst. now split.
  - destruct (status =? DSJE_NOERROR).
    + apply bind_returns in H as (st1 & t1 & w1 & t2 & H1 & H2 & ->).
      apply IH in H2 as [Hr Hw].
      apply setParam_returns in H1
        as (name & value & info & _ & [[_ ->]|[pd ->]]);
        rewrite runs_app, existsb_app, Hr, Hw; simpl;
        destruct (failed st1); now split.
    + inversion H; subst. now split.
Qed.

(** The job that [jobRun] has locked is run at most once, in the mode
    of the options, and waited for exactly when -wait was given and the
    run was started. *)
Lemma jobRun_locked_runs (hJob : DSJOB) (o : RunOptions) (w w' : World)
  (r : Z) (tr : list Event) :
  jobRun_locked hJob o DSJE_NOERROR w = Returns r tr w' ->
  (runs tr = [] \/ exists status, runs tr = [(mode o, status)])
  /\ (existsb is_wait tr = true
      <-> waitForJob o = true /\ runs tr = [(mode o, DSJE_NOERROR)]).
Proof.
  unfold jobRun_locked. intros H.
  apply bind_returns in H as (s1 & t1 & w1 & q1 & H1 & H & ->).
  apply bind_returns in H as (s2 & t2 & w2 & q2 & H2 & H & ->).
  apply bind_returns in H as (s3 & t3 & w3 & q3 & H3 & H & ->).
  apply bind_returns in H as (s4 & t4 & w4 & q4 & H4 & H & ->).
  apply bind_returns in H as (s5 & t5 & w5 & t6 & H5 & H6 & ->).
  assert (F1 : runs t1 = [] /\ existsb is_wait t1 = false).
  { run_code H1; inversion H1; subst; now split. }
  assert (F2 : runs t2 = [] /\ existsb is_wait t2 = false).
  { run_code H2; inversion H2; subst; now split. }
  assert (F6 : runs t6 = [] /\ existsb is_wait t6 = false).
  { run_code H6; inversion H6; subst; now split. }
  apply setParam_loop_no_run in H3 as [R3 W3].
  destruct F1 as [R1 W1], F2 as [R2 W2], F6 as [R6 W6].
  rewrite !runs_app, !existsb_app, R1, R2, R3, R6, W1, W2, W3, W6.
  rewrite app_nil_r, orb_false_r. simpl.
  destruct (Z.eqb_spec s3 DSJE_NOERROR) as [->|Hne3].
  - (* the job is run *)
    apply bind_returns in H4 as (st & t7 & w7 & t8 & H7 & H8 & ->).
    run_code H7. inversion H7; subst. clear H7.
    assert (F8 : t8 = (if failed s4
                       then [EvStderr ("Error running job" +++ nl)] else [])
                 /\ st = s4).
    { run_code H8; inversion H8; subst; rewrite Hif; now split. }
    destruct F8 as [-> ->]. clear H8.
    assert (Hrun : runs (EvCall (DSRunJob hJob (mode o)) s4
                         :: (if failed s4
                             then [EvStderr ("Error running job" +++ nl)]
                             else []))
                   = [(mode o, s4)])
      by (simpl; now destruct (failed s4)).
    assert (Hnowait : existsb is_wait
                        (if failed s4
                         then [EvStderr ("Error running job" +++ nl)]
                         else []) = false)
      by now destruct (failed s4).
    change ([EvCall (DSRunJob hJob (mode o)) s4]
            ++ (if failed s4 then [EvStderr ("Error running job" +++ nl)]
                else []))
      with (EvCall (DSRunJob hJob (mode o)) s4
            :: (if failed s4 then [EvStderr ("Error running job" +++ nl)]
                else [])).
    rewrite Hrun. cbn [existsb is_wait]. rewrite Hnowait. simpl.
    destruct (Z.eqb_spec s4 DSJE_NOERROR) as [->|Hne4];
      destruct (waitForJob o); simpl in H5.
    + run_code H5; inversion H5; subst; clear H5; simpl;
        (split; [right; now eexists|]); split; auto.
    + inversion H5; subst. simpl.
      split; [right; now eexists|]. split; [discriminate|].
      intros [Hw _]. discriminate Hw.
    + inversion H5; subst. simpl.
      split; [right; now eexists|]. split; [discriminate|].
      intros [_ Hr]. inversion Hr. contradiction.
    + inversion H5; subst. simpl.
      split; [right; now eexists|]. split; [discriminate|].
      intros [Hw _]. discriminate Hw.
  - inversion H4; subst. clear H4. simpl.
    apply Z.eqb_neq in Hne3. rewrite Hne3 in H5. simpl in H5.
    inversion H5; subst. simpl.
    split; [now left|]. split; [discriminate|].
    intros [_ Hr]. discriminate Hr.
Qed.

Lemma jobRun_open_runs (project job : string) (o : RunOptions) (w w' : World)
  (r : Z) (tr : list Event) :
  jobRun_open project job o w = Returns r tr w' ->
  (runs tr = [] \/ exists status, runs tr = [(mode o, status)])
  /\ (existsb is_wait tr = true
      <-> waitForJob o = true /\ runs tr = [(mode o, DSJE_NOERROR)]).
Proof.
  assert (Hnone : forall tr0,
             runs tr0 = [] -> existsb is_wait tr0 = false ->
             (runs tr0 = [] \/ exists status, runs tr0 = [(mode o, status)])
             /\ (existsb is_wait tr0 = true
                 <-> waitForJob o = true
                     /\ runs tr0 = [(mode o, DSJE_NOERROR)])).
  { intros tr0 -> ->. split; [now left|].
    split; [discriminate|]. intros [_ Hr]. discriminate Hr. }
  unfold jobRun_open. intros H.
  apply bind_returns in H as (hp & t1 & w1 & q1 & H1 & H & ->).
  run_code H1. inversion H1; subst. clear H1.
  destruct hp as [hProject|].
  2:{ run_code H. inversion H; subst. now apply Hnone. }
  apply bind_returns in H as (s1 & t2 & w2 & t3 & H2 & H3 & ->).
  run_code H3. inversion H3; subst. clear H3.
  apply bind_returns in H2 as (hj & t4 & w4 & q4 & H4 & H & ->).
  run_code H4. inversion H4; subst. clear H4.
  destruct hj as [hJob|].
  2:{ run_code H. inversion H; subst. now apply Hnone. }
  apply bind_returns in H as (s2 & t5 & w5 & t6 & H5 & H6 & ->).
  run_code H6. inversion H6; subst. clear H6.
  apply bind_returns in H5 as (s3 & t7 & w7 & t8 & H7 & H8 & ->).
  run_code H7. inversion H7; subst. clear H7.
  destruct (failed s3) eqn:Hf.
  - run_code H8. inversion H8; subst. now apply Hnone.
  - apply failed_false in Hf. subst s3.
    apply jobRun_locked_runs in H8 as [Hruns Hwait].
    simpl. rewrite !runs_app, !existsb_app. simpl.
    rewrite !app_nil_r, !orb_false_r. now split.
Qed.

(** A job is run at most once by -run, in the mode of the last -mode
    option (NORMAL when there is none), and it is waited for exactly when
    -wait was given and [DSRunJob] has succeeded. *)
Theorem run_once_in_the_last_mode (opts : list RunOption)
  (project job : string) (w w' : World) (r : Z) (tr : list Event) :
  forallb option_ok opts = true -> is_option project = false ->
  jobRun (options_tokens opts ++ [project; job]) w = Returns r tr w' ->
  (runs tr = []
   \/ exists status, runs tr = [(last_mode opts DSJ_RUNNORMAL, status)])
  /\ (existsb is_wait tr = true
      <-> existsb is_OptWait opts = true
          /\ runs tr = [(last_mode opts DSJ_RUNNORMAL, DSJE_NOERROR)]).
Proof.
  intros Hok Hp H.
  rewrite (jobRun_rendered _ _ _ Hok Hp) in H.
  destruct (List.length (params_of opts) <=? MAX_PARAMS)%nat;
    [|discriminate].
  apply jobRun_open_runs in H.
  rewrite mode_fold, wait_fold in H. simpl in H.
  now rewrite orb_false_r in H.
Qed.

(** ** The queries of the info commands *)

Lemma job_queries_app (t1 t2 : list Event) :
  job_queries (t1 ++ t2) = job_queries t1 ++ job_queries t2.
Proof.
  induction t1 as [|ev t1 IH]; simpl; [reflexivity|].
  destruct ev as [R c r| | |]; try exact IH.
  destruct c; simpl; now rewrite ?IH.
Qed.

Lemma stage_queries_app (t1 t2 : list Event) :
  stage_queries (t1 ++ t2) = stage_queries t1 ++ stage_queries t2.
Proof.
  induction t1 as [|ev t1 IH]; simpl; [reflexivity|].
  destruct ev as [R c r| | |]; try exact IH.
  destruct c; simpl; now rewrite ?IH.
Qed.

Lemma link_queries_app (t1 t2 : list Event) :
  link_queries (t1 ++ t2) = link_queries t1 ++ link_queries t2.
Proof.
  induction t1 as [|ev t1 IH]; simpl; [reflexivity|].
  destruct ev as [R c r| | |]; try exact IH.
  destruct c; simpl; now rewrite ?IH.
Qed.

Lemma queries_output_only (tr : list Event) :
  output_only tr = true ->
  job_queries tr = [] /\ stage_queries tr = [] /\ link_queries tr = []
  /\ existsb is_job_opened tr = false.
Proof.
  induction tr as [|ev tr IH]; simpl; [auto|].
  destruct ev; simpl; try discriminate; exact IH.
Qed.

Ltac queries_steps :=
  simpl;
  rewrite ?job_queries_app, ?stage_queries_app, ?link_queries_app,
    ?existsb_app;
  simpl;
  repeat match goal with
         | Ho : output_only ?t = true |- _ =>
             let Hj := fresh in
             let Hs := fresh in
             let Hl := fresh in
             let Hop := fresh in
             destruct (queries_output_only t Ho) as (Hj & Hs & Hl & Hop);
             rewrite ?Hj, ?Hs, ?Hl, ?Hop; clear Ho
         end;
  simpl;
  first
    [ left; split; reflexivity
    | right; repeat eexists; unfold not_available_is_success;
      repeat match goal with
             | F : (_ =? _) = _ |- _ => rewrite F
             end;
      reflexivity ].

(** The info commands ask all their questions, whatever the answers:
    -jobinfo makes its five [DSGetJobInfo] queries, -stageinfo its three
    [DSGetStageInfo] queries and -linkinfo its two [DSGetLinkInfo]
    queries, each in the order of the source, once the job is open (and
    none otherwise).  The result of the command is the status of the last
    query alone, "not available" counting as success: the status of an
    earlier query is written to stderr when it is a failure, and lost. *)
Theorem info_commands_ask_every_question (argv : list string) (w w' : World)
  (r : Z) (tr : list Event) :
  (jobJobInfo argv w = Returns r tr w' ->
   (existsb is_job_opened tr = false /\ job_queries tr = [])
   \/ exists s1 s2 s3 s4 s5,
        job_queries tr
        = [(DSJ_JOBSTATUS, s1); (DSJ_JOBCONTROLLER, s2);
           (DSJ_JOBSTARTTIMESTAMP, s3); (DSJ_JOBWAVENO, s4);
           (DSJ_USERSTATUS, s5)]
        /\ r = not_available_is_success s5)
  /\ (jobStageInfo argv w = Returns r tr w' ->
      (existsb is_job_opened tr = false /\ stage_queries tr = [])
      \/ exists s1 s2 s3,
           stage_queries tr
           = [(DSJ_STAGETYPE, s1); (DSJ_STAGEINROWNUM, s2);
              (DSJ_STAGELASTERR, s3)]
           /\ r = not_available_is_success s3)
  /\ (jobLinkInfo argv w = Returns r tr w' ->
      (existsb is_job_opened tr = false /\ link_queries tr = [])
      \/ exists s1 s2,
           link_queries tr
           = [(DSJ_LINKROWCOUNT, s1); (DSJ_LINKLASTERR, s2)]
           /\ r = not_available_is_success s2).
Proof.
  split; [|split]; intros H.
  - unfold jobJobInfo, jobJobInfo_queries in H.
    destruct argv as [|a1 [|a2 [|a3 argv]]]; run_handler H; queries_steps.
  - unfold jobStageInfo, jobStageInfo_queries in H.
    destruct argv as [|a1 [|a2 [|a3 [|a4 argv]]]]; run_handler H;
      queries_steps.
  - unfold jobLinkInfo, jobLinkInfo_queries in H.
    destruct argv as [|a1 [|a2 [|a3 [|a4 [|a5 argv]]]]]; run_handler H;
      queries_steps.
Qed.

(** ** The listings *)

(** What the listing commands print.  -lstages and -lparams, once the
    project and the job are open, ask for the list: "not available" is
    printed as [<none>] and is success; success prints the list, one name
    a line; any other status is written to stderr with its number and is
    the result, and nothing is printed.  -ljobs does the same on the
    project, but is silent about a failure.  -lprojects prints the list
    it gets, and returns the answer of [DSGetLastError] when it gets
    none. *)
Theorem listings_print_one_name_a_line :
  (forall handler kind field what project job (w : World) hProject hJob
          e1 e2 e3 status info,
      In (handler, kind, field, what) job_listings ->
      answer _ (DSOpenProject project) (engine w) = (Some hProject, e1) ->
      answer _ (DSOpenJob hProject job) e1 = (Some hJob, e2) ->
      answer _ (DSGetJobInfo hJob kind) e2 = ((status, info), e3) ->
      exists tr w',
        handler [project; job] w
        = Returns (not_available_is_success status) tr w'
        /\ stdout_text tr
           = (if status =? DSJE_NOT_AVAILABLE then "<none>" +++ nl
              else if failed status then EmptyString
              else indented_lines 0 (field info))
        /\ stderr_text tr
           = (if status =? DSJE_NOT_AVAILABLE then EmptyString
              else if failed status
              then "Error " +++ string_of_Z status +++ " getting " +++ what
                   +++ nl
              else EmptyString))
  /\ (forall project (w : World) hProject e1 e2 status info,
         answer _ (DSOpenProject project) (engine w) = (Some hProject, e1) ->
         answer _ (DSGetProjectInfo hProject DSJ_JOBLIST) e1
         = ((status, info), e2) ->
         exists tr w',
           jobLJobs [project] w
           = Returns (not_available_is_success status) tr w'
           /\ stdout_text tr
              = (if status =? DSJE_NOT_AVAILABLE then "<none>" +++ nl
                 else if failed status then EmptyString
                 else indented_lines 0 (jobList info))
           /\ stderr_text tr = EmptyString)
  /\ (forall (w : World) list e1,
         answer _ DSGetProjectList (engine w) = (list, e1) ->
         exists r tr w',
           jobLProjects [] w = Returns r tr w'
           /\ stderr_text tr = EmptyString
           /\ match list with
              | Some names =>
                  r = DSJE_NOERROR /\ stdout_text tr = indented_lines 0 names
              | None =>
                  stdout_text tr = EmptyString
                  /\ tr = [EvCall DSGetProjectList None;
                           EvCall DSGetLastError r]
              end).
Proof.
  split; [|split].
  - intros handler kind field what project job w hProject hJob e1 e2 e3 status
      info Hin Hproject Hjob Hinfo.
    destruct (answer _ (DSCloseJob hJob) e3) as [s1 e4] eqn:Hclose.
    destruct (answer _ (DSCloseProject hProject) e4) as [s2 e5] eqn:Hclose'.
    destruct (printStrList_prints 0 (field info) (mkWorld e3 (stdin w)))
      as (lines & Hlines & _ & Hout & Herr).
    unfold not_available_is_success.
    destruct Hin as [Hin|[Hin|[]]]; injection Hin as <- <- <- <-;
      unfold jobLStages, jobLParams, bind, call; simpl;
      rewrite Hproject; simpl; rewrite Hjob; simpl; rewrite Hinfo; simpl;
      (destruct (status =? DSJE_NOT_AVAILABLE);
       [|destruct (failed status)]);
      unfold printf, eprintf, ret; simpl; rewrite ?Hlines; simpl;
      rewrite Hclose; simpl; rewrite Hclose'; simpl;
      (eexists; eexists; split; [reflexivity|]); simpl;
      rewrite ?stdout_text_app, ?stderr_text_app, ?Hout, ?Herr; simpl;
      rewrite ?append_empty_r; auto.
  - intros project w hProject e1 e2 status info Hproject Hinfo.
    destruct (answer _ (DSCloseProject hProject) e2) as [s2 e5] eqn:Hclose.
    destruct (printStrList_prints 0 (jobList info) (mkWorld e2 (stdin w)))
      as (lines & Hlines & _ & Hout & Herr).
    unfold not_available_is_success, jobLJobs, bind, call. simpl.
    rewrite Hproject. simpl. rewrite Hinfo. simpl.
    destruct (status =? DSJE_NOT_AVAILABLE);
      [|unfold failed; destruct (status =? DSJE_NOERROR)];
      unfold printf, eprintf, ret; simpl; rewrite ?Hlines; simpl;
      rewrite Hclose; simpl;
      (eexists; eexists; split; [reflexivity|]); simpl;
      rewrite ?stdout_text_app, ?stderr_text_app, ?Hout, ?Herr; simpl;
      rewrite ?append_empty_r; auto.
  - intros w list e1 Hlist.
    unfold jobLProjects, bind, call. rewrite Hlist.
    destruct list as [names|]; simpl.
    + destruct (printStrList_prints 0 names (mkWorld e1 (stdin w)))
        as (lines & Hlines & _ & Hout & Herr).
      rewrite Hlines. unfold ret. simpl.
      eexists _, _, _. split; [reflexivity|]. simpl.
      rewrite ?stdout_text_app, ?stderr_text_app, ?Hout, ?Herr. simpl.
      rewrite ?append_empty_r. auto.
    + destruct (answer _ DSGetLastError e1) as [r e2].
      eexists _, _, _. split; [reflexivity|]. simpl. auto.
Qed.

(** ** Parameter values *)

Lemma param_types_differ (i j : nat) (x y : Z) :
  param_types_distinct A ->
  nth_error (param_types A) i = Some x ->
  nth_error (param_types A) j = Some y ->
  i <> j -> (x =? y) = false.
Proof.
  intros Hnd Hi Hj Hij. apply Z.eqb_neq. intros ->.
  apply Hij. apply (proj1 (NoDup_nth_error _) Hnd).
  - apply nth_error_Some. now rewrite Hi.
  - now rewrite Hi, Hj.
Qed.

Ltac in_cases_solve := simpl; repeat first [left; reflexivity | right].

(** The value [setParam] builds is one [printValue] can read: the member
    of the union that [printValue] takes for the type tag is the member
    that was stored.  What it prints is the text the value was built
    from, unless the declared type is Integer or Float, where it is the
    number [atoi] or [atof] has read. *)
Theorem marshalled_value_prints_back (declared : Z) (value : string)
  (p : DSPARAM) :
  param_types_distinct A ->
  make_param declared value = Some p ->
  exists text,
    printed_value declared value = Some text
    /\ forall w, printValue p w = Returns tt [EvStdout text] w.
Proof.
  intros Hnd Hmk.
  assert (Hnd' := Hnd). unfold param_types_distinct, param_types in Hnd'.
  destruct (in_dec Z.eq_dec declared (param_types A)) as [Hin|Hnot].
  - simpl in Hin.
    repeat (destruct Hin as [<-|Hin]); try contradiction;
      unfold make_param in Hmk;
      (erewrite switch_case in Hmk; [|exact Hnd'|in_cases_solve]);
      try destruct (atoi value) as [n|] eqn:Hn; try discriminate Hmk;
      injection Hmk as <-;
      unfold printed_value; rewrite ?Hn, ?Z.eqb_refl;
      repeat match goal with
             | |- context [?x =? ?y] =>
                 first
                   [ rewrite (param_types_differ 0 2 x y Hnd eq_refl eq_refl)
                       by lia
                   | rewrite (param_types_differ 0 3 x y Hnd eq_refl eq_refl)
                       by lia
                   | rewrite (param_types_differ 1 2 x y Hnd eq_refl eq_refl)
                       by lia
                   | rewrite (param_types_differ 1 3 x y Hnd eq_refl eq_refl)
                       by lia
                   | rewrite (param_types_differ 3 2 x y Hnd eq_refl eq_refl)
                       by lia
                   | rewrite (param_types_differ 4 2 x y Hnd eq_refl eq_refl)
                       by lia
                   | rewrite (param_types_differ 4 3 x y Hnd eq_refl eq_refl)
                       by lia
                   | rewrite (param_types_differ 5 2 x y Hnd eq_refl eq_refl)
                       by lia
                   | rewrite (param_types_differ 5 3 x y Hnd eq_refl eq_refl)
                       by lia
                   | rewrite (param_types_differ 6 2 x y Hnd eq_refl eq_refl)
                       by lia
                   | rewrite (param_types_differ 6 3 x y Hnd eq_refl eq_refl)
                       by lia
                   | rewrite (param_types_differ 7 2 x y Hnd eq_refl eq_refl)
                       by lia
                   | rewrite (param_types_differ 7 3 x y Hnd eq_refl eq_refl)
                       by lia ]
             end;
      (eexists; split; [reflexivity|]); intros w;
      unfold printValue; cbv zeta; cbn [paramType];
      (erewrite switch_case; [|exact Hnd'|in_cases_solve]); reflexivity.
  - unfold make_param in Hmk. rewrite switch_default in Hmk by exact Hnot.
    injection Hmk as <-.
    assert (Hint : (declared =? DSJ_PARAMTYPE_INTEGER) = false).
    { apply Z.eqb_neq. intros ->. apply Hnot. simpl. tauto. }
    assert (Hfloat : (declared =? DSJ_PARAMTYPE_FLOAT) = false).
    { apply Z.eqb_neq. intros ->. apply Hnot. simpl. tauto. }
    unfold printed_value. rewrite Hint, Hfloat.
    eexists; split; [reflexivity|]. intros w.
    unfold printValue. cbv zeta. cbn [paramType switch].
    now rewrite Z.eqb_refl.
Qed.

(** ** The message of -log *)

Lemma read_message_step (input : list ascii) (n : nat) (message : string) :
  read_message input n message
  = if (n <? MAX_MSG_LEN)%nat then
      match input with
      | [] => (message, [])
      | ch :: rest =>
          if WIN32 && Ascii.eqb ch (ascii_of_nat 4) then (message, rest)
          else if Ascii.eqb ch (ascii_of_nat 10) || isprint ch then
            read_message rest (S n) (message +++ String ch EmptyString)
          else read_message rest n message
      end
    else (message, input).
Proof. destruct input; reflexivity. Qed.

Lemma length_snoc (s : string) (c : ascii) :
  String.length (s +++ String c EmptyString) = S (String.length s).
Proof. induction s as [|x s IH]; simpl; [reflexivity|now rewrite IH]. Qed.

Lemma all_chars_snoc (f : ascii -> bool) (s : string) (c : ascii) :
  all_chars f (s +++ String c EmptyString) = all_chars f s && f c.
Proof.
  induction s as [|x s IH]; simpl.
  - now rewrite andb_true_r.
  - now rewrite IH, andb_assoc.
Qed.

(** The loop never holds more than [MAX_MSG_LEN] characters, and only
    characters it keeps. *)
Lemma read_message_bounded (input : list ascii) :
  forall n message message' rest,
    read_message input n message = (message', rest) ->
    String.length message = n -> (n <= MAX_MSG_LEN)%nat ->
    all_chars kept message = true ->
    (String.length message' <= MAX_MSG_LEN)%nat
    /\ all_chars kept message' = true.
Proof.
  induction input as [|ch input IH]; intros n message message' rest H Hn Hle
    Hkept; rewrite read_message_step in H;
    destruct (Nat.ltb_spec n MAX_MSG_LEN) as [Hlt|Hge];
    try (inversion H; subst; split; [lia|assumption]).
  destruct (WIN32 && Ascii.eqb ch (ascii_of_nat 4)).
  { inversion H; subst. split; [lia|assumption]. }
  destruct (Ascii.eqb ch (ascii_of_nat 10) || isprint ch) eqn:Hch.
  - apply IH in H; [exact H|rewrite length_snoc; congruence|lia|].
    rewrite all_chars_snoc, Hkept. exact Hch.
  - now apply IH in H.
Qed.

(** Short of [MAX_MSG_LEN] characters to keep, and of a Ctrl-d where it
    counts, the loop reads all of the input and keeps what [kept]
    says. *)
Lemma read_message_filters (input : list ascii) :
  forall n message,
    existsb ends_message input = false ->
    (n + List.length (filter kept input) < MAX_MSG_LEN)%nat ->
    read_message input n message
    = (message +++ string_of_list_ascii (filter kept input), []).
Proof.
  induction input as [|ch input IH]; intros n message Hend Hlen;
    rewrite read_message_step;
    (destruct (Nat.ltb_spec n MAX_MSG_LEN) as [Hlt|Hge]; [|lia]).
  - simpl. now rewrite append_empty_r.
  - cbn [existsb] in Hend. apply orb_false_iff in Hend as [Hch Hend].
    unfold ends_message in Hch. rewrite Hch.
    change (Ascii.eqb ch (ascii_of_nat 10) || isprint ch) with (kept ch).
    cbn [filter] in Hlen |- *.
    destruct (kept ch).
    + cbn [List.length] in Hlen. rewrite IH by (auto; lia).
      cbn [string_of_list_ascii]. rewrite append_assoc. reflexivity.
    + now apply IH.
Qed.

Lemma jobLog_options_type (argv : list string) :
  forall type type' rest,
    jobLog_options argv type = Accepted type' rest ->
    type' = type \/ type' = DSJ_LOGINFO \/ type' = DSJ_LOGWARNING.
Proof.
  induction argv as [|a argv IH]; intros type type' rest H; simpl in H.
  - inversion H; auto.
  - destruct (is_option a); [|inversion H; auto].
    destruct (String.eqb (opt_name a) "info").
    { apply IH in H. tauto. }
    destruct (String.eqb (opt_name a) "warn"); [|discriminate].
    apply IH in H. tauto.
Qed.

(** -log adds at most one entry to the log, of type INFO or WARNING.
    Its text is what [read_message] keeps of stdin: never more than
    [MAX_MSG_LEN] (4096) characters, so that the text and its final NUL
    fit the array they are stored in, and new lines and printable
    characters only.  When stdin holds less than that to keep (and no
    Ctrl-d under WIN32), all of stdin is read and the text is every
    character of it that is a new line or printable. *)
Theorem logged_message_fits_the_buffer (argv : list string) (w w' : World)
  (r : Z) (tr : list Event) :
  jobLog argv w = Returns r tr w' ->
  (logged tr = []
   \/ exists type,
        logged tr = [(type, fst (read_message (stdin w) 0 EmptyString))]
        /\ (type = DSJ_LOGINFO \/ type = DSJ_LOGWARNING))
  /\ (String.length (fst (read_message (stdin w) 0 EmptyString))
      <= MAX_MSG_LEN)%nat
  /\ all_chars kept (fst (read_message (stdin w) 0 EmptyString)) = true
  /\ (existsb ends_message (stdin w) = false ->
      (List.length (filter kept (stdin w)) < MAX_MSG_LEN)%nat ->
      read_message (stdin w) 0 EmptyString
      = (string_of_list_ascii (filter kept (stdin w)), [])).
Proof.
  intros H.
  destruct (read_message (stdin w) 0 EmptyString) as [message rest] eqn:Hread.
  destruct (read_message_bounded _ _ _ _ _ Hread eq_refl (Nat.le_0_l _)
              eq_refl) as [Hlen Hkept].
  split; [|split; [exact Hlen|split; [exact Hkept|]]].
  - unfold jobLog, jobLog_usage, open_project_failed, open_job_failed,
      read_stdin in H.
    destruct (jobLog_options argv DSJ_LOGINFO)
      as [type [|a1 [|a2 [|a3 more]]]| |u] eqn:Hparse;
      run_code H; try (inversion H; subst; now left).
    rewrite Hread in H. run_code H; inversion H; subst; right; exists type;
      (split; [reflexivity|]);
      apply jobLog_options_type in Hparse; tauto.
  - intros Hend Hshort. rewrite <- Hread.
    now rewrite read_message_filters.
Qed.

(** ** The project and the job on the command line *)

Lemma jobLog_options_accepted (argv : list string) :
  forall type type' rest,
    jobLog_options argv type = Accepted type' rest ->
    (exists pre, argv = pre ++ rest) /\ positional rest = true.
Proof.
  induction argv as [|a argv IH]; intros type type' rest H; simpl in H.
  - inversion H; subst. split; [now exists []|reflexivity].
  - destruct (is_option a) eqn:Ha.
    2:{ inversion H; subst. split; [now exists []|]. simpl. now rewrite Ha. }
    assert (Hstep : forall t, jobLog_options argv t = Accepted type' rest ->
                              (exists pre, a :: argv = pre ++ rest)
                              /\ positional rest = true).
    { intros t Ht. apply IH in Ht as [(pre & ->) Hpos].
      split; [now exists (a :: pre)|exact Hpos]. }
    destruct (String.eqb (opt_name a) "info"); [now apply (Hstep _ H)|].
    destruct (String.eqb (opt_name a) "warn"); [now apply (Hstep _ H)|].
    discriminate.
Qed.

Lemma jobLogSum_options_accepted (n : nat) :
  forall argv o o' rest,
    (List.length argv <= n)%nat ->
    jobLogSum_options argv o = Accepted o' rest ->
    (exists pre, argv = pre ++ rest) /\ positional rest = true.
Proof.
  induction n as [|n IH]; intros argv o o' rest Hlen H.
  - destruct argv; [|simpl in Hlen; lia]. simpl in H. inversion H; subst.
    split; [now exists []|reflexivity].
  - destruct argv as [|a argv].
    { simpl in H. inversion H; subst. split; [now exists []|reflexivity]. }
    simpl in Hlen, H. destruct (is_option a) eqn:Ha.
    2:{ inversion H; subst. split; [now exists []|]. simpl. now rewrite Ha. }
    destruct argv as [|arg argv]; [discriminate|]. simpl in Hlen.
    assert (Hstep : forall o1, jobLogSum_options argv o1 = Accepted o' rest ->
                               (exists pre, a :: arg :: argv = pre ++ rest)
                               /\ positional rest = true).
    { intros o1 H1. apply IH in H1 as [(pre & ->) Hpos]; [|lia].
      split; [now exists (a :: arg :: pre)|exact Hpos]. }
    repeat match type of H with
           | (if ?c then _ else _) = _ => destruct c
           | match ?x with Some _ => _ | None => _ end = _ => destruct x
           end;
      try discriminate H; now apply (Hstep _ H).
Qed.

Lemma jobRun_options_positional_rest (argv : list string) (o o' : RunOptions)
  (rest : list string) :
  jobRun_options argv o = Accepted o' rest ->
  (exists pre, argv = pre ++ rest) /\ positional rest = true.
Proof.
  intros H.
  apply (jobRun_options_accepted _ _ _ _ _ (Nat.le_refl _)) in H
    as (_ & Hpre & Hrest).
  split; [exact Hpre|]. destruct rest; simpl; [reflexivity|].
  now rewrite Hrest.
Qed.

(** The first event of a handler that starts by opening its project. *)
Lemma opens_project_first (project : string)
  (k : option DSPROJECT -> M Z) (w w' : World) (r : Z) (tr : list Event) :
  (hProject <- call (DSOpenProject project) ;; k hProject) w
  = Returns r tr w' ->
  exists h rest, tr = EvCall (DSOpenProject project) h :: rest.
Proof.
  intros H. apply bind_returns in H as (h & t1 & w1 & t2 & H1 & _ & ->).
  run_code H1. inversion H1; subst. now exists h, t2.
Qed.

(** -run, -log and -logsum take the last two arguments for the project
    and the job, after their options: a handler that does not turn the
    arguments down starts by opening the project named by the last
    argument but one, and that name does not start with [-] or [/] (it
    would have been taken for an option). *)
Theorem project_is_the_last_argument_but_one (fuel : nat)
  (optionHandler : list string -> M Z) (argv : list string) (w w' : World)
  (r : Z) (tr : list Event) :
  In optionHandler [jobRun; jobLog; jobLogSum fuel] ->
  optionHandler argv w = Returns r tr w' ->
  (r = DSJE_DSJOB_ERROR /\ output_only tr = true /\ w' = w)
  \/ exists pre project job h rest,
       argv = pre ++ [project; job]
       /\ is_option project = false
       /\ tr = EvCall (DSOpenProject project) h :: rest.
Proof.
  intros Hin H.
  assert (Hopen : forall rest0 project job k,
             (exists pre0, argv = pre0 ++ rest0) ->
             positional rest0 = true -> rest0 = [project; job] ->
             (hProject <- call (DSOpenProject project) ;; k hProject) w
             = Returns r tr w' ->
             exists pre project job h rest,
               argv = pre ++ [project; job]
               /\ is_option project = false
               /\ tr = EvCall (DSOpenProject project) h :: rest).
  { intros rest0 project job k (pre & ->) Hpos -> Hrun.
    apply opens_project_first in Hrun as (h & rest & ->).
    simpl in Hpos. apply negb_true_iff in Hpos.
    now exists pre, project, job, h, rest. }
  destruct Hin as [<-|[<-|[<-|[]]]].
  - unfold jobRun, jobRun_usage in H.
    destruct (jobRun_options argv jobRun_defaults)
      as [o [|project [|job [|a3 more]]]| |u] eqn:Hparse;
      try (run_code H; inversion H; subst; left; now repeat split).
    apply jobRun_options_positional_rest in Hparse as [Hpre Hpos].
    right. exact (Hopen _ _ _ _ Hpre Hpos eq_refl H).
  - unfold jobLog, jobLog_usage in H.
    destruct (jobLog_options argv DSJ_LOGINFO)
      as [type [|project [|job [|a3 more]]]| |u] eqn:Hparse;
      try (run_code H; inversion H; subst; left; now repeat split).
    apply jobLog_options_accepted in Hparse as [Hpre Hpos].
    right. exact (Hopen _ _ _ _ Hpre Hpos eq_refl H).
  - unfold jobLogSum, jobLogSum_usage in H.
    destruct (jobLogSum_options argv (mkLogSumOptions DSJ_LOGANY 0))
      as [o [|project [|job [|a3 more]]]| |u] eqn:Hparse;
      try (run_code H; inversion H; subst; left; now repeat split).
    apply (jobLogSum_options_accepted _ _ _ _ _ (Nat.le_refl _)) in Hparse
      as [Hpre Hpos].
    right. exact (Hopen _ _ _ _ Hpre Hpos eq_refl H).
Qed.

(** ** -lognewest *)

(** -lognewest takes a project, a job and, if a third argument is given,
    the name of an event type: anything else is turned down.  Once the
    job is open it asks for the newest event id of that type (of any type
    without a third argument): an id that is not negative is printed and
    the result is success; a negative id makes it ask [DSGetLastError],
    whose answer is reported on stderr and is the result. *)
Theorem lognewest_reports_the_newest_id :
  (forall argv w,
      (List.length argv < 2)%nat \/ (3 < List.length argv)%nat ->
      turned_down lognewest_usage_text (jobLogNewest argv) w)
  /\ (forall project job name w,
         log_type_of_name name = None ->
         turned_down lognewest_usage_text (jobLogNewest [project; job; name])
           w)
  /\ (forall argv project job type (w : World) hProject hJob e1 e2 e3 id,
         (argv = [project; job] /\ type = DSJ_LOGANY)
         \/ (exists name,
               argv = [project; job; name]
               /\ log_type_of_name name = Some type) ->
         answer _ (DSOpenProject project) (engine w) = (Some hProject, e1) ->
         answer _ (DSOpenJob hProject job) e1 = (Some hJob, e2) ->
         answer _ (DSGetNewestLogId hJob type) e2 = (id, e3) ->
         exists r tr w',
           jobLogNewest argv w = Returns r tr w'
           /\ (0 <= id ->
               r = DSJE_NOERROR
               /\ stdout_text tr
                  = "Newsest id = " +++ string_of_Z id +++ nl
               /\ stderr_text tr = EmptyString)
           /\ (id < 0 ->
               (exists e4, answer _ DSGetLastError e3 = (r, e4))
               /\ stdout_text tr = EmptyString
               /\ stderr_text tr
                  = "Error " +++ string_of_Z r +++ " getting event details"
                    +++ nl)).
Proof.
  split; [|split].
  - intros argv w Hlen.
    destruct argv as [|a1 [|a2 [|a3 [|a4 argv]]]]; simpl in Hlen;
      try lia; (eexists; split; [reflexivity|]); now repeat split.
  - intros project job name w Hname. unfold jobLogNewest. rewrite Hname.
    eexists; split; [reflexivity|]. now repeat split.
  - intros argv project job type w hProject hJob e1 e2 e3 id Hargv Hproject
      Hjob Hid.
    assert (Heq : jobLogNewest argv = jobLogNewest_open project job type).
    { destruct Hargv as [[-> ->]|(name & -> & Hname)]; [reflexivity|].
      unfold jobLogNewest. now rewrite Hname. }
    rewrite Heq. unfold jobLogNewest_open, bind, call. simpl.
    rewrite Hproject. simpl. rewrite Hjob. simpl. rewrite Hid. simpl.
    destruct (answer _ DSGetLastError e3) as [r e4] eqn:Hlast.
    destruct (Z.ltb_spec id 0) as [Hneg|Hpos];
      unfold printf, eprintf, ret; simpl; rewrite ?Hlast; simpl.
    + destruct (answer _ (DSCloseJob hJob) e4) as [s1 e5]. simpl.
      destruct (answer _ (DSCloseProject hProject) e5) as [s2 e6]. simpl.
      eexists _, _, _. split; [reflexivity|]. split; [lia|].
      intros _. split; [now exists e4|]. simpl.
      rewrite ?append_empty_r. auto.
    + destruct (answer _ (DSCloseJob hJob) e3) as [s1 e5]. simpl.
      destruct (answer _ (DSCloseProject hProject) e5) as [s2 e6]. simpl.
      eexists _, _, _. split; [reflexivity|]. split; [|lia].
      intros _. simpl. rewrite ?append_empty_r. auto.
Qed.

(** ** The names of the event types *)

(** The names of event types that -logsum and -lognewest read are the
    names that -logsum, -logdetail, -stageinfo and -linkinfo print: a name
    that is read is printed back as it is, and every type with a name is
    read back from it.  A type without a name is printed as [????], which
    is not read as a name. *)
Theorem log_type_names_round_trip :
  log_types_distinct ->
  (forall name type,
      log_type_of_name name = Some type -> log_type_label type = name)
  /\ (forall type,
         In type log_types ->
         log_type_of_name (log_type_label type) = Some type)
  /\ (forall type,
         ~ In type log_types ->
         log_type_label type = "????"
         /\ log_type_of_name (log_type_label type) = None).
Proof.
  intros Hnd. unfold log_types_distinct, log_types in Hnd.
  split; [|split].
  - intros name type H. unfold log_type_of_name in H.
    repeat match type of H with
           | (if String.eqb name ?s then _ else _) = _ =>
               let Hs := fresh "Hs" in
               destruct (String.eqb_spec name s) as [Hs|Hs];
               [ injection H as <-; subst name; unfold log_type_label;
                 apply switch_case; [exact Hnd|in_cases_solve] | ]
           end.
    discriminate H.
  - intros type Hin. simpl in Hin.
    repeat (destruct Hin as [<-|Hin]); try contradiction;
      unfold log_type_label;
      (erewrite switch_case; [|exact Hnd|in_cases_solve]); reflexivity.
  - intros type Hnot. unfold log_type_label.
    rewrite switch_default by exact Hnot. now split.
Qed.

(** ** A whole run of dsjob *)

Lemma find_option_In (name : string)
  (table : list (string * (list string -> M Z)))
  (optionHandler : list string -> M Z) :
  find_option name table = Some optionHandler ->
  In (name, optionHandler) table.
Proof.
  induction table as [|[n h] table IH]; simpl; [discriminate|].
  destruct (String.eqb_spec name n) as [->|_].
  - intros H. injection H as <-. now left.
  - intros H. right. now apply IH.
Qed.

(** The three ways of [main]. *)
Lemma main_cases (fuel : nat) (argv : list string) :
  main fuel argv = reportError fuel
  \/ main fuel argv
     = (eprintf ("Invalid/unknown primary command switch." +++ nl) ;;;
        reportError fuel)
  \/ exists name optionHandler domain user password server rest,
       In (name, optionHandler) (MajorOption fuel)
       /\ main fuel argv
          = run_command domain user password server optionHandler rest.
Proof.
  unfold main. destruct argv as [|prog [|a rest]]; auto.
  unfold global_option.
  repeat match goal with
         | |- context [if String.eqb ?x ?f then _ else _] =>
             destruct (String.eqb x f)
         | |- context [match ?r with [] => _ | _ :: _ => _ end] =>
             is_var r; destruct r
         end; auto;
    match goal with
    | |- context [is_command_switch ?x] => destruct (is_command_switch x)
    end; auto;
    match goal with
    | |- context [find_option ?n ?t] =>
        destruct (find_option n t) as [h|] eqn:Hfind
    end; auto;
    apply find_option_In in Hfind; right; right;
    eexists _, _, _, _, _, _, _; (split; [exact Hfind|reflexivity]).
Qed.

Lemma message_report_output_only (errText : option (list string)) :
  output_only (message_report errText) = true.
Proof.
  destruct errText as [text|]; [|reflexivity]. unfold message_report.
  unfold output_only. simpl. rewrite forallb_app. simpl.
  rewrite andb_true_r. induction text; simpl; auto.
Qed.

Lemma status_report_output_only (result : Z) :
  output_only (status_report result) = true.
Proof. unfold status_report. now destruct (failed result). Qed.

(** What [run_command] has done when it returns. *)
Lemma run_command_shape (domain user password server : option string)
  (optionHandler : list string -> M Z) (args : list string) (w w' : World)
  (result : Z) (tr : list Event) :
  run_command domain user password server optionHandler args w
  = Returns result tr w' ->
  exists w0 w1 tr0 errText,
    optionHandler args w0 = Returns result tr0 w1
    /\ tr = EvCall (DSSetServerParams domain user password server) tt
            :: tr0 ++ status_report result
            ++ EvCall DSGetLastErrorMsg errText :: message_report errText.
Proof.
  intros H.
  destruct (answer _ (DSSetServerParams domain user password server)
              (engine w)) as [[] e0] eqn:Hset.
  destruct (optionHandler args (mkWorld e0 (stdin w)))
    as [result' tr0 w1|u|] eqn:Hrun.
  - destruct (answer _ DSGetLastErrorMsg (engine w1)) as [errText e2] eqn:Hmsg.
    rewrite (run_command_trace _ _ _ _ _ _ _ _ _ _ _ _ _ Hset Hrun Hmsg) in H.
    inversion H; subst. now exists (mkWorld e0 (stdin w)), w1, tr0, errText.
  - unfold run_command in H. rewrite (bind_call _ _ _ _ _ Hset) in H.
    unfold bind in H. rewrite Hrun in H. discriminate.
  - unfold run_command in H. rewrite (bind_call _ _ _ _ _ Hset) in H.
    unfold bind in H. rewrite Hrun in H. discriminate.
Qed.

(** A run of dsjob that comes to an end either has turned the command
    line down ([DSJE_DSJOB_ERROR] after output only, the engine not
    called), or has handed the connection values to the engine first,
    run one handler of the table, and asked for the last error message
    last.  Either way every project and every job that was opened has
    been closed: the process ends holding no handle. *)
Theorem main_leaves_nothing_open (fuel : nat) (argv : list string)
  (w w' : World) (r : Z) (tr : list Event) :
  main fuel argv w = Returns r tr w' ->
  releases_handles tr
  /\ count_events is_project_opened tr = count_events is_project_closed tr
  /\ count_events is_job_opened tr = count_events is_job_closed tr
  /\ ((r = DSJE_DSJOB_ERROR /\ output_only tr = true /\ w' = w)
      \/ exists name optionHandler args w0 w1 tr0 domain user password server
                errText,
           In (name, optionHandler) (MajorOption fuel)
           /\ optionHandler args w0 = Returns r tr0 w1
           /\ tr = EvCall (DSSetServerParams domain user password server) tt
                   :: tr0 ++ status_report r
                   ++ EvCall DSGetLastErrorMsg errText
                   :: message_report errText).
Proof.
  intros H.
  assert (Hshape :
            (r = DSJE_DSJOB_ERROR /\ output_only tr = true /\ w' = w)
            \/ exists name optionHandler args w0 w1 tr0 domain user password
                      server errText,
                 In (name, optionHandler) (MajorOption fuel)
                 /\ optionHandler args w0 = Returns r tr0 w1
                 /\ tr = EvCall (DSSetServerParams domain user password
                                   server) tt
                         :: tr0 ++ status_report r
                         ++ EvCall DSGetLastErrorMsg errText
                         :: message_report errText).
  { destruct (main_cases fuel argv)
      as [Hm|[Hm|(name & h & d & u & p & s & rest & Hin & Hm)]];
      rewrite Hm in H.
    - left. destruct (reportError_usage fuel w) as (tr' & Hr & Ho & _).
      rewrite Hr in H. inversion H; subst. auto.
    - left. inversion H; subst. now repeat split.
    - right. apply run_command_shape in H as (w0 & w1 & tr0 & errText & Hrun & ->).
      now exists name, h, rest, w0, w1, tr0, d, u, p, s, errText. }
  assert (Hrel : releases_handles tr).
  { destruct Hshape as [(_ & Ho & _)|Hrun].
    - now apply lifecycle_output_only.
    - destruct Hrun as (name & h & args & w0 & w1 & tr0 & d & u & p & s
                        & errText & Hin & Hrun & ->).
      pose proof (handler_releases _ _ _ _ _ _ _ _ Hin Hrun) as Hh.
      unfold releases_handles in *. simpl.
      rewrite lifecycle_app, Hh, lifecycle_app,
        (lifecycle_output_only _ _ (status_report_output_only r)).
      simpl. apply lifecycle_output_only, message_report_output_only. }
  destruct (lifecycle_counts _ _ _ Hrel) as [Hp Hj]. simpl in Hp, Hj.
  repeat split; auto; lia.
Qed.

(** ** The name and the value of a parameter *)

Lemma strchr_split_spec (c : ascii) (s name value : string) :
  strchr_split c s = Some (name, value) ->
  s = name +++ String c value /\ strchr_split c name = None.
Proof.
  revert name value. induction s as [|a s IH]; intros name value H; simpl in H.
  - discriminate.
  - destruct (Ascii.eqb_spec a c) as [->|Hne].
    + injection H as <- <-. now split.
    + destruct (strchr_split c s) as [[n v]|]; [|discriminate].
      injection H as <- <-. destruct (IH n v eq_refl) as [-> Hn].
      split; [reflexivity|]. simpl.
      destruct (Ascii.eqb_spec a c) as [Heq|_]; [contradiction|].
      now rewrite Hn.
Qed.

Lemma strchr_split_join (c : ascii) (name value : string) :
  strchr_split c name = None ->
  strchr_split c (name +++ String c value) = Some (name, value).
Proof.
  induction name as [|a name IH]; simpl; intros H.
  - now rewrite Ascii.eqb_refl.
  - destruct (Ascii.eqb a c); [discriminate|].
    destruct (strchr_split c name) as [[n v]|]; [discriminate|].
    now rewrite IH.
Qed.

(** [setParam] cuts its argument at the first [=]: the name of the
    parameter is the text before it and the value all the text after it,
    further [=] included; either may be empty.  For a parameter that the
    engine declares a string, that name is asked for and set, to that
    value. *)
Theorem setParam_cuts_at_the_first_equals :
  (forall s name value,
      strchr_split "=" s = Some (name, value)
      <-> s = name +++ "=" +++ value /\ has_equals name = false)
  /\ (forall hJob name value (w : World) info e1,
         has_equals name = false ->
         answer _ (DSGetParamInfo hJob name) (engine w)
         = ((DSJE_NOERROR, info), e1) ->
         pi_paramType info = DSJ_PARAMTYPE_STRING ->
         exists status e2,
           answer _ (DSSetParam hJob name
                       (mkDSPARAM DSJ_PARAMTYPE_STRING (pString value))) e1
           = (status, e2)
           /\ setParam hJob (name +++ "=" +++ value) w
              = Returns status
                  (EvCall (DSGetParamInfo hJob name) (DSJE_NOERROR, info)
                   :: EvCall (DSSetParam hJob name
                                (mkDSPARAM DSJ_PARAMTYPE_STRING
                                   (pString value))) status
                   :: (if failed status
                       then [EvStderr ("Error setting value of parameter '"
                                       +++ name +++ "'" +++ nl)]
                       else []))
                  (mkWorld e2 (stdin w))).
Proof.
  assert (Hnone : forall name,
             has_equals name = false <-> strchr_split "=" name = None).
  { intros name. unfold has_equals.
    destruct (strchr_split "=" name); split; congruence. }
  split.
  - intros s name value. split.
    + intros H. apply strchr_split_spec in H as [-> H].
      split; [reflexivity|now apply Hnone].
    + intros [-> H]. apply strchr_split_join. now apply Hnone.
  - intros hJob name value w info e1 Hname Hinfo Htype.
    destruct (answer _ (DSSetParam hJob name
                          (mkDSPARAM DSJ_PARAMTYPE_STRING (pString value)))
                e1) as [status e2] eqn:Hset.
    exists status, e2. split; [reflexivity|].
    unfold setParam.
    change (name +++ "=" +++ value) with (name +++ String "=" value).
    rewrite (strchr_split_join _ _ _ (proj1 (Hnone name) Hname)).
    unfold bind at 1, call at 1. rewrite Hinfo, failed_noerror.
    unfold make_param. rewrite Htype. cbn [switch]. rewrite Z.eqb_refl.
    unfold bind, call, when. simpl. rewrite Hset.
    destruct (failed status); reflexivity.
Qed.

(** ** What a command changes *)

Lemma changes_output_only (tr : list Event) :
  output_only tr = true -> filter changes_engine tr = [].
Proof.
  induction tr as [|ev tr IH]; simpl; [reflexivity|].
  destruct ev; simpl; try discriminate; exact IH.
Qed.

Ltac changes_steps :=
  simpl; rewrite ?filter_app; simpl;
  repeat match goal with
         | Ho : output_only ?t = true |- _ =>
             rewrite ?(changes_output_only t Ho); clear Ho
         end;
  simpl; try reflexivity.

Lemma logsum_loop_asks (hJob : DSJOB) (fuel : nat) :
  forall status event w w' r tr,
    logsum_loop fuel hJob status event w = Returns r tr w' ->
    filter changes_engine tr = [].
Proof.
  induction fuel as [|fuel IH]; intros status event w w' r tr H; simpl in H.
  - destruct (status =? DSJE_NOERROR); [discriminate|].
    now inversion H.
  - destruct (status =? DSJE_NOERROR); [|now inversion H].
    apply bind_returns in H as (u & t1 & w1 & t2 & H1 & H & ->).
    apply bind_returns in H as (x & t3 & w3 & t4 & H3 & H4 & ->).
    apply IH in H4.
    unfold print_log_event in H1. run_code H1. inversion H1; subst.
    run_code H3. inversion H3; subst.
    simpl. exact H4.
Qed.

Lemma jobLogSum_asks (fuel : nat) (argv : list string) (w w' : World) (r : Z)
  (tr : list Event) :
  jobLogSum fuel argv w = Returns r tr w' -> filter changes_engine tr = [].
Proof.
  unfold jobLogSum, jobLogSum_usage, logsum_cursor, open_project_failed,
    open_job_failed.
  intros H.
  destruct (jobLogSum_options argv (mkLogSumOptions DSJ_LOGANY 0))
    as [o [|project [|job [|a3 rest]]]| |u];
    try (run_code H; inversion H; subst; reflexivity).
  apply bind_returns in H as (hp & t1 & w1 & q1 & H1 & H & ->).
  run_code H1. inversion H1; subst. clear H1.
  destruct hp as [hProject|]; [|run_code H; now inversion H].
  apply bind_returns in H as (s1 & t2 & w2 & t3 & H2 & H3 & ->).
  run_code H3. inversion H3; subst. clear H3.
  apply bind_returns in H2 as (hj & t4 & w4 & q4 & H4 & H & ->).
  run_code H4. inversion H4; subst. clear H4.
  destruct hj as [hJob|]; [|run_code H; now inversion H].
  apply bind_returns in H as (s2 & t5 & w5 & t6 & H5 & H6 & ->).
  run_code H6. inversion H6; subst. clear H6.
  apply bind_returns in H5 as (x & t7 & w7 & t8 & H7 & H8 & ->).
  run_code H7. inversion H7; subst. clear H7.
  apply bind_returns in H8 as (s3 & t9 & w9 & t10 & H9 & H10 & ->).
  apply logsum_loop_asks in H9.
  run_code H10; inversion H10; subst; simpl;
    rewrite ?filter_app, H9; reflexivity.
Qed.

(** The commands that only ask make no call that changes anything at the
    engine: no lock or unlock, no limit, no parameter, no run, no stop
    and no log entry.  -stop makes one such call at most, [DSStopJob],
    and -log one at most, [DSLogEvent]. *)
Theorem queries_change_nothing (fuel : nat) (name : string)
  (optionHandler : list string -> M Z) (argv : list string) (w w' : World)
  (r : Z) (tr : list Event) :
  In (name, optionHandler) (MajorOption fuel) ->
  optionHandler argv w = Returns r tr w' ->
  (In name query_commands -> filter changes_engine tr = [])
  /\ (name = "stop" ->
      filter changes_engine tr = filter is_stop tr
      /\ (count_events is_stop tr <= 1)%nat)
  /\ (name = "log" ->
      filter changes_engine tr = filter is_log_event tr
      /\ (count_events is_log_event tr <= 1)%nat).
Proof.
  intros Hin H. simpl in Hin.
  repeat (destruct Hin as [Hin|Hin];
          [injection Hin as <- <-|]); try contradiction;
    (split; [intros Hq|split; intros Hname]);
    try discriminate Hname;
    try (exfalso; simpl in Hq; intuition discriminate);
    try (now apply jobLogSum_asks in H);
    unfold jobStop, jobLProjects, jobLJobs, jobLStages, jobLLinks, jobJobInfo,
      jobJobInfo_queries, jobStageInfo, jobStageInfo_queries, jobLinkInfo,
      jobLinkInfo_queries, jobLParams, jobParamInfo, jobLog, jobLog_usage,
      jobLogDetail, jobLogNewest, jobLogNewest_open, jobLogNewest_usage in H;
    try match type of H with
        | context [jobLog_options ?a ?t] =>
            destruct (jobLog_options a t) as [? [|? [|? [|? ?]]]| |?]
        end;
    try (destruct argv as [|a1 [|a2 [|a3 [|a4 [|a5 argv]]]]]);
    try match type of H with
        | context [atoi ?x] => destruct (atoi x)
        end;
    try match type of H with
        | context [log_type_of_name ?x] => destruct (log_type_of_name x)
        end;
    run_handler H; unfold count_events; changes_steps;
    try (split; [reflexivity|simpl; lia]).
Qed.

(** ** The option character *)

(** [/] starts the command only where WIN32 is defined: there
    [/name] runs the handler as [-name] does, elsewhere it is turned down
    with the command syntax.  The handlers themselves take [/] for the
    start of an option on every platform. *)
Theorem slash_starts_a_command_under_win32 (fuel : nat) :
  (forall prog g name optionHandler rest,
      In (name, optionHandler) (MajorOption fuel) ->
      main fuel (prog :: global_tokens g ++ ("/" +++ name) :: rest)
      = if WIN32
        then run_command (g_domain g) (g_user g) (g_password g) (g_server g)
               optionHandler rest
        else reportError fuel)
  /\ (forall name rest o,
         jobRun_options (("/" +++ name) :: rest) o
         = jobRun_options (("-" +++ name) :: rest) o)
  /\ (forall name rest type,
         jobLog_options (("/" +++ name) :: rest) type
         = jobLog_options (("-" +++ name) :: rest) type)
  /\ (forall name rest o,
         jobLogSum_options (("/" +++ name) :: rest) o
         = jobLogSum_options (("-" +++ name) :: rest) o).
Proof.
  split; [|split; [|split]]; try reflexivity.
  intros prog g name optionHandler rest Hin.
  rewrite main_dispatches by reflexivity.
  unfold dispatch, is_command_switch. simpl "+++".
  cbn [Ascii.eqb Bool.eqb orb andb opt_name].
  destruct WIN32; [|reflexivity]. simpl in Hin.
  repeat (destruct Hin as [Hin|Hin];
          [injection Hin as <- <-; reflexivity|]).
  contradiction.
Qed.

(** ** The options of -log and -logsum *)

Lemma jobLogSum_options_rendered (opts : list LogSumOption)
  (rest : list string) :
  forallb logsum_option_ok opts = true ->
  forall o,
    jobLogSum_options (logsum_tokens opts ++ rest) o
    = jobLogSum_options rest
        (mkLogSumOptions (last_type opts (ls_type o))
           (last_max opts (ls_maxNumber o))).
Proof.
  unfold logsum_tokens.
  induction opts as [|x opts IH]; intros Hok o.
  - simpl. now destruct o.
  - simpl in Hok. apply andb_true_iff in Hok as [Hx Hok].
    destruct x as [name|n]; simpl in *.
    + destruct (log_type_of_name name) as [type|]; [|discriminate].
      now rewrite (IH Hok).
    + destruct (atoi n) as [v|]; [|discriminate]. now rewrite (IH Hok).
Qed.

Lemma jobLog_options_rendered (flags : list bool) (rest : list string) :
  forall type,
    jobLog_options (map log_flag flags ++ rest) type
    = jobLog_options rest (last_flag flags type).
Proof.
  induction flags as [|warn flags IH]; intros type; [reflexivity|].
  destruct warn; simpl; now rewrite IH.
Qed.

Lemma first_entries_app (t1 t2 : list Event) :
  first_entries (t1 ++ t2) = first_entries t1 ++ first_entries t2.
Proof.
  induction t1 as [|ev t1 IH]; simpl; [reflexivity|].
  destruct ev as [R c r| | |]; try exact IH.
  destruct c; simpl; now rewrite ?IH.
Qed.

Lemma logsum_loop_no_first (hJob : DSJOB) (fuel : nat) :
  forall status event w w' r tr,
    logsum_loop fuel hJob status event w = Returns r tr w' ->
    first_entries tr = [].
Proof.
  induction fuel as [|fuel IH]; intros status event w w' r tr H; simpl in H.
  - destruct (status =? DSJE_NOERROR); [discriminate|].
    now inversion H.
  - destruct (status =? DSJE_NOERROR); [|now inversion H].
    apply bind_returns in H as (u & t1 & w1 & t2 & H1 & H & ->).
    apply bind_returns in H as (x & t3 & w3 & t4 & H3 & H4 & ->).
    apply IH in H4.
    unfold print_log_event in H1. run_code H1. inversion H1; subst.
    run_code H3. inversion H3; subst.
    simpl. exact H4.
Qed.

(** Of the options of -logsum and of -log, the last one of a kind
    counts.  -logsum opens the log with the type of its last -type option
    (any type when there is none), the number of its last -max option (0
    when there is none), and no limits in time: start and end are always
    0.  -log writes an entry of type WARNING when the last of its options
    is -warn, and INFO otherwise. *)
Theorem of_log_options_the_last_counts (fuel : nat) (project job : string)
  (w w' : World) (r : Z) (tr : list Event) :
  is_option project = false ->
  (forall opts,
      forallb logsum_option_ok opts = true ->
      jobLogSum fuel (logsum_tokens opts ++ [project; job]) w
      = Returns r tr w' ->
      first_entries tr = []
      \/ first_entries tr
         = [(last_type opts DSJ_LOGANY, 0, 0, last_max opts 0)])
  /\ (forall flags,
         jobLog (map log_flag flags ++ [project; job]) w = Returns r tr w' ->
         logged tr = []
         \/ exists message,
              logged tr = [(last_flag flags DSJ_LOGINFO, message)]).
Proof.
  intros Hp. split.
  - intros opts Hok H. unfold jobLogSum in H.
    rewrite (jobLogSum_options_rendered opts _ Hok) in H.
    simpl in H. rewrite Hp in H.
    unfold logsum_cursor, open_project_failed, open_job_failed in H.
    apply bind_returns in H as (hp & t1 & w1 & q1 & H1 & H & ->).
    run_code H1. inversion H1; subst. clear H1.
    destruct hp as [hProject|]; [|run_code H; inversion H; now left].
    apply bind_returns in H as (s1 & t2 & w2 & t3 & H2 & H3 & ->).
    run_code H3. inversion H3; subst. clear H3.
    apply bind_returns in H2 as (hj & t4 & w4 & q4 & H4 & H & ->).
    run_code H4. inversion H4; subst. clear H4.
    destruct hj as [hJob|]; [|run_code H; inversion H; now left].
    apply bind_returns in H as (s2 & t5 & w5 & t6 & H5 & H6 & ->).
    run_code H6. inversion H6; subst. clear H6.
    apply bind_returns in H5 as (x & t7 & w7 & t8 & H7 & H8 & ->).
    run_code H7. inversion H7; subst. clear H7.
    apply bind_returns in H8 as (s3 & t9 & w9 & t10 & H9 & H10 & ->).
    apply logsum_loop_no_first in H9.
    right.
    run_code H10; inversion H10; subst; simpl;
      rewrite ?first_entries_app, H9; reflexivity.
  - intros flags H. unfold jobLog in H.
    rewrite jobLog_options_rendered in H. simpl in H. rewrite Hp in H.
    unfold open_project_failed, open_job_failed, read_stdin in H.
    run_code H; try (inversion H; subst; now left).
    destruct (read_message (stdin w) 0 EmptyString) as [message rest].
    run_code H; inversion H; subst; right; now exists message.
Qed.

(** ** -logdetail *)

Lemma printLogDetail_text (indent : nat) (logDetail : DSLOGDETAIL)
  (w : World) :
  (indent <= 5)%nat ->
  exists tr,
    printLogDetail indent logDetail w = Returns tt tr w
    /\ stdout_text tr = log_detail_text indent logDetail
    /\ stderr_text tr = EmptyString.
Proof.
  intros Hle. unfold printLogDetail, log_detail_text.
  destruct (Nat.ltb_spec 5 indent) as [Hgt|_]; [lia|].
  destruct (printStrList_prints (indent + 1) (ld_fullMessage logDetail) w)
    as (tr & Hrun & _ & Hout & Herr).
  destruct (ld_eventId logDetail <? 0); unfold bind, printf; simpl;
    rewrite Hrun; (eexists; split; [reflexivity|]); simpl;
    rewrite Hout, Herr, ?append_assoc; simpl; rewrite ?append_assoc; auto.
Qed.

(** -logdetail looks up the event whose id [atoi] reads in its third
    argument, so event 0 when that argument holds no number.  Once the
    project and the job are open, the entry the engine finds is printed
    (an id below 0 as [unknown], the lines of the message one tab in);
    a status other than success is written to stderr with its number, and
    is the result. *)
Theorem logdetail_looks_up_the_number_read :
  (forall id, leading_number id = false -> atoi id = Some 0)
  /\ (forall project job id eventId (w : World) hProject hJob e1 e2 e3 status
             logDetail,
         atoi id = Some eventId ->
         answer _ (DSOpenProject project) (engine w) = (Some hProject, e1) ->
         answer _ (DSOpenJob hProject job) e1 = (Some hJob, e2) ->
         answer _ (DSGetLogEntry hJob eventId) e2 = ((status, logDetail), e3) ->
         exists tr w',
           jobLogDetail [project; job; id] w = Returns status tr w'
           /\ stdout_text tr
              = (if failed status then EmptyString
                 else log_detail_text 0 logDetail)
           /\ stderr_text tr
              = (if failed status
                 then "Error " +++ string_of_Z status
                      +++ " getting event details" +++ nl
                 else EmptyString)).
Proof.
  split; [exact atoi_unparseable|].
  intros project job id eventId w hProject hJob e1 e2 e3 status logDetail Hid
    Hproject Hjob Hentry.
  destruct (answer _ (DSCloseJob hJob) e3) as [s1 e4] eqn:Hclose.
  destruct (answer _ (DSCloseProject hProject) e4) as [s2 e5] eqn:Hclose'.
  destruct (printLogDetail_text 0 logDetail (mkWorld e3 (stdin w))
              (Nat.le_0_l _)) as (lines & Hlines & Hout & Herr).
  unfold jobLogDetail. rewrite Hid. unfold bind, call. simpl.
  rewrite Hproject. simpl. rewrite Hjob. simpl. rewrite Hentry. simpl.
  destruct (failed status); unfold eprintf, ret; simpl; rewrite ?Hlines;
    simpl; rewrite Hclose; simpl; rewrite Hclose'; simpl;
    (eexists; eexists; split; [reflexivity|]); simpl;
    rewrite ?stdout_text_app, ?stderr_text_app, ?Hout, ?Herr; simpl;
    rewrite ?append_empty_r; auto.
Qed.

(** ** The calls of a run, in their order *)

Lemma steps_app (t1 t2 : list Event) : steps (t1 ++ t2) = steps t1 ++ steps t2.
Proof. unfold steps. apply flat_map_app. Qed.

Lemma setParam_loop_steps (hJob : DSJOB) (params : list string) :
  forall (w w' : World) (st : Z) (tr : list Event),
    setParam_loop hJob DSJE_NOERROR params w = Returns st tr w' ->
    forallb succeeded tr = true ->
    st = DSJE_NOERROR
    /\ steps tr
       = flat_map (fun p => [QueryStep (param_name p); SetStep (param_name p)])
           params
    /\ stderr_text tr = EmptyString /\ stdout_text tr = EmptyString.
Proof.
  induction params as [|p params IH]; intros w w' st tr H Hok; simpl in H.
  - inversion H; subst. auto.
  - rewrite Z.eqb_refl in H.
    apply bind_returns in H as (st1 & t1 & w1 & t2 & H1 & H2 & ->).
    rewrite forallb_app in Hok. apply andb_true_iff in Hok as [Hok1 Hok2].
    apply setParam_returns in H1
      as (name & value & info & Hsplit & [[Hf ->]|[pd ->]]).
    + simpl in Hok1. apply failed_true in Hf. apply Z.eqb_neq in Hf.
      rewrite Hf in Hok1. discriminate.
    + simpl in Hok1. rewrite andb_true_iff in Hok1. destruct Hok1 as [_ Hok1].
      rewrite andb_true_iff in Hok1. destruct Hok1 as [Hset _].
      apply Z.eqb_eq in Hset. subst st1. rewrite failed_noerror.
      destruct (IH _ _ _ _ H2 Hok2) as (-> & Hsteps & Herr & Hout).
      split; [reflexivity|].
      rewrite steps_app, stderr_text_app, stdout_text_app, Hsteps, Herr, Hout.
      simpl. unfold param_name. rewrite Hsplit. auto.
Qed.

Lemma jobRun_locked_steps (hJob : DSJOB) (o : RunOptions) (w w' : World)
  (r : Z) (tr : list Event) :
  jobRun_locked hJob o DSJE_NOERROR w = Returns r tr w' ->
  forallb succeeded tr = true ->
  r = DSJE_NOERROR
  /\ steps tr
     = (if 0 <=? warningLimit o
        then [LimitStep DSJ_LIMITWARN (warningLimit o)] else [])
       ++ (if rowLimit o =? 0 then []
           else [LimitStep DSJ_LIMITROWS (rowLimit o)])
       ++ flat_map
            (fun p => [QueryStep (param_name p); SetStep (param_name p)])
            (param o)
       ++ [RunStep (mode o)]
       ++ (if waitForJob o then [WaitStep] else [])
       ++ [UnlockStep]
  /\ stderr_text tr = EmptyString
  /\ stdout_text tr
     = (if waitForJob o then "Waiting for job..." +++ nl else EmptyString).
Proof.
  unfold jobRun_locked. intros H Hok.
  apply bind_returns in H as (s1 & t1 & w1 & q1 & H1 & H & ->).
  apply bind_returns in H as (s2 & t2 & w2 & q2 & H2 & H & ->).
  apply bind_returns in H as (s3 & t3 & w3 & q3 & H3 & H & ->).
  apply bind_returns in H as (s4 & t4 & w4 & q4 & H4 & H & ->).
  apply bind_returns in H as (s5 & t5 & w5 & t6 & H5 & H6 & ->).
  rewrite !forallb_app in Hok.
  repeat (apply andb_true_iff in Hok; destruct Hok as [?Hok Hok]).
  assert (F1 : s1 = DSJE_NOERROR
               /\ steps t1 = (if 0 <=? warningLimit o
                              then [LimitStep DSJ_LIMITWARN (warningLimit o)]
                              else [])
               /\ stderr_text t1 = EmptyString
               /\ stdout_text t1 = EmptyString).
  { destruct (0 <=? warningLimit o); run_code H1; inversion H1; subst;
      simpl in Hok0; rewrite ?andb_true_r in Hok0;
      try apply Z.eqb_eq in Hok0; subst; auto.
    rewrite failed_noerror in Hif. discriminate. }
  destruct F1 as (-> & S1 & E1 & O1).
  rewrite Z.eqb_refl, andb_true_r in H2.
  assert (F2 : s2 = DSJE_NOERROR
               /\ steps t2 = (if rowLimit o =? 0 then []
                              else [LimitStep DSJ_LIMITROWS (rowLimit o)])
               /\ stderr_text t2 = EmptyString
               /\ stdout_text t2 = EmptyString).
  { destruct (rowLimit o =? 0); run_code H2; inversion H2; subst;
      simpl in Hok1; rewrite ?andb_true_r in Hok1;
      try apply Z.eqb_eq in Hok1; subst; auto.
    rewrite failed_noerror in Hif. discriminate. }
  destruct F2 as (-> & S2 & E2 & O2).
  destruct (setParam_loop_steps _ _ _ _ _ _ H3 Hok2) as (-> & S3 & E3 & O3).
  rewrite Z.eqb_refl in H4.
  assert (F4 : s4 = DSJE_NOERROR /\ steps t4 = [RunStep (mode o)]
               /\ stderr_text t4 = EmptyString
               /\ stdout_text t4 = EmptyString).
  { run_code H4; inversion H4; subst;
      simpl in Hok3; rewrite ?andb_true_r in Hok3;
      try apply Z.eqb_eq in Hok3; subst; auto.
    rewrite failed_noerror in Hif. discriminate. }
  destruct F4 as (-> & S4 & E4 & O4).
  rewrite Z.eqb_refl in H5. simpl in H5.
  assert (F5 : s5 = DSJE_NOERROR
               /\ steps t5 = (if waitForJob o then [WaitStep] else [])
               /\ stderr_text t5 = EmptyString
               /\ stdout_text t5
                  = (if waitForJob o then "Waiting for job..." +++ nl
                     else EmptyString)).
  { destruct (waitForJob o); run_code H5; inversion H5; subst;
      simpl in Hok4; rewrite ?andb_true_r in Hok4;
      try apply Z.eqb_eq in Hok4; subst; auto.
    rewrite failed_noerror in Hif. discriminate. }
  destruct F5 as (-> & S5 & E5 & O5).
  assert (F6 : r = DSJE_NOERROR /\ steps t6 = [UnlockStep]
               /\ stderr_text t6 = EmptyString
               /\ stdout_text t6 = EmptyString).
  { run_code H6. inversion H6; subst. auto. }
  destruct F6 as (-> & S6 & E6 & O6).
  split; [reflexivity|].
  rewrite !steps_app, !stderr_text_app, !stdout_text_app.
  rewrite S1, S2, S3, S4, S5, S6, E1, E2, E3, E4, E5, E6, O1, O2, O3, O4, O5,
    O6.
  simpl. rewrite ?append_empty_r. auto.
Qed.

Lemma jobRun_open_steps (project job : string) (o : RunOptions) (w w' : World)
  (r : Z) (tr : list Event) :
  jobRun_open project job o w = Returns r tr w' ->
  forallb succeeded tr = true ->
  r = DSJE_NOERROR
  /\ steps tr = run_steps project job o
  /\ stderr_text tr = EmptyString
  /\ stdout_text tr
     = (if waitForJob o then "Waiting for job..." +++ nl else EmptyString).
Proof.
  unfold jobRun_open. intros H Hok.
  apply bind_returns in H as (hp & t1 & w1 & q1 & H1 & H & ->).
  run_code H1. inversion H1; subst. clear H1.
  destruct hp as [hProject|]; [|discriminate Hok].
  apply bind_returns in H as (s1 & t2 & w2 & t3 & H2 & H3 & ->).
  run_code H3. inversion H3; subst. clear H3.
  apply bind_returns in H2 as (hj & t4 & w4 & q4 & H4 & H & ->).
  run_code H4. inversion H4; subst. clear H4.
  destruct hj as [hJob|]; [|discriminate Hok].
  apply bind_returns in H as (s2 & t5 & w5 & t6 & H5 & H6 & ->).
  run_code H6. inversion H6; subst. clear H6.
  apply bind_returns in H5 as (s3 & t7 & w7 & t8 & H7 & H8 & ->).
  run_code H7. inversion H7; subst. clear H7.
  simpl in Hok. rewrite !forallb_app in Hok. simpl in Hok.
  apply andb_true_iff in Hok as [Hlock Hok].
  apply Z.eqb_eq in Hlock. subst s3. rewrite failed_noerror in H8.
  apply andb_true_iff in Hok as [Hok _].
  apply andb_true_iff in Hok as [Hok _].
  destruct (jobRun_locked_steps _ _ _ _ _ _ H8 Hok) as (-> & S & E & O).
  split; [reflexivity|]. unfold run_steps. simpl.
  rewrite !steps_app, !stderr_text_app, !stdout_text_app, S, E, O. simpl.
  rewrite <- !app_assoc, ?append_empty_r. simpl.
  split; [|split; reflexivity].
  do 3 f_equal. do 3 apply f_equal. f_equal.
  now rewrite <- app_assoc.
Qed.

(** When every call of a run succeeds, -run does this and nothing else,
    in this order: it opens the project and the job, locks the job, sets
    the warning limit if one was given that is not negative, sets the row
    limit if one was given that is not 0, asks for and sets every
    parameter in the order of the command line, runs the job in the mode
    asked for, waits for it if -wait was given, unlocks the job, closes
    the job and closes the project.  It returns success, writes nothing
    to stderr, and to stdout only that it waits. *)
Theorem run_does_its_steps_in_order (opts : list RunOption)
  (project job : string) (w w' : World) (r : Z) (tr : list Event) :
  forallb option_ok opts = true -> is_option project = false ->
  jobRun (options_tokens opts ++ [project; job]) w = Returns r tr w' ->
  forallb succeeded tr = true ->
  r = DSJE_NOERROR
  /\ steps tr
     = run_steps project job (fold_left apply_option opts jobRun_defaults)
  /\ param (fold_left apply_option opts jobRun_defaults) = params_of opts
  /\ mode (fold_left apply_option opts jobRun_defaults)
     = last_mode opts DSJ_RUNNORMAL
  /\ waitForJob (fold_left apply_option opts jobRun_defaults)
     = existsb is_OptWait opts
  /\ stderr_text tr = EmptyString
  /\ stdout_text tr
     = (if existsb is_OptWait opts then "Waiting for job..." +++ nl
        else EmptyString).
Proof.
  intros Hopts Hp H Hok.
  rewrite (jobRun_rendered _ _ _ Hopts Hp) in H.
  destruct (List.length (params_of opts) <=? MAX_PARAMS)%nat;
    [|discriminate].
  destruct (jobRun_open_steps _ _ _ _ _ _ _ H Hok) as (-> & S & E & O).
  rewrite wait_fold in O. simpl in O. rewrite orb_false_r in O.
  split; [reflexivity|]. split; [exact S|].
  split; [now rewrite param_fold|]. split; [now rewrite mode_fold|].
  split; [rewrite wait_fold; simpl; now rewrite orb_false_r|].
  split; [exact E|exact O].
Qed.

End Properties.

(** * The properties, on the sample engine *)

#[local] Existing Instance Sample.platform.
#[local] Existing Instance Sample.dsapi.
#[local] Existing Instance Sample.engine.

Lemma handlers_release_their_handles_witness :
  exists r tr w',
    jobRun ["proj"; "job"]
      (Sample.world
         [Sample.AHandle (Some 7); Sample.AHandle (Some 8);
          Sample.AStatus (-10)])
    = Returns r tr w'
    /\ In ("run", jobRun) (MajorOption 0)
    /\ releases_handles tr
    /\ count_events is_project_opened tr = count_events is_project_closed tr
    /\ count_events is_job_opened tr = count_events is_job_closed tr
    /\ granted_lock_released tr
    /\ refused_lock_only_closed tr.
Proof.
  eexists. eexists. eexists.
  split; [reflexivity|].
  split; [simpl; auto|].
  eapply (handlers_release_their_handles 0 "run" jobRun ["proj"; "job"]
           (Sample.world
              [Sample.AHandle (Some 7); Sample.AHandle (Some 8);
               Sample.AStatus (-10)]));
    [simpl; auto|reflexivity].
Defined.



Lemma main_reports_last_error_message_witness :
  exists tr w',
    main 0 ["dsjob"; "-server"; "host"; "-stop"; "proj"; "job"]
      (Sample.world
         [Sample.AHandle None; Sample.AStatus (-1002);
          Sample.AText (Some ["no such project"])])
    = Returns (-1002) tr w'
    /\ In (EvCall DSGetLastErrorMsg (Some ["no such project"])) tr
    /\ In (EvStdout ("no such project" +++ nl)) tr.
Proof.
  eexists. eexists.
  split.
  - eapply (main_reports_last_error_message 0 "dsjob"
             (mkGlobalOptions None (Some "host") None None) "stop" jobStop
             ["proj"; "job"]
             (Sample.world
                [Sample.AHandle None; Sample.AStatus (-1002);
                 Sample.AText (Some ["no such project"])])
             (Sample.world [Sample.AText (Some ["no such project"])])
             [Sample.AHandle None; Sample.AStatus (-1002);
              Sample.AText (Some ["no such project"])]
             [] (-1002) _ (Some ["no such project"]));
      [simpl; auto|reflexivity|reflexivity|reflexivity].
  - split; simpl; tauto.
Defined.

Lemma setParam_marshals_declared_type_witness :
  param_types_distinct Sample.dsapi
  /\ atof_conforms Sample.platform
  /\ strchr_split "=" "n=42" = Some ("n", "42")
  /\ marshalled DSJ_PARAMTYPE_INTEGER "42"
       (mkDSPARAM DSJ_PARAMTYPE_INTEGER (pInt 42))
  /\ exists status e'',
       answer _
         (DSSetParam 8 "n" (mkDSPARAM DSJ_PARAMTYPE_INTEGER (pInt 42))) []
       = (status, e'')
       /\ setParam 8 "n=42" (Sample.world [Sample.AParamType 0 2])
          = Returns status
              (EvCall (DSGetParamInfo 8 "n") (0, Sample.param_info 2)
               :: EvCall
                    (DSSetParam 8 "n"
                       (mkDSPARAM DSJ_PARAMTYPE_INTEGER (pInt 42))) status
               :: (if failed status
                   then [EvStderr ("Error setting value of parameter '"
                                   +++ "n" +++ "'" +++ nl)]
                   else []))
              (mkWorld e'' []).
Proof.
  assert (Hdistinct : param_types_distinct Sample.dsapi).
  { unfold param_types_distinct, param_types. simpl.
    repeat (constructor; [simpl; intuition discriminate|]). constructor. }
  assert (Hatof : atof_conforms Sample.platform).
  { intros s Hs. simpl. now rewrite Hs. }
  assert (Hm : marshalled DSJ_PARAMTYPE_INTEGER "42"
                 (mkDSPARAM DSJ_PARAMTYPE_INTEGER (pInt 42))).
  { apply marshal_integer; reflexivity. }
  split; [exact Hdistinct|]. split; [exact Hatof|].
  split; [reflexivity|]. split; [exact Hm|].
  exact (setParam_marshals_declared_type 8 "n=42" "n" "42"
           (Sample.world [Sample.AParamType 0 2]) (Sample.param_info 2) []
           (mkDSPARAM DSJ_PARAMTYPE_INTEGER (pInt 42))
           Hdistinct Hatof eq_refl eq_refl Hm).
Defined.

Lemma run_parameters_in_order_until_failure_witness :
  setParam 8 "a=1" (Sample.world [Sample.AParamType (-3) 0])
  = Returns (-3)
      [EvCall (DSGetParamInfo 8 "a") (-3, Sample.param_info 0);
       EvStderr ("Error " +++ string_of_Z (-3)
                 +++ " getting information for parameter '" +++ "a"
                 +++ "'" +++ nl)]
      (mkWorld [] [])
  /\ exists r tr w',
       jobRun
         (options_tokens [OptParam "a=1"; OptParam "b=2"; OptParam "c=3"]
          ++ ["proj"; "job"])
         (Sample.world
            [Sample.AHandle (Some 7); Sample.AHandle (Some 8);
             Sample.AStatus 0; Sample.AParamType 0 0; Sample.AStatus 0;
             Sample.AParamType (-3) 0])
       = Returns r tr w'
       /\ queried_params tr = ["a"; "b"]
       /\ submitted_params tr = ["a"]
       /\ params_processed ["a=1"; "b=2"; "c=3"] tr.
Proof.
  pose proof run_parameters_in_order_until_failure as [Hquery Hrun].
  split.
  - apply (Hquery 8 "a=1" "a" "1" (Sample.world [Sample.AParamType (-3) 0])
             (-3) (Sample.param_info 0) []);
      [reflexivity|reflexivity|discriminate].
  - eexists. eexists. eexists.
    split; [reflexivity|]. split; [reflexivity|]. split; [reflexivity|].
    eapply (Hrun [OptParam "a=1"; OptParam "b=2"; OptParam "c=3"] "proj"
              "job"
              (Sample.world
                 [Sample.AHandle (Some 7); Sample.AHandle (Some 8);
                  Sample.AStatus 0; Sample.AParamType 0 0; Sample.AStatus 0;
                  Sample.AParamType (-3) 0]));
      reflexivity.
Defined.

Lemma logsum_iterates_until_no_more_witness :
  exists tr w',
    jobLogSum 3 ["proj"; "job"]
      (Sample.world
         [Sample.AHandle (Some 7); Sample.AHandle (Some 8);
          Sample.ALogEvent 0 (mkDSLOGEVENT 1 100 1 "started");
          Sample.ALogEvent 0 (mkDSLOGEVENT 2 200 2 "slow");
          Sample.ALogEvent (-1001) Sample.no_event])
    = Returns 0 tr w'
    /\ stdout_text tr
       = log_lines [mkDSLOGEVENT 1 100 1 "started";
                    mkDSLOGEVENT 2 200 2 "slow"]
    /\ stderr_text tr = EmptyString
    /\ count_events is_find tr = 3%nat.
Proof.
  assert (Hcursor :
            cursor_answers 8 (mkLogSumOptions DSJ_LOGANY 0)
              [Sample.ALogEvent 0 (mkDSLOGEVENT 1 100 1 "started");
               Sample.ALogEvent 0 (mkDSLOGEVENT 2 200 2 "slow");
               Sample.ALogEvent (-1001) Sample.no_event]
              (map (pair DSJE_NOERROR)
                 [mkDSLOGEVENT 1 100 1 "started";
                  mkDSLOGEVENT 2 200 2 "slow"]
               ++ [(-1001, Sample.no_event)])
              []).
  { simpl. eexists. split; [reflexivity|].
    eexists. split; [reflexivity|].
    eexists. split; reflexivity. }
  assert (Hfin : -1001 <> DSJE_NOERROR) by discriminate.
  assert (Hfuel : (List.length [mkDSLOGEVENT 1 100 1 "started";
                                mkDSLOGEVENT 2 200 2 "slow"] < 3)%nat)
    by (simpl; lia).
  exact (logsum_iterates_until_no_more 3 ["proj"; "job"]
           (mkLogSumOptions DSJ_LOGANY 0) "proj" "job"
           (Sample.world
              [Sample.AHandle (Some 7); Sample.AHandle (Some 8);
               Sample.ALogEvent 0 (mkDSLOGEVENT 1 100 1 "started");
               Sample.ALogEvent 0 (mkDSLOGEVENT 2 200 2 "slow");
               Sample.ALogEvent (-1001) Sample.no_event])
           7 8
           [Sample.AHandle (Some 8);
            Sample.ALogEvent 0 (mkDSLOGEVENT 1 100 1 "started");
            Sample.ALogEvent 0 (mkDSLOGEVENT 2 200 2 "slow");
            Sample.ALogEvent (-1001) Sample.no_event]
           [Sample.ALogEvent 0 (mkDSLOGEVENT 1 100 1 "started");
            Sample.ALogEvent 0 (mkDSLOGEVENT 2 200 2 "slow");
            Sample.ALogEvent (-1001) Sample.no_event]
           []
           [mkDSLOGEVENT 1 100 1 "started"; mkDSLOGEVENT 2 200 2 "slow"]
           (-1001) Sample.no_event
           eq_refl eq_refl eq_refl Hcursor Hfin Hfuel).
Defined.

Lemma engine_failure_is_the_result_witness :
  exists tr w',
    main 0 ["dsjob"; "-stop"; "proj"; "job"]
      (Sample.world
         [Sample.AHandle (Some 7); Sample.AHandle (Some 8);
          Sample.AStatus (-2)])
    = Returns (-2) tr w'
    /\ propagates_failures (-2) tr
    /\ In (EvStderr (nl +++ "Status code = " +++ string_of_Z (-2) +++ nl)) tr.
Proof.
  eexists. eexists. split; [reflexivity|].
  destruct (engine_failure_is_the_result 0 "stop" jobStop "dsjob"
              (mkGlobalOptions None None None None) ["proj"; "job"]
              (Sample.world
                 [Sample.AHandle (Some 7); Sample.AHandle (Some 8);
                  Sample.AStatus (-2)])
              _ (-2) _ ltac:(simpl; auto) eq_refl eq_refl)
    as [Hprop Hreport].
  split; [exact Hprop|]. apply Hreport. discriminate.
Defined.

(** "Not available" is an empty list, not a failure: -lstages returns
    success although [DSGetJobInfo] returned a status that is not
    success. *)
Lemma lstages_not_available_is_success :
  exists tr w',
    jobLStages ["proj"; "job"]
      (Sample.world
         [Sample.AHandle (Some 7); Sample.AHandle (Some 8);
          Sample.AStatus (-1007)])
    = Returns DSJE_NOERROR tr w'
    /\ exists ev status,
         In ev tr /\ call_status ev = Some status
         /\ status <> DSJE_NOERROR.
Proof.
  eexists. eexists. split; [reflexivity|].
  exists (EvCall (DSGetJobInfo 8 DSJ_STAGELIST) (-1007, Sample.no_job_info)).
  exists (-1007). split; [simpl; tauto|]. split; [reflexivity|discriminate].
Qed.

(** C8 fails in -jobinfo, and in the same way in -stageinfo and
    -linkinfo.  Every query of these handlers stores its status in the
    one variable that the handler returns, so that the status of the
    last query is all that is left of them.  On an engine that fails the
    first query with -1 and answers the others, the failure is written
    to stderr with its number, and that is all that stderr gets: the
    handler returns success, and so does dsjob, without a status code.
    -lstages, -lparams and -llinks on an engine that fails their query
    the same way return the -1. *)
Lemma jobinfo_first_failure_is_overwritten :
  (exists tr w',
      jobJobInfo ["proj"; "job"]
        (Sample.world
           [Sample.AHandle (Some 7); Sample.AHandle (Some 8);
            Sample.AStatus (-1)])
      = Returns DSJE_NOERROR tr w'
      /\ In (EvCall (DSGetJobInfo 8 DSJ_JOBSTATUS) (-1, Sample.no_job_info))
           tr
      /\ In (EvStderr ("Error " +++ string_of_Z (-1)
                       +++ " getting job status" +++ nl)) tr)
  /\ (exists tr w',
         main 0 ["dsjob"; "-jobinfo"; "proj"; "job"]
           (Sample.world
              [Sample.AHandle (Some 7); Sample.AHandle (Some 8);
               Sample.AStatus (-1)])
         = Returns DSJE_NOERROR tr w'
         /\ In (EvCall (DSGetJobInfo 8 DSJ_JOBSTATUS)
                  (-1, Sample.no_job_info)) tr
         /\ stderr_text tr
            = "Error " +++ string_of_Z (-1) +++ " getting job status" +++ nl)
  /\ (exists tr w',
         jobStageInfo ["proj"; "job"; "stage"]
           (Sample.world
              [Sample.AHandle (Some 7); Sample.AHandle (Some 8);
               Sample.AStatus (-1)])
         = Returns DSJE_NOERROR tr w'
         /\ In (EvCall (DSGetStageInfo 8 "stage" DSJ_STAGETYPE)
                  (-1, Sample.no_stage_info)) tr)
  /\ (exists tr w',
         jobLinkInfo ["proj"; "job"; "stage"; "link"]
           (Sample.world
              [Sample.AHandle (Some 7); Sample.AHandle (Some 8);
               Sample.AStatus (-1)])
         = Returns DSJE_NOERROR tr w'
         /\ In (EvCall (DSGetLinkInfo 8 "stage" "link" DSJ_LINKROWCOUNT)
                  (-1, Sample.no_link_info)) tr)
  /\ (exists tr w',
         jobLStages ["proj"; "job"]
           (Sample.world
              [Sample.AHandle (Some 7); Sample.AHandle (Some 8);
               Sample.AStatus (-1)])
         = Returns (-1) tr w')
  /\ (exists tr w',
         jobLParams ["proj"; "job"]
           (Sample.world
              [Sample.AHandle (Some 7); Sample.AHandle (Some 8);
               Sample.AStatus (-1)])
         = Returns (-1) tr w')
  /\ (exists tr w',
         jobLLinks ["proj"; "job"; "stage"]
           (Sample.world
              [Sample.AHandle (Some 7); Sample.AHandle (Some 8);
               Sample.AStatus (-1)])
         = Returns (-1) tr w').
Proof.
  split.
  { eexists. eexists. split; [reflexivity|]. split; simpl; tauto. }
  split.
  { eexists. eexists. split; [reflexivity|].
    split; [simpl; tauto|reflexivity]. }
  split.
  { eexists. eexists. split; [reflexivity|]. simpl; tauto. }
  split.
  { eexists. eexists. split; [reflexivity|]. simpl; tauto. }
  split; [|split]; eexists; eexists; reflexivity.
Qed.

Lemma warn_limit_forwarded_unless_negative_witness :
  atoi "-5" = Some (-5)
  /\ is_option "proj" = false
  /\ exists r tr w',
       jobRun ["-warn"; "-5"; "proj"; "job"]
         (Sample.world [Sample.AHandle (Some 7); Sample.AHandle (Some 8)])
       = Returns r tr w'
       /\ jobRun ["-warn"; "-5"; "proj"; "job"]
          = jobRun_open "proj" "job" (mkRunOptions DSJ_RUNNORMAL (-5) 0 [] false)
       /\ job_limits tr = [].
Proof.
  split; [reflexivity|]. split; [reflexivity|].
  eexists. eexists. eexists. split; [reflexivity|].
  pose proof (fun w' r tr =>
                warn_limit_forwarded_unless_negative "-5" "proj" "job" (-5)
                  (Sample.world
                     [Sample.AHandle (Some 7); Sample.AHandle (Some 8)])
                  w' r tr eq_refl eq_refl) as Hwarn.
  edestruct Hwarn as (Haccepted & Hnegative & _); [reflexivity|].
  split; [exact Haccepted|]. apply Hnegative. lia.
Defined.

(** The claim C9 as it is worded fails: with [-warn -5] the job is run
    and no limit, -5 or other, is handed to the engine. *)
Lemma warn_minus_five_is_not_forwarded :
  exists tr w',
    jobRun ["-warn"; "-5"; "proj"; "job"]
      (Sample.world [Sample.AHandle (Some 7); Sample.AHandle (Some 8)])
    = Returns DSJE_NOERROR tr w'
    /\ existsb is_run tr = true
    /\ ~ In (DSJ_LIMITWARN, -5) (job_limits tr).
Proof.
  eexists. eexists. split; [reflexivity|]. split; [reflexivity|].
  simpl. tauto.
Qed.

Lemma param_array_overflows_beyond_max_params_witness :
  forallb option_ok (repeat (OptParam "a=1") 11) = true
  /\ (MAX_PARAMS < List.length (params_of (repeat (OptParam "a=1") 11)))%nat
  /\ jobRun
       (options_tokens (repeat (OptParam "a=1") 11) ++ ["proj"; "job"])
       (Sample.world [])
     = Undefined OutOfBoundsWrite
  /\ (param_flags
        (options_tokens (repeat (OptParam "a=1") 10) ++ ["proj"; "job"])
      <= MAX_PARAMS)%nat
  /\ jobRun_options
       (options_tokens (repeat (OptParam "a=1") 10) ++ ["proj"; "job"])
       jobRun_defaults
     <> ParseUndefined OutOfBoundsWrite.
Proof.
  pose proof param_array_overflows_beyond_max_params as (_ & Hin & Hout).
  split; [reflexivity|].
  split; [vm_compute; lia|].
  split.
  - apply (Hout (repeat (OptParam "a=1") 11) ["proj"; "job"]
             (Sample.world []));
      [reflexivity|vm_compute; lia].
  - split; [vm_compute; lia|].
    apply Hin. vm_compute. lia.
Defined.


(** * More of the code, on the sample engine *)




Lemma wrong_argument_count_is_rejected_witness :
  In ("stop", jobStop) (MajorOption 0)
  /\ In ("stop", 2%nat, "Invalid arguments: dsjob -stop <project> <job>")
       fixed_arity
  /\ List.length ["proj"] <> 2%nat
  /\ jobStop ["proj"] (Sample.world [])
     = Returns DSJE_DSJOB_ERROR
         [EvStderr ("Invalid arguments: dsjob -stop <project> <job>" +++ nl)]
         (Sample.world []).
Proof.
  split; [simpl; auto|]. split; [simpl; auto|].
  split; [discriminate|].
  apply (wrong_argument_count_is_rejected 0 "stop" jobStop 2
           "Invalid arguments: dsjob -stop <project> <job>" ["proj"]
           (Sample.world []));
    [simpl; auto|simpl; auto|discriminate].
Defined.

Lemma run_turns_down_malformed_options_witness :
  forallb option_ok [OptWait; OptWarn "3"] = true
  /\ (List.length (params_of [OptWait; OptWarn "3"]) <= MAX_PARAMS)%nat
  /\ turned_down run_usage_text
       (jobRun (options_tokens [OptWait; OptWarn "3"] ++ ["-rows"]))
       (Sample.world [])
  /\ turned_down run_usage_text
       (jobRun (options_tokens [OptWait; OptWarn "3"]
                ++ ["-mode"; "FAST"; "proj"; "job"]))
       (Sample.world [])
  /\ turned_down run_usage_text
       (jobRun (options_tokens [OptWait; OptWarn "3"] ++ ["proj"]))
       (Sample.world []).
Proof.
  assert (Hok : forallb option_ok [OptWait; OptWarn "3"] = true)
    by reflexivity.
  assert (Hlen : (List.length (params_of [OptWait; OptWarn "3"])
                  <= MAX_PARAMS)%nat)
    by (unfold MAX_PARAMS; simpl; lia).
  destruct (run_turns_down_malformed_options [OptWait; OptWarn "3"]
              (Sample.world []) Hok Hlen)
    as (Hvalue & _ & Hmode & _ & Hrest).
  split; [exact Hok|]. split; [exact Hlen|].
  split; [apply Hvalue; reflexivity|].
  split; [apply Hmode; reflexivity|].
  apply Hrest; [reflexivity|discriminate].
Defined.

Lemma failed_open_gives_last_error_witness :
  In ("stop", jobStop) (MajorOption 0)
  /\ exists tr w',
       jobStop ["proj"; "job"]
         (Sample.world [Sample.AHandle None; Sample.AStatus (-1002)])
       = Returns (-1002) tr w'
       /\ open_failures false (-1002) tr.
Proof.
  split; [simpl; auto|].
  eexists. eexists. split; [reflexivity|].
  eapply (failed_open_gives_last_error 0 "stop" jobStop ["proj"; "job"]
           (Sample.world [Sample.AHandle None; Sample.AStatus (-1002)]));
    [simpl; auto|reflexivity].
Defined.

Lemma rows_limit_forwarded_unless_zero_witness :
  atoi "-3" = Some (-3)
  /\ is_option "proj" = false
  /\ exists r tr w',
       jobRun ["-rows"; "-3"; "proj"; "job"]
         (Sample.world [Sample.AHandle (Some 7); Sample.AHandle (Some 8)])
       = Returns r tr w'
       /\ In (EvCall (DSLockJob 8) DSJE_NOERROR) tr
       /\ job_limits tr = [(DSJ_LIMITROWS, -3)].
Proof.
  split; [reflexivity|]. split; [reflexivity|].
  eexists. eexists. eexists. split; [reflexivity|].
  split; [simpl; tauto|].
  pose proof (fun w' r tr =>
                rows_limit_forwarded_unless_zero "-3" "proj" "job" (-3)
                  (Sample.world
                     [Sample.AHandle (Some 7); Sample.AHandle (Some 8)])
                  w' r tr eq_refl eq_refl) as Hrows.
  edestruct Hrows as (_ & Hforward); [reflexivity|].
  apply (Hforward ltac:(discriminate) 8). simpl. tauto.
Defined.

Lemma run_once_in_the_last_mode_witness :
  forallb option_ok [OptMode VALIDATE; OptWait; OptMode RESET] = true
  /\ is_option "proj" = false
  /\ exists r tr w',
       jobRun (options_tokens [OptMode VALIDATE; OptWait; OptMode RESET]
               ++ ["proj"; "job"])
         (Sample.world [Sample.AHandle (Some 7); Sample.AHandle (Some 8)])
       = Returns r tr w'
       /\ runs tr = [(DSJ_RUNRESET, DSJE_NOERROR)]
       /\ existsb is_wait tr = true.
Proof.
  split; [reflexivity|]. split; [reflexivity|].
  eexists. eexists. eexists. split; [reflexivity|].
  split; [reflexivity|].
  pose proof (fun w' r tr =>
                run_once_in_the_last_mode
                  [OptMode VALIDATE; OptWait; OptMode RESET] "proj" "job"
                  (Sample.world
                     [Sample.AHandle (Some 7); Sample.AHandle (Some 8)])
                  w' r tr eq_refl eq_refl) as Hrun.
  edestruct Hrun as (_ & Hwait); [reflexivity|].
  apply Hwait. split; reflexivity.
Defined.

Lemma info_commands_ask_every_question_witness :
  exists r tr w',
    jobJobInfo ["proj"; "job"]
      (Sample.world
         [Sample.AHandle (Some 7); Sample.AHandle (Some 8);
          Sample.AStatus (-1)])
    = Returns r tr w'
    /\ job_queries tr
       = [(DSJ_JOBSTATUS, -1); (DSJ_JOBCONTROLLER, 0);
          (DSJ_JOBSTARTTIMESTAMP, 0); (DSJ_JOBWAVENO, 0);
          (DSJ_USERSTATUS, 0)]
    /\ ((existsb is_job_opened tr = false /\ job_queries tr = [])
        \/ exists s1 s2 s3 s4 s5,
             job_queries tr
             = [(DSJ_JOBSTATUS, s1); (DSJ_JOBCONTROLLER, s2);
                (DSJ_JOBSTARTTIMESTAMP, s3); (DSJ_JOBWAVENO, s4);
                (DSJ_USERSTATUS, s5)]
             /\ r = not_available_is_success s5).
Proof.
  eexists. eexists. eexists. split; [reflexivity|].
  split; [reflexivity|].
  eapply (proj1 (info_commands_ask_every_question ["proj"; "job"]
                   (Sample.world
                      [Sample.AHandle (Some 7); Sample.AHandle (Some 8);
                       Sample.AStatus (-1)]) _ _ _)).
  reflexivity.
Defined.

Lemma listings_print_one_name_a_line_witness :
  In (jobLStages, DSJ_STAGELIST, stageList, "stage list") job_listings
  /\ exists tr w',
       jobLStages ["proj"; "job"]
         (Sample.world
            [Sample.AHandle (Some 7); Sample.AHandle (Some 8);
             Sample.AStatus (-5)])
       = Returns (-5) tr w'
       /\ stdout_text tr = EmptyString
       /\ stderr_text tr
          = "Error " +++ string_of_Z (-5) +++ " getting stage list" +++ nl.
Proof.
  pose proof listings_print_one_name_a_line as (Hjob & _).
  split; [simpl; auto|].
  exact (Hjob jobLStages DSJ_STAGELIST stageList "stage list" "proj" "job"
           (Sample.world
              [Sample.AHandle (Some 7); Sample.AHandle (Some 8);
               Sample.AStatus (-5)])
           7 8 [Sample.AHandle (Some 8); Sample.AStatus (-5)]
           [Sample.AStatus (-5)] [] (-5) Sample.no_job_info
           ltac:(simpl; auto) eq_refl eq_refl eq_refl).
Defined.

Lemma marshalled_value_prints_back_witness :
  param_types_distinct Sample.dsapi
  /\ make_param DSJ_PARAMTYPE_INTEGER "42"
     = Some (mkDSPARAM DSJ_PARAMTYPE_INTEGER (pInt 42))
  /\ exists text,
       printed_value DSJ_PARAMTYPE_INTEGER "42" = Some text
       /\ forall w,
            printValue (mkDSPARAM DSJ_PARAMTYPE_INTEGER (pInt 42)) w
            = Returns tt [EvStdout text] w.
Proof.
  assert (Hdistinct : param_types_distinct Sample.dsapi).
  { unfold param_types_distinct, param_types. simpl.
    repeat (constructor; [simpl; intuition discriminate|]). constructor. }
  split; [exact Hdistinct|]. split; [reflexivity|].
  exact (marshalled_value_prints_back DSJ_PARAMTYPE_INTEGER "42"
           (mkDSPARAM DSJ_PARAMTYPE_INTEGER (pInt 42)) Hdistinct eq_refl).
Defined.

Lemma logged_message_fits_the_buffer_witness :
  (exists r tr w',
      jobLog ["-warn"; "proj"; "job"]
        (Sample.reading [Sample.AHandle (Some 7); Sample.AHandle (Some 8)]
           ["h"; "i"; ascii_of_nat 7; ascii_of_nat 10; "!"]%char)
      = Returns r tr w'
      /\ logged tr = [(DSJ_LOGWARNING, "hi" +++ nl +++ "!")]
      /\ stdin w' = []
      /\ read_message ["h"; "i"; ascii_of_nat 7; ascii_of_nat 10; "!"]%char
           0 EmptyString
         = (string_of_list_ascii
              (filter kept
                 ["h"; "i"; ascii_of_nat 7; ascii_of_nat 10; "!"]%char),
            []))
  /\ (exists r tr w',
         jobLog ["proj"; "job"]
           (Sample.reading [Sample.AHandle (Some 7); Sample.AHandle (Some 8)]
              (repeat "a"%char 5000))
         = Returns r tr w'
         /\ logged tr
            = [(DSJ_LOGINFO, string_of_list_ascii (repeat "a"%char 4096))]
         /\ List.length (stdin w') = 904%nat
         /\ Nat.le
              (String.length
                 (fst (read_message (repeat "a"%char 5000) 0 EmptyString)))
              MAX_MSG_LEN
         /\ all_chars kept
              (fst (read_message (repeat "a"%char 5000) 0 EmptyString))
            = true).
Proof.
  split.
  - eexists. eexists. eexists. split; [reflexivity|].
    split; [reflexivity|]. split; [reflexivity|].
    eapply (logged_message_fits_the_buffer ["-warn"; "proj"; "job"]
              (Sample.reading [Sample.AHandle (Some 7); Sample.AHandle (Some 8)]
                 ["h"; "i"; ascii_of_nat 7; ascii_of_nat 10; "!"]%char));
      [reflexivity|reflexivity|].
    apply Nat.ltb_lt. reflexivity.
  - eexists. eexists. eexists. split; [reflexivity|].
    split; [vm_compute; reflexivity|]. split; [vm_compute; reflexivity|].
    pose proof (fun w' r tr =>
                  logged_message_fits_the_buffer ["proj"; "job"]
                    (Sample.reading
                       [Sample.AHandle (Some 7); Sample.AHandle (Some 8)]
                       (repeat "a"%char 5000))
                    w' r tr) as Hlog.
    edestruct Hlog as (_ & Hlen & Hkept & _); [reflexivity|].
    split; [exact Hlen|exact Hkept].
Defined.

Lemma project_is_the_last_argument_but_one_witness :
  In jobRun [jobRun; jobLog; jobLogSum 0]
  /\ exists r tr w',
       jobRun ["-wait"; "proj"; "job"]
         (Sample.world [Sample.AHandle None; Sample.AStatus (-3)])
       = Returns r tr w'
       /\ ((r = DSJE_DSJOB_ERROR /\ output_only tr = true
            /\ w' = Sample.world [Sample.AHandle None; Sample.AStatus (-3)])
           \/ exists pre project job h rest,
                ["-wait"; "proj"; "job"] = pre ++ [project; job]
                /\ is_option project = false
                /\ tr = EvCall (DSOpenProject project) h :: rest).
Proof.
  split; [simpl; auto|].
  eexists. eexists. eexists. split; [reflexivity|].
  eapply (project_is_the_last_argument_but_one 0 jobRun
            ["-wait"; "proj"; "job"]
            (Sample.world [Sample.AHandle None; Sample.AStatus (-3)]));
    [simpl; auto|reflexivity].
Defined.

Lemma lognewest_reports_the_newest_id_witness :
  (List.length ["proj"] < 2)%nat
  /\ turned_down lognewest_usage_text (jobLogNewest ["proj"])
       (Sample.world [])
  /\ log_type_of_name "DEBUG" = None
  /\ turned_down lognewest_usage_text (jobLogNewest ["proj"; "job"; "DEBUG"])
       (Sample.world [])
  /\ log_type_of_name "FATAL" = Some DSJ_LOGFATAL
  /\ exists r tr w',
       jobLogNewest ["proj"; "job"; "FATAL"]
         (Sample.world
            [Sample.AHandle (Some 7); Sample.AHandle (Some 8);
             Sample.AStatus 12])
       = Returns r tr w'
       /\ r = DSJE_NOERROR
       /\ stdout_text tr = "Newsest id = " +++ string_of_Z 12 +++ nl
       /\ stderr_text tr = EmptyString.
Proof.
  pose proof lognewest_reports_the_newest_id as (Hcount & Hname & Hrun).
  split; [simpl; lia|]. split; [apply Hcount; simpl; lia|].
  split; [reflexivity|]. split; [apply Hname; reflexivity|].
  split; [reflexivity|].
  destruct (Hrun ["proj"; "job"; "FATAL"] "proj" "job" DSJ_LOGFATAL
              (Sample.world
                 [Sample.AHandle (Some 7); Sample.AHandle (Some 8);
                  Sample.AStatus 12])
              7 8 [Sample.AHandle (Some 8); Sample.AStatus 12]
              [Sample.AStatus 12] [] 12
              (or_intror (ex_intro _ "FATAL" (conj eq_refl eq_refl)))
              eq_refl eq_refl eq_refl)
    as (r & tr & w' & Heq & Hpos & _).
  exists r, tr, w'. split; [exact Heq|]. apply Hpos. lia.
Defined.

Lemma log_type_names_round_trip_witness :
  @log_types_distinct Sample.dsapi
  /\ log_type_of_name "FATAL" = Some DSJ_LOGFATAL
  /\ log_type_label DSJ_LOGFATAL = "FATAL"
  /\ In DSJ_LOGRESET log_types
  /\ log_type_of_name (log_type_label DSJ_LOGRESET) = Some DSJ_LOGRESET
  /\ ~ In DSJ_LOGANY log_types
  /\ log_type_label DSJ_LOGANY = "????"
  /\ log_type_of_name (log_type_label DSJ_LOGANY) = None.
Proof.
  assert (Hdistinct : @log_types_distinct Sample.dsapi).
  { unfold log_types_distinct, log_types. simpl.
    repeat (constructor; [simpl; intuition discriminate|]). constructor. }
  assert (Hany : ~ In DSJ_LOGANY log_types)
    by (simpl; intuition discriminate).
  destruct (log_type_names_round_trip Hdistinct) as (Hname & Htype & Hnone).
  split; [exact Hdistinct|]. split; [reflexivity|].
  split; [apply Hname; reflexivity|].
  split; [simpl; tauto|]. split; [apply Htype; simpl; tauto|].
  split; [exact Hany|]. exact (Hnone DSJ_LOGANY Hany).
Defined.

Lemma main_leaves_nothing_open_witness :
  exists r tr w',
    main 0 ["dsjob"; "-server"; "host"; "-stop"; "proj"; "job"]
      (Sample.world
         [Sample.AHandle (Some 7); Sample.AHandle (Some 8);
          Sample.AStatus (-2)])
    = Returns r tr w'
    /\ releases_handles tr
    /\ count_events is_project_opened tr = count_events is_project_closed tr
    /\ count_events is_job_opened tr = count_events is_job_closed tr.
Proof.
  eexists. eexists. eexists. split; [reflexivity|].
  pose proof (fun w' r tr =>
                main_leaves_nothing_open 0
                  ["dsjob"; "-server"; "host"; "-stop"; "proj"; "job"]
                  (Sample.world
                     [Sample.AHandle (Some 7); Sample.AHandle (Some 8);
                      Sample.AStatus (-2)])
                  w' r tr) as Hmain.
  edestruct Hmain as (Hrel & Hprojects & Hjobs & _); [reflexivity|].
  split; [exact Hrel|]. split; [exact Hprojects|exact Hjobs].
Defined.

Lemma setParam_cuts_at_the_first_equals_witness :
  strchr_split "=" "a=b=c" = Some ("a", "b=c")
  /\ has_equals "a" = false
  /\ exists status e2,
       answer _ (DSSetParam 8 "a"
                   (mkDSPARAM DSJ_PARAMTYPE_STRING (pString "b=c"))) []
       = (status, e2)
       /\ setParam 8 ("a" +++ "=" +++ "b=c")
            (Sample.world [Sample.AParamType 0 0])
          = Returns status
              (EvCall (DSGetParamInfo 8 "a") (DSJE_NOERROR, Sample.param_info 0)
               :: EvCall (DSSetParam 8 "a"
                            (mkDSPARAM DSJ_PARAMTYPE_STRING (pString "b=c")))
                    status
               :: (if failed status
                   then [EvStderr ("Error setting value of parameter '"
                                   +++ "a" +++ "'" +++ nl)]
                   else []))
              (mkWorld e2 []).
Proof.
  pose proof setParam_cuts_at_the_first_equals as (Hsplit & Hset).
  split; [apply (proj2 (Hsplit "a=b=c" "a" "b=c")); split; reflexivity|].
  split; [reflexivity|].
  exact (Hset 8 "a" "b=c" (Sample.world [Sample.AParamType 0 0])
           (Sample.param_info 0) [] eq_refl eq_refl eq_refl).
Defined.

Lemma queries_change_nothing_witness :
  In ("lstages", jobLStages) (MajorOption 0)
  /\ In "lstages" query_commands
  /\ exists r tr w',
       jobLStages ["proj"; "job"]
         (Sample.world [Sample.AHandle (Some 7); Sample.AHandle (Some 8)])
       = Returns r tr w'
       /\ filter changes_engine tr = [].
Proof.
  split; [simpl; tauto|]. split; [simpl; tauto|].
  eexists. eexists. eexists. split; [reflexivity|].
  eapply (proj1 (queries_change_nothing 0 "lstages" jobLStages
                   ["proj"; "job"]
                   (Sample.world
                      [Sample.AHandle (Some 7); Sample.AHandle (Some 8)])
                   _ _ _ ltac:(simpl; tauto) eq_refl)).
  simpl. tauto.
Defined.

Lemma slash_starts_a_command_under_win32_witness :
  In ("stop", jobStop) (MajorOption 0)
  /\ @WIN32 Sample.platform = false
  /\ main 0 ["dsjob"; "/stop"; "proj"; "job"] = reportError 0
  /\ @WIN32 Sample.win32 = true
  /\ @main Sample.win32 Sample.dsapi Sample.engine 0
       ["dsjob"; "/stop"; "proj"; "job"]
     = run_command None None None None jobStop ["proj"; "job"].
Proof.
  split; [simpl; auto|]. split; [reflexivity|].
  split;
    [exact (proj1 (slash_starts_a_command_under_win32 0) "dsjob"
              (mkGlobalOptions None None None None) "stop" jobStop
              ["proj"; "job"] ltac:(simpl; auto))|].
  split; [reflexivity|].
  exact (proj1 (@slash_starts_a_command_under_win32 Sample.win32 Sample.dsapi
                  Sample.engine 0)
           "dsjob" (mkGlobalOptions None None None None) "stop" jobStop
           ["proj"; "job"] ltac:(simpl; auto)).
Defined.

Lemma of_log_options_the_last_counts_witness :
  is_option "proj" = false
  /\ forallb logsum_option_ok
       [OptType "INFO"; OptMax "5"; OptType "WARNING"] = true
  /\ exists r tr w',
       jobLogSum 3
         (logsum_tokens [OptType "INFO"; OptMax "5"; OptType "WARNING"]
          ++ ["proj"; "job"])
         (Sample.world
            [Sample.AHandle (Some 7); Sample.AHandle (Some 8);
             Sample.ALogEvent (-1001) Sample.no_event])
       = Returns r tr w'
       /\ first_entries tr = [(DSJ_LOGWARNING, 0, 0, 5)]
       /\ (first_entries tr = []
           \/ first_entries tr
              = [(last_type [OptType "INFO"; OptMax "5"; OptType "WARNING"]
                    DSJ_LOGANY, 0, 0,
                  last_max [OptType "INFO"; OptMax "5"; OptType "WARNING"]
                    0)]).
Proof.
  split; [reflexivity|]. split; [reflexivity|].
  eexists. eexists. eexists. split; [reflexivity|].
  split; [reflexivity|].
  eapply (proj1 (of_log_options_the_last_counts 3 "proj" "job"
                   (Sample.world
                      [Sample.AHandle (Some 7); Sample.AHandle (Some 8);
                       Sample.ALogEvent (-1001) Sample.no_event])
                   _ _ _ eq_refl)
            [OptType "INFO"; OptMax "5"; OptType "WARNING"] eq_refl).
  reflexivity.
Defined.

Lemma logdetail_looks_up_the_number_read_witness :
  leading_number "abc" = false
  /\ atoi "abc" = Some 0
  /\ exists tr w',
       jobLogDetail ["proj"; "job"; "abc"]
         (Sample.world
            [Sample.AHandle (Some 7); Sample.AHandle (Some 8);
             Sample.AStatus (-4)])
       = Returns (-4) tr w'
       /\ In (EvCall (DSGetLogEntry 8 0) (-4, Sample.no_detail)) tr
       /\ stdout_text tr = EmptyString
       /\ stderr_text tr
          = "Error " +++ string_of_Z (-4) +++ " getting event details" +++ nl.
Proof.
  pose proof logdetail_looks_up_the_number_read as (Hzero & Hrun).
  split; [reflexivity|]. split; [apply Hzero; reflexivity|].
  destruct (Hrun "proj" "job" "abc" 0
              (Sample.world
                 [Sample.AHandle (Some 7); Sample.AHandle (Some 8);
                  Sample.AStatus (-4)])
              7 8 [Sample.AHandle (Some 8); Sample.AStatus (-4)]
              [Sample.AStatus (-4)] [] (-4) Sample.no_detail
              eq_refl eq_refl eq_refl eq_refl)
    as (tr & w' & Heq & Hout & Herr).
  exists tr, w'. split; [exact Heq|].
  split; [|split; [exact Hout|exact Herr]].
  assert (Htr : Returns (-4) tr w'
                = jobLogDetail ["proj"; "job"; "abc"]
                    (Sample.world
                       [Sample.AHandle (Some 7); Sample.AHandle (Some 8);
                        Sample.AStatus (-4)]))
    by (symmetry; exact Heq).
  injection Htr as -> _. simpl. tauto.
Defined.

Lemma run_does_its_steps_in_order_witness :
  exists r tr w',
    jobRun (options_tokens
              [OptWarn "5"; OptParam "a=b"; OptMode RESET; OptWait]
            ++ ["proj"; "job"])
      (Sample.world [Sample.AHandle (Some 7); Sample.AHandle (Some 8)])
    = Returns r tr w'
    /\ r = DSJE_NOERROR
    /\ steps tr
       = [OpenProjectStep "proj"; OpenJobStep "job"; LockStep;
          LimitStep DSJ_LIMITWARN 5; QueryStep "a"; SetStep "a";
          RunStep DSJ_RUNRESET; WaitStep; UnlockStep; CloseJobStep;
          CloseProjectStep]
    /\ stderr_text tr = EmptyString.
Proof.
  eexists. eexists. eexists. split; [reflexivity|].
  pose proof (fun w' r tr =>
                run_does_its_steps_in_order
                  [OptWarn "5"; OptParam "a=b"; OptMode RESET; OptWait]
                  "proj" "job"
                  (Sample.world
                     [Sample.AHandle (Some 7); Sample.AHandle (Some 8)])
                  w' r tr eq_refl eq_refl) as Hrun.
  edestruct Hrun as (Hr & Hsteps & _ & _ & _ & Herr & _);
    [reflexivity|reflexivity|].
  split; [exact Hr|]. split; [exact Hsteps|exact Herr].
Defined.
